(** * pagepipe: the page-discovery subsystem (package [crawl])

    A shallow embedding of [crawl/discover.go], [crawl/queue.go] and
    [crawl/rules.go], together with the parts of Go's standard library the
    three files call ([strings], [path], [net/url]), and the properties of
    the discovery subsystem proved over that embedding.

    Go strings are byte sequences: they are modelled as [string], whose
    characters are the 256 values of [ascii].  Go's [int] indices are
    natural numbers, with [None] for the [-1] of a failed search. *)

From Stdlib Require Import String Ascii NArith List Bool Arith Lia.
From stdpp Require Import base option gmap strings list.
Import ListNotations.

Local Open Scope string_scope.
Local Open Scope bool_scope.

(** ** Results, errors and panics *)

(** A Go [(value, error)] pair: exactly one of the two is meaningful. *)
Inductive result (E A : Type) : Type :=
| Ok (a : A)
| Err (e : E).
Arguments Ok {E A} a.
Arguments Err {E A} e.

Definition is_ok {E A} (r : result E A) : bool :=
  match r with Ok _ => true | Err _ => false end.

(** Run-time panics the modelled code can raise. *)
Inductive panic : Type :=
| IndexOutOfRange
| NilDereference.

(** The outcome of running a Go function that may panic.  [OutOfFuel]
    belongs to the model only: a loop that was cut before its condition
    became false. *)
Inductive outcome (A : Type) : Type :=
| Returned (a : A)
| Panicked (p : panic)
| OutOfFuel.
Arguments Returned {A} a.
Arguments Panicked {A} p.
Arguments OutOfFuel {A}.

(** ** Bytes *)

Definition byte_between (lo hi c : ascii) : bool :=
  Ascii.leb lo c && Ascii.leb c hi.

Definition is_lower (c : ascii) : bool := byte_between "a" "z" c.
Definition is_upper (c : ascii) : bool := byte_between "A" "Z" c.
Definition is_digit (c : ascii) : bool := byte_between "0" "9" c.

(** [c >= utf8.RuneSelf], i.e. [c >= 0x80]. *)
Definition is_non_ascii (c : ascii) : bool := (128 <=? N_of_ascii c)%N.

Definition byte_in (c : ascii) (set : string) : bool :=
  existsb (Ascii.eqb c) (list_ascii_of_string set).

(** Slices [s[:n]] and [s[n:]]. *)
Fixpoint str_take (n : nat) (s : string) : string :=
  match n, s with
  | S n', String c s' => String c (str_take n' s')
  | _, _ => ""
  end.

Fixpoint str_drop (n : nat) (s : string) : string :=
  match n, s with
  | S n', String _ s' => str_drop n' s'
  | _, _ => s
  end.

Definition str_all (p : ascii -> bool) (s : string) : bool :=
  forallb p (list_ascii_of_string s).

Definition str_any (p : ascii -> bool) (s : string) : bool :=
  existsb p (list_ascii_of_string s).

Fixpoint str_map (f : ascii -> ascii) (s : string) : string :=
  match s with
  | "" => ""
  | String c s' => String (f c) (str_map f s')
  end.

(** ** Package [strings] *)

Module strings.

Definition HasPrefix (s prefix : string) : bool := String.prefix prefix s.

Definition HasSuffix (s suffix : string) : bool :=
  (String.length suffix <=? String.length s)%nat &&
  String.eqb (str_drop (String.length s - String.length suffix) s) suffix.

Definition TrimSuffix (s suffix : string) : string :=
  if HasSuffix s suffix
  then str_take (String.length s - String.length suffix) s
  else s.

(** [strings.IndexByte]; also [strings.Index] with a one-byte needle. *)
Fixpoint IndexByte (s : string) (c : ascii) : option nat :=
  match s with
  | "" => None
  | String a s' =>
      if Ascii.eqb a c then Some 0 else S <$> IndexByte s' c
  end.

Fixpoint LastIndexByte (s : string) (c : ascii) : option nat :=
  match s with
  | "" => None
  | String a s' =>
      match LastIndexByte s' c with
      | Some i => Some (S i)
      | None => if Ascii.eqb a c then Some 0 else None
      end
  end.

(** [strings.Index] for an arbitrary needle. *)
Fixpoint Index (s substr : string) : option nat :=
  if String.prefix substr s then Some 0
  else match s with
       | "" => None
       | String _ s' => S <$> Index s' substr
       end.

Definition ContainsByte (s : string) (c : ascii) : bool :=
  str_any (Ascii.eqb c) s.

Definition CountByte (s : string) (c : ascii) : nat :=
  List.length (List.filter (Ascii.eqb c) (list_ascii_of_string s)).

(** [strings.Cut] with a one-byte separator. *)
Definition CutByte (s : string) (sep : ascii) : string * string * bool :=
  match IndexByte s sep with
  | Some i => (str_take i s, str_drop (S i) s, true)
  | None => (s, "", false)
  end.

Definition lower_byte (c : ascii) : ascii :=
  if is_upper c then ascii_of_N (N_of_ascii c + 32) else c.

(** The branch of [strings.ToLower] taken by strings without a byte above
    0x7f: unchanged without an upper-case letter, else mapped bytewise. *)
Definition ToLowerASCII (s : string) : string :=
  if str_any is_upper s then str_map lower_byte s else s.

Section ToLower.
(** [strings.Map(unicode.ToLower, s)], reached only for strings with a
    byte above 0x7f; the Unicode case tables are not part of this
    development. *)
Variable unicode_lower : string -> string.

Definition ToLower (s : string) : string :=
  if str_any is_non_ascii s then unicode_lower s else ToLowerASCII s.
End ToLower.

(** [strings.TrimPrefix]. *)
Definition TrimPrefix (s prefix : string) : string :=
  if HasPrefix s prefix then str_drop (String.length prefix) s else s.

(** [trimLeftByte] and [trimRightByte]: the bytes equal to [c] are cut
    from the front, or from the back, until another byte is met. *)
Fixpoint trimLeftByte (s : string) (c : ascii) : string :=
  match s with
  | "" => ""
  | String a s' => if Ascii.eqb a c then trimLeftByte s' c else s
  end.

Fixpoint trimRightByte (s : string) (c : ascii) : string :=
  match s with
  | "" => ""
  | String a s' =>
      match trimRightByte s' c with
      | "" => if Ascii.eqb a c then "" else String a ""
      | t => String a t
      end
  end.

(** [strings.Trim] with a cutset of one byte below 0x80. *)
Definition TrimByte (s : string) (c : ascii) : string :=
  trimLeftByte (trimRightByte s c) c.

(** The loop of [genSplit]: at most [n] cuts, each at the first
    separator of what is left. *)
Fixpoint genSplit (n : nat) (s : string) (sep : ascii) : list string :=
  match n with
  | 0 => [s]
  | S n' =>
      match IndexByte s sep with
      | None => [s]
      | Some m => str_take m s :: genSplit n' (str_drop (S m) s) sep
      end
  end.

(** [strings.Split] with a one-byte separator. *)
Definition SplitByte (s : string) (sep : ascii) : list string :=
  genSplit (CountByte s sep) s sep.

Fixpoint Join (elems : list string) (sep : string) : string :=
  match elems with
  | [] => ""
  | [x] => x
  | x :: rest => x ++ sep ++ Join rest sep
  end.

(** The table [asciiSpace]: tab, line feed, vertical tab, form feed,
    carriage return and space. *)
Definition asciiSpace (c : ascii) : bool :=
  ((9 <=? N_of_ascii c)%N && (N_of_ascii c <=? 13)%N)
  || (N_of_ascii c =? 32)%N.

(** The ASCII path of [strings.Fields]: [field] is [s[fieldStart:i]], the
    field being read. *)
Fixpoint FieldsASCII_from (s field : string) : list string :=
  match s with
  | "" => if String.eqb field "" then [] else [field]
  | String c s' =>
      if asciiSpace c
      then (if String.eqb field "" then FieldsASCII_from s' ""
            else field :: FieldsASCII_from s' "")
      else FieldsASCII_from s' (field ++ String c "")
  end.

Section Fields.
(** [strings.FieldsFunc(s, unicode.IsSpace)], reached only for strings
    with a byte above 0x7f. *)
Variable unicode_fields : string -> list string.

Definition Fields (s : string) : list string :=
  if str_any is_non_ascii s then unicode_fields s else FieldsASCII_from s "".
End Fields.

End strings.

(** ** Package [path] *)

Module path.

(** The loop of [path.Ext]: [i] is one more than the index examined. *)
Fixpoint Ext_scan (p : string) (i : nat) : string :=
  match i with
  | 0 => ""
  | S j =>
      match String.get j p with
      | Some c =>
          if Ascii.eqb c "/" then ""
          else if Ascii.eqb c "." then str_drop j p
          else Ext_scan p j
      | None => ""
      end
  end.

Definition Ext (p : string) : string := Ext_scan p (String.length p).

End path.

(** ** Package [net/url]

    [Parse], [URL.String] and [URL.ResolveReference] with the
    helpers they call, following Go 1.22's [net/url/url.go]. *)

Module url.

Inductive error : Type :=
| EscapeError (s : string)
| InvalidHostError (s : string)
| ErrControlCharacter
| ErrMissingScheme
| ErrFirstSegmentColon
| ErrMissingBracket
| ErrInvalidPort (s : string)
| ErrInvalidUserinfo.

Inductive encoding : Type :=
| encodePath
| encodePathSegment
| encodeHost
| encodeZone
| encodeUserPassword
| encodeQueryComponent
| encodeFragment.

Definition is_host_mode (mode : encoding) : bool :=
  match mode with encodeHost | encodeZone => true | _ => false end.

Record Userinfo : Type := mkUserinfo {
  username : string;
  password : string;
  passwordSet : bool
}.

Record URL : Type := mkURL {
  Scheme : string;
  Opaque : string;
  User : option Userinfo;
  Host : string;
  Path : string;
  RawPath : string;
  OmitHost : bool;
  ForceQuery : bool;
  RawQuery : string;
  Fragment : string;
  RawFragment : string
}.

(** [new(URL)]: every field at its zero value. *)
Definition zero : URL :=
  mkURL "" "" None "" "" "" false false "" "" "".

Definition with_Scheme (v : string) (u : URL) : URL :=
  mkURL v (Opaque u) (User u) (Host u) (Path u) (RawPath u) (OmitHost u)
        (ForceQuery u) (RawQuery u) (Fragment u) (RawFragment u).
Definition with_Opaque (v : string) (u : URL) : URL :=
  mkURL (Scheme u) v (User u) (Host u) (Path u) (RawPath u) (OmitHost u)
        (ForceQuery u) (RawQuery u) (Fragment u) (RawFragment u).
Definition with_User (v : option Userinfo) (u : URL) : URL :=
  mkURL (Scheme u) (Opaque u) v (Host u) (Path u) (RawPath u) (OmitHost u)
        (ForceQuery u) (RawQuery u) (Fragment u) (RawFragment u).
Definition with_Host (v : string) (u : URL) : URL :=
  mkURL (Scheme u) (Opaque u) (User u) v (Path u) (RawPath u) (OmitHost u)
        (ForceQuery u) (RawQuery u) (Fragment u) (RawFragment u).
Definition with_Path (v : string) (u : URL) : URL :=
  mkURL (Scheme u) (Opaque u) (User u) (Host u) v (RawPath u) (OmitHost u)
        (ForceQuery u) (RawQuery u) (Fragment u) (RawFragment u).
Definition with_RawPath (v : string) (u : URL) : URL :=
  mkURL (Scheme u) (Opaque u) (User u) (Host u) (Path u) v (OmitHost u)
        (ForceQuery u) (RawQuery u) (Fragment u) (RawFragment u).
Definition with_OmitHost (v : bool) (u : URL) : URL :=
  mkURL (Scheme u) (Opaque u) (User u) (Host u) (Path u) (RawPath u) v
        (ForceQuery u) (RawQuery u) (Fragment u) (RawFragment u).
Definition with_ForceQuery (v : bool) (u : URL) : URL :=
  mkURL (Scheme u) (Opaque u) (User u) (Host u) (Path u) (RawPath u)
        (OmitHost u) v (RawQuery u) (Fragment u) (RawFragment u).
Definition with_RawQuery (v : string) (u : URL) : URL :=
  mkURL (Scheme u) (Opaque u) (User u) (Host u) (Path u) (RawPath u)
        (OmitHost u) (ForceQuery u) v (Fragment u) (RawFragment u).
Definition with_Fragment (v : string) (u : URL) : URL :=
  mkURL (Scheme u) (Opaque u) (User u) (Host u) (Path u) (RawPath u)
        (OmitHost u) (ForceQuery u) (RawQuery u) v (RawFragment u).
Definition with_RawFragment (v : string) (u : URL) : URL :=
  mkURL (Scheme u) (Opaque u) (User u) (Host u) (Path u) (RawPath u)
        (OmitHost u) (ForceQuery u) (RawQuery u) (Fragment u) v.

Definition nonempty (s : string) : bool := negb (String.eqb s "").

(** The byte 0x22, the double quote. *)
Definition dquote : ascii := ascii_of_N 34.

Definition ishex (c : ascii) : bool :=
  is_digit c || byte_between "a" "f" c || byte_between "A" "F" c.

Definition unhex (c : ascii) : N :=
  if is_digit c then N_of_ascii c - 48
  else if byte_between "a" "f" c then N_of_ascii c - 97 + 10
  else if byte_between "A" "F" c then N_of_ascii c - 65 + 10
  else 0.

(** [upperhex[n]] for a nibble [n]. *)
Definition upperhex (n : N) : ascii :=
  if (n <? 10)%N then ascii_of_N (48 + n) else ascii_of_N (65 + (n - 10)).

Definition shouldEscape (c : ascii) (mode : encoding) : bool :=
  if is_lower c || is_upper c || is_digit c then false
  else if is_host_mode mode
          && (byte_in c "!$&'()*+,;=:[]<>" || Ascii.eqb c dquote) then false
  else if byte_in c "-_.~" then false
  else if byte_in c "$&+,/:;=?@" then
    match mode with
    | encodePath => Ascii.eqb c "?"
    | encodePathSegment => byte_in c "/;,?"
    | encodeUserPassword => byte_in c "@/?:"
    | encodeQueryComponent => true
    | encodeFragment => false
    | encodeHost | encodeZone => true
    end
  else if match mode with encodeFragment => byte_in c "!()*" | _ => false end
  then false
  else true.

(** First pass of [unescape]: checks the [%] escapes and the host bytes,
    and returns the number of escapes and [hasPlus]. *)
Fixpoint unescape_scan (s : string) (mode : encoding)
  : result error (nat * bool) :=
  match s with
  | "" => Ok (0, false)
  | String "%" rest =>
      match rest with
      | String h1 (String h2 rest') =>
          if negb (ishex h1 && ishex h2) then Err (EscapeError (str_take 3 s))
          else
            let esc := str_take 3 s in
            let v := ascii_of_N (unhex h1 * 16 + unhex h2) in
            if match mode with encodeHost => true | _ => false end
               && (unhex h1 <? 8)%N && negb (String.eqb esc "%25")
            then Err (EscapeError esc)
            else if match mode with encodeZone => true | _ => false end
               && negb (String.eqb esc "%25") && negb (Ascii.eqb v " ")
               && shouldEscape v encodeHost
            then Err (EscapeError esc)
            else match unescape_scan rest' mode with
                 | Ok (n, hasPlus) => Ok (S n, hasPlus)
                 | Err e => Err e
                 end
      | _ => Err (EscapeError (str_take 3 s))
      end
  | String "+" rest =>
      match unescape_scan rest mode with
      | Ok (n, hasPlus) =>
          (* the last [+] decides: [hasPlus = mode == encodeQueryComponent] *)
          Ok (n, match mode with encodeQueryComponent => true | _ => hasPlus end)
      | Err e => Err e
      end
  | String c rest =>
      if is_host_mode mode && negb (is_non_ascii c) && shouldEscape c encodeHost
      then Err (InvalidHostError (String c ""))
      else unescape_scan rest mode
  end.

(** Second pass of [unescape], on a string the first pass accepted. *)
Fixpoint unescape_decode (s : string) (mode : encoding) : string :=
  match s with
  | "" => ""
  | String "%" (String h1 (String h2 rest')) =>
      String (ascii_of_N (unhex h1 * 16 + unhex h2)) (unescape_decode rest' mode)
  | String "+" rest =>
      String (match mode with encodeQueryComponent => " " | _ => "+" end)%char
             (unescape_decode rest mode)
  | String c rest => String c (unescape_decode rest mode)
  end.

Definition unescape (s : string) (mode : encoding) : result error string :=
  match unescape_scan s mode with
  | Err e => Err e
  | Ok (n, hasPlus) =>
      if (n =? 0)%nat && negb hasPlus then Ok s else Ok (unescape_decode s mode)
  end.

Definition is_query_mode (mode : encoding) : bool :=
  match mode with encodeQueryComponent => true | _ => false end.

Fixpoint escape_bytes (s : string) (mode : encoding) : string :=
  match s with
  | "" => ""
  | String c s' =>
      if Ascii.eqb c " " && is_query_mode mode
      then String "+" (escape_bytes s' mode)
      else if shouldEscape c mode
      then String "%" (String (upperhex (N_of_ascii c / 16))
                      (String (upperhex (N_of_ascii c mod 16))
                              (escape_bytes s' mode)))
      else String c (escape_bytes s' mode)
  end.

Definition escape (s : string) (mode : encoding) : string :=
  if str_any (fun c => shouldEscape c mode) s then escape_bytes s mode else s.

Definition validEncoded (s : string) (mode : encoding) : bool :=
  str_all (fun c =>
             if byte_in c "!$&'()*+,;=:@" then true
             else if byte_in c "[]" then true
             else if Ascii.eqb c "%" then true
             else negb (shouldEscape c mode)) s.

Definition stringContainsCTLByte (s : string) : bool :=
  str_any (fun b => (N_of_ascii b <? 32)%N || (N_of_ascii b =? 127)%N) s.

(** [getScheme]: [i] is the index of the first byte of [s] in [rawURL]. *)
Fixpoint getScheme_loop (rawURL : string) (i : nat) (s : string)
  : result error (string * string) :=
  match s with
  | "" => Ok ("", rawURL)
  | String c s' =>
      if is_lower c || is_upper c then getScheme_loop rawURL (S i) s'
      else if is_digit c || byte_in c "+-." then
        if (i =? 0)%nat then Ok ("", rawURL) else getScheme_loop rawURL (S i) s'
      else if Ascii.eqb c ":" then
        if (i =? 0)%nat then Err ErrMissingScheme
        else Ok (str_take i rawURL, s')
      else Ok ("", rawURL)
  end.

Definition getScheme (rawURL : string) : result error (string * string) :=
  getScheme_loop rawURL 0 rawURL.

Definition validOptionalPort (port : string) : bool :=
  match port with
  | "" => true
  | String c digits => Ascii.eqb c ":" && str_all is_digit digits
  end.

(** [validUserinfo] ranges over runes; a byte above 0x7f starts a rune
    outside every accepted class, so the bytewise test is the same. *)
Definition validUserinfo (s : string) : bool :=
  str_all (fun r => is_upper r || is_lower r || is_digit r
                    || byte_in r "-._:~!$&'()*+,;=%@") s.

Definition parseHost (host : string) : result error string :=
  let plain :=
    match unescape host encodeHost with
    | Ok h => Ok h
    | Err e => Err e
    end in
  if strings.HasPrefix host "[" then
    match strings.LastIndexByte host "]" with
    | None => Err ErrMissingBracket
    | Some i =>
        let colonPort := str_drop (S i) host in
        if negb (validOptionalPort colonPort) then Err (ErrInvalidPort colonPort)
        else
          match strings.Index (str_take i host) "%25" with
          | Some zone =>
              match unescape (str_take zone host) encodeHost with
              | Err e => Err e
              | Ok host1 =>
                  match unescape (str_drop zone (str_take i host)) encodeZone with
                  | Err e => Err e
                  | Ok host2 =>
                      match unescape (str_drop i host) encodeHost with
                      | Err e => Err e
                      | Ok host3 => Ok (host1 ++ host2 ++ host3)
                      end
                  end
              end
          | None => plain
          end
    end
  else
    match strings.LastIndexByte host ":" with
    | Some i =>
        let colonPort := str_drop i host in
        if negb (validOptionalPort colonPort) then Err (ErrInvalidPort colonPort)
        else plain
    | None => plain
    end.

Definition parseAuthority (authority : string)
  : result error (option Userinfo * string) :=
  let i := strings.LastIndexByte authority "@" in
  match parseHost (match i with
                   | None => authority
                   | Some i => str_drop (S i) authority
                   end) with
  | Err e => Err e
  | Ok host =>
      match i with
      | None => Ok (None, host)
      | Some i =>
          let userinfo := str_take i authority in
          if negb (validUserinfo userinfo) then Err ErrInvalidUserinfo
          else if negb (strings.ContainsByte userinfo ":") then
            match unescape userinfo encodeUserPassword with
            | Err e => Err e
            | Ok userinfo => Ok (Some (mkUserinfo userinfo "" false), host)
            end
          else
            let '(username, password, _) := strings.CutByte userinfo ":" in
            match unescape username encodeUserPassword with
            | Err e => Err e
            | Ok username =>
                match unescape password encodeUserPassword with
                | Err e => Err e
                | Ok password =>
                    Ok (Some (mkUserinfo username password true), host)
                end
            end
      end
  end.

Definition setPath (u : URL) (p : string) : result error URL :=
  match unescape p encodePath with
  | Err e => Err e
  | Ok path =>
      let u := with_Path path u in
      if String.eqb p (escape path encodePath)
      then Ok (with_RawPath "" u)
      else Ok (with_RawPath p u)
  end.

Definition setFragment (u : URL) (f : string) : result error URL :=
  match unescape f encodeFragment with
  | Err e => Err e
  | Ok frag =>
      let u := with_Fragment frag u in
      if String.eqb f (escape frag encodeFragment)
      then Ok (with_RawFragment "" u)
      else Ok (with_RawFragment f u)
  end.

(** [parse(rawURL, viaRequest)] with [viaRequest = false], the only way
    [Parse] calls it. *)
Definition parse (rawURL : string) : result error URL :=
  if stringContainsCTLByte rawURL then Err ErrControlCharacter
  else if String.eqb rawURL "*" then Ok (with_Path "*" zero)
  else
    match getScheme rawURL with
    | Err e => Err e
    | Ok (scheme, rest) =>
        let url := with_Scheme (strings.ToLowerASCII scheme) zero in
        let '(rest, url) :=
          if strings.HasSuffix rest "?" && (strings.CountByte rest "?" =? 1)%nat
          then (str_take (String.length rest - 1) rest, with_ForceQuery true url)
          else let '(rest, query, _) := strings.CutByte rest "?" in
               (rest, with_RawQuery query url) in
        if negb (strings.HasPrefix rest "/") && nonempty (Scheme url)
        then Ok (with_Opaque rest url)
        else if negb (strings.HasPrefix rest "/")
                && strings.ContainsByte (fst (fst (strings.CutByte rest "/"))) ":"
        then Err ErrFirstSegmentColon
        else
          let authority_step :=
            if (nonempty (Scheme url) || negb (strings.HasPrefix rest "///"))
               && strings.HasPrefix rest "//"
            then
              let authority := str_drop 2 rest in
              let '(authority, rest) :=
                match strings.IndexByte authority "/" with
                | Some i => (str_take i authority, str_drop i authority)
                | None => (authority, "")
                end in
              match parseAuthority authority with
              | Err e => Err e
              | Ok (user, host) => Ok (rest, with_Host host (with_User user url))
              end
            else if nonempty (Scheme url) && strings.HasPrefix rest "/"
            then Ok (rest, with_OmitHost true url)
            else Ok (rest, url) in
          match authority_step with
          | Err e => Err e
          | Ok (rest, url) => setPath url rest
          end
    end.

Definition Parse (rawURL : string) : result error URL :=
  let '(u, frag, _) := strings.CutByte rawURL "#" in
  match parse u with
  | Err e => Err e
  | Ok url =>
      if String.eqb frag "" then Ok url else setFragment url frag
  end.

Definition EscapedPath (u : URL) : string :=
  if nonempty (RawPath u) && validEncoded (RawPath u) encodePath
     && match unescape (RawPath u) encodePath with
        | Ok p => String.eqb p (Path u)
        | Err _ => false
        end
  then RawPath u
  else if String.eqb (Path u) "*" then "*"
  else escape (Path u) encodePath.

Definition EscapedFragment (u : URL) : string :=
  if nonempty (RawFragment u) && validEncoded (RawFragment u) encodeFragment
     && match unescape (RawFragment u) encodeFragment with
        | Ok f => String.eqb f (Fragment u)
        | Err _ => false
        end
  then RawFragment u
  else escape (Fragment u) encodeFragment.

Definition Userinfo_String (ui : Userinfo) : string :=
  let s := escape (username ui) encodeUserPassword in
  if passwordSet ui then s ++ ":" ++ escape (password ui) encodeUserPassword
  else s.

(** [URL.String]: [buf] is threaded through the same tests, in order. *)
Definition String (u : URL) : string :=
  let buf := if nonempty (Scheme u) then Scheme u ++ ":" else "" in
  let buf :=
    if nonempty (Opaque u) then buf ++ Opaque u
    else
      let has_user := match User u with Some _ => true | None => false end in
      let buf :=
        if nonempty (Scheme u) || nonempty (Host u) || has_user then
          if OmitHost u && negb (nonempty (Host u)) && negb has_user then buf
          else
            let buf :=
              if nonempty (Host u) || nonempty (Path u) || has_user
              then buf ++ "//" else buf in
            let buf :=
              match User u with
              | Some ui => buf ++ Userinfo_String ui ++ "@"
              | None => buf
              end in
            if nonempty (Host u) then buf ++ escape (Host u) encodeHost else buf
        else buf in
      let path := EscapedPath u in
      let buf :=
        if nonempty path && negb (strings.HasPrefix path "/") && nonempty (Host u)
        then buf ++ "/" else buf in
      let buf :=
        if String.eqb buf ""
           && strings.ContainsByte (fst (fst (strings.CutByte path "/"))) ":"
        then buf ++ "./" else buf in
      buf ++ path in
  let buf :=
    if ForceQuery u || nonempty (RawQuery u)
    then buf ++ "?" ++ RawQuery u else buf in
  if nonempty (Fragment u) then buf ++ "#" ++ EscapedFragment u else buf.

(** The loop of [resolvePath].  Every round cuts at least the separator
    off [remaining], so [String.length full] rounds are enough; the
    result is [dst] and the last [elem]. *)
Fixpoint resolvePath_loop (fuel : nat) (remaining dst : string) (first : bool)
  : string * string :=
  let '(elem, remaining, found) := strings.CutByte remaining "/" in
  let '(dst, first) :=
    if String.eqb elem "." then (dst, false)
    else if String.eqb elem ".." then
      let str := str_drop 1 dst in
      match strings.LastIndexByte str "/" with
      | None => ("/", true)
      | Some index => ("/" ++ str_take index str, first)
      end
    else ((if first then dst else dst ++ "/") ++ elem, false) in
  match found, fuel with
  | true, S fuel' => resolvePath_loop fuel' remaining dst first
  | _, _ => (dst, elem)
  end.

Definition resolvePath (base ref : string) : string :=
  let full :=
    if String.eqb ref "" then base
    else if negb (strings.HasPrefix ref "/") then
      match strings.LastIndexByte base "/" with
      | Some i => str_take (S i) base ++ ref
      | None => ref
      end
    else ref in
  if String.eqb full "" then ""
  else
    let '(dst, elem) := resolvePath_loop (String.length full) full "/" true in
    let r :=
      if String.eqb elem "." || String.eqb elem ".." then dst ++ "/" else dst in
    if (1 <? String.length r)%nat && strings.HasPrefix (str_drop 1 r) "/"
    then str_drop 1 r else r.

(** [url.setPath(p)] with the error dropped, as [ResolveReference] calls
    it: on an error the receiver is left as it was. *)
Definition setPath_unchecked (u : URL) (p : string) : URL :=
  match setPath u p with
  | Ok u' => u'
  | Err _ => u
  end.

(** [u.ResolveReference(ref)] for a receiver [u] that may be the nil
    pointer; [None] is the nil-pointer dereference of reading a field of
    a nil [u]. *)
Definition ResolveReference (u : option URL) (ref : URL) : option URL :=
  let url := ref in
  url ← (if String.eqb (Scheme ref) ""
         then u' ← u; Some (with_Scheme (Scheme u') url)
         else Some url);
  if nonempty (Scheme ref) || nonempty (Host ref)
     || match User ref with Some _ => true | None => false end
  then Some (setPath_unchecked url (resolvePath (EscapedPath ref) ""))
  else if nonempty (Opaque ref)
  then Some (with_Path "" (with_Host "" (with_User None url)))
  else
    u ← u;
    let url :=
      if String.eqb (Path ref) "" && negb (ForceQuery ref)
         && String.eqb (RawQuery ref) ""
      then
        let url := with_RawQuery (RawQuery u) url in
        if String.eqb (Fragment ref) ""
        then with_RawFragment (RawFragment u) (with_Fragment (Fragment u) url)
        else url
      else url in
    if String.eqb (Path ref) "" && nonempty (Opaque u)
    then Some (with_Path "" (with_Host "" (with_User None
                 (with_Opaque (Opaque u) url))))
    else
      let url := with_User (User u) (with_Host (Host u) url) in
      Some (setPath_unchecked url
              (resolvePath (EscapedPath u) (EscapedPath ref))).

End url.

(** ** What the package consumes from outside

    The network, the XML decoder and the HTML parser are not part of the
    repository; the package is modelled over any behaviour they can
    have. *)

(** Go's [error] values the package produces or passes on. *)
Inductive goerror : Type :=
| ErrParsingBaseURL (e : url.error)
| ErrNewRequest (e : url.error)
| ErrTransport (msg : string)
| ErrSitemapStatus (code : Z)
| ErrReadBody (msg : string)
| ErrXML (msg : string)
| ErrFetch (msg : string)
| ErrHTML (msg : string).

(** [*http.Response], as far as the package reads it: the status code and
    what [io.ReadAll(resp.Body)] yields. *)
Record Response : Type := mkResponse {
  RespStatusCode : Z;
  RespBody : result string string
}.

(** [core.FetchResult] (package [core]). *)
Record FetchResult : Type := mkFetchResult {
  URL : string;
  StatusCode : Z;
  HTML : string
}.

(** [sitemapURL] and [sitemapIndex] of [discover.go]. *)
Record sitemapURL : Type := mkSitemapURL { Loc : string }.
Record sitemapIndex : Type := mkSitemapIndex { URLs : list sitemapURL }.

Class Runtime : Type := {
  (** the state of everything outside the process (servers, clock, [ctx]) *)
  World : Type;
  (** [strings.Map(unicode.ToLower, s)] *)
  unicode_lower : string -> string;
  (** [client.Do(req)] for a GET request to the given URL *)
  client_Do : string -> World -> result string Response * World;
  (** [xml.Unmarshal(body, &sitemap)] *)
  xml_Unmarshal : string -> result string sitemapIndex;
  (** [goquery.NewDocumentFromReader] followed by [doc.Find("a[href]")]:
      the [href] values of the selected elements, in document order *)
  goquery_hrefs : string -> result string (list string)
}.

(** [core.Fetcher]: the interface with the single method [Fetch]. *)
Class Fetcher `{Runtime} : Type := {
  Fetch : string -> World -> result string FetchResult * World
}.

(** Calls that leave the process, in the order they were made. *)
Inductive event : Type :=
| EvGet (url : string)
| EvFetch (url : string).

Record state `{Runtime} : Type := mkState {
  world : World;
  trace : list event
}.

Definition is_fetch (e : event) : bool :=
  match e with EvFetch _ => true | EvGet _ => false end.

(** ** Package [crawl] *)

Module crawl.

(** *** rules.go *)

Definition staticExtensions : gmap string bool :=
  list_to_map
    ((fun ext => (ext, true)) <$>
     [".png"; ".jpg"; ".jpeg"; ".gif";
      ".svg"; ".webp"; ".ico"; ".bmp";
      ".css"; ".js"; ".mjs";
      ".woff"; ".woff2"; ".ttf"; ".eot";
      ".mp4"; ".webm"; ".mp3"; ".wav";
      ".zip"; ".tar"; ".gz";
      ".pdf"; ".doc"; ".docx"; ".xls"; ".xlsx"]).

(** Reading a [map[string]bool]: the zero value [false] for a missing key. *)
Definition map_get (m : gmap string bool) (k : string) : bool :=
  default false (m !! k).

Definition IsSameDomain (rawURL domain : string) : bool :=
  match url.Parse rawURL with
  | Err _ => false
  | Ok parsed => String.eqb (url.Host parsed) domain
  end.

Definition IsStaticAsset `{Runtime} (rawURL : string) : bool :=
  match url.Parse rawURL with
  | Err _ => false
  | Ok parsed =>
      let ext := strings.ToLower unicode_lower (path.Ext (url.Path parsed)) in
      map_get staticExtensions ext
  end.

Definition NormalizeURL (rawURL : string) : string :=
  match url.Parse rawURL with
  | Err _ => rawURL
  | Ok parsed =>
      let parsed := url.with_Fragment "" parsed in
      let parsed :=
        if negb (String.eqb (url.Path parsed) "/")
        then url.with_Path (strings.TrimSuffix (url.Path parsed) "/") parsed
        else parsed in
      url.String parsed
  end.

(** *** queue.go *)

Record Queue : Type := mkQueue {
  items : list string;
  visited : gmap string bool;
  idx : nat
}.

Definition NewQueue : Queue := mkQueue [] ∅ 0.

Definition Add (url : string) (q : Queue) : Queue :=
  if map_get (visited q) url then q
  else mkQueue (items q ++ [url]) (<[url := true]> (visited q)) (idx q).

Definition HasNext (q : Queue) : bool := (idx q <? length (items q))%nat.

(** [q.items[q.idx]] panics when the index is out of range. *)
Definition Next (q : Queue) : outcome (string * Queue) :=
  match items q !! idx q with
  | Some url => Returned (url, mkQueue (items q) (visited q) (S (idx q)))
  | None => Panicked IndexOutOfRange
  end.

Definition Visited (q : Queue) : nat := size (visited q).

Definition All (q : Queue) : list string := items q.

(** *** discover.go *)

Section Discover.
Context `{F : Fetcher}.

(** [client.Do(req)] and [fetcher.Fetch(ctx, url)], recorded in the trace. *)
Definition do_get (u : string) (st : state) : result string Response * state :=
  let '(r, w) := client_Do u (world st) in
  (r, mkState _ w (trace st ++ [EvGet u])).

Definition do_fetch (u : string) (st : state)
  : result string FetchResult * state :=
  let '(r, w) := Fetch u (world st) in
  (r, mkState _ w (trace st ++ [EvFetch u])).

(** The candidate passes the two filters applied by both discovery paths. *)
Definition in_scope (domain u : string) : bool :=
  IsSameDomain u domain && negb (IsStaticAsset u).

(** The [for _, u := range sitemap.URLs] loop. *)
Fixpoint sitemap_loop (us : list sitemapURL) (domain : string)
  (urls : list string) : list string :=
  match us with
  | [] => urls
  | u :: us' =>
      sitemap_loop us' domain
        (if IsSameDomain (Loc u) domain && negb (IsStaticAsset (Loc u))
         then urls ++ [NormalizeURL (Loc u)]
         else urls)
  end.

Definition discoverFromSitemap (sitemapURL domain : string) (st : state)
  : result goerror (list string) * state :=
  (* http.NewRequestWithContext fails when the URL does not parse *)
  match url.Parse sitemapURL with
  | Err e => (Err (ErrNewRequest e), st)
  | Ok _ =>
      let '(r, st) := do_get sitemapURL st in
      match r with
      | Err e => (Err (ErrTransport e), st)
      | Ok resp =>
          if negb (RespStatusCode resp =? 200)%Z
          then (Err (ErrSitemapStatus (RespStatusCode resp)), st)
          else
            match RespBody resp with
            | Err e => (Err (ErrReadBody e), st)
            | Ok body =>
                match xml_Unmarshal body with
                | Err e => (Err (ErrXML e), st)
                | Ok sitemap => (Ok (sitemap_loop (URLs sitemap) domain []), st)
                end
            end
      end
  end.

Definition resolveURL (href : string) (base : option url.URL) : outcome string :=
  if strings.HasPrefix href "mailto:" || strings.HasPrefix href "javascript:"
     || strings.HasPrefix href "tel:" || strings.HasPrefix href "#"
  then Returned ""
  else
    match url.Parse href with
    | Err _ => Returned ""
    | Ok parsed =>
        match url.ResolveReference base parsed with
        | None => Panicked NilDereference
        | Some resolved => Returned (url.String (url.with_Fragment "" resolved))
        end
    end.

(** The callback of [doc.Find("a[href]").Each], run over the selection. *)
Fixpoint each_href (hrefs : list string) (base : option url.URL)
  (links : list string) : outcome (list string) :=
  match hrefs with
  | [] => Returned links
  | href :: hrefs' =>
      if String.eqb href "" then each_href hrefs' base links
      else
        match resolveURL href base with
        | Returned resolved =>
            each_href hrefs' base
              (if negb (String.eqb resolved "") then links ++ [resolved]
               else links)
        | Panicked p => Panicked p
        | OutOfFuel => OutOfFuel
        end
  end.

Definition extractLinks (html baseURL : string)
  : outcome (result goerror (list string)) :=
  match goquery_hrefs html with
  | Err e => Returned (Err (ErrHTML e))
  | Ok hrefs =>
      let base :=
        match url.Parse baseURL with Ok u => Some u | Err _ => None end in
      match each_href hrefs base [] with
      | Returned links => Returned (Ok links)
      | Panicked p => Panicked p
      | OutOfFuel => OutOfFuel
      end
  end.

Definition maxPages : nat := 100.

(** The [for _, link := range links] loop of [discoverFromLinks]. *)
Fixpoint add_links (links : list string) (domain : string) (queue : Queue)
  : Queue :=
  match links with
  | [] => queue
  | link :: links' =>
      add_links links' domain
        (if IsSameDomain link domain && negb (IsStaticAsset link)
         then Add (NormalizeURL link) queue
         else queue)
  end.

(** The BFS loop of [discoverFromLinks]; [fuel] bounds the number of
    rounds. *)
Fixpoint bfs_loop (fuel : nat) (domain : string) (queue : Queue) (st : state)
  : outcome (Queue * state) :=
  if HasNext queue && (Visited queue <? maxPages)%nat then
    match fuel with
    | 0 => OutOfFuel
    | S fuel' =>
        match Next queue with
        | Returned (currentURL, queue) =>
            let '(r, st) := do_fetch currentURL st in
            match r with
            | Err _ => bfs_loop fuel' domain queue st
            | Ok result =>
                match extractLinks (HTML result) currentURL with
                | Returned (Err _) => bfs_loop fuel' domain queue st
                | Returned (Ok links) =>
                    bfs_loop fuel' domain (add_links links domain queue) st
                | Panicked p => Panicked p
                | OutOfFuel => OutOfFuel
                end
            end
        | Panicked p => Panicked p
        | OutOfFuel => OutOfFuel
        end
    end
  else Returned (queue, st).

Definition discoverFromLinks_fuel (fuel : nat) (startURL domain : string)
  (st : state) : outcome (result goerror (list string) * state) :=
  let queue := Add (NormalizeURL startURL) NewQueue in
  match bfs_loop fuel domain queue st with
  | Returned (queue, st) => Returned (Ok (All queue), st)
  | Panicked p => Panicked p
  | OutOfFuel => OutOfFuel
  end.

(** No run needs more than [maxPages] rounds ([bfs_loop_total] below). *)
Definition discoverFromLinks : string -> string -> state ->
  outcome (result goerror (list string) * state) :=
  discoverFromLinks_fuel maxPages.

Definition DiscoverAll (baseURL : string) (st : state)
  : outcome (result goerror (list string) * state) :=
  match url.Parse baseURL with
  | Err e => Returned (Err (ErrParsingBaseURL e), st)
  | Ok parsed =>
      let domain := url.Host parsed in
      let sitemapURLStr :=
        url.Scheme parsed ++ "://" ++ domain ++ "/sitemap.xml" in
      let '(r, st) := discoverFromSitemap sitemapURLStr domain st in
      match r with
      | Ok urls =>
          if (0 <? length urls)%nat then Returned (Ok urls, st)
          else discoverFromLinks baseURL domain st
      | Err _ => discoverFromLinks baseURL domain st
      end
  end.

End Discover.

End crawl.

Arguments mkState {_} _ _.

(** ** Notions used to state the properties *)

(** A finite sequence of [Add] calls, first call first. *)
Definition add_all (urls : list string) (q : crawl.Queue) : crawl.Queue :=
  fold_left (fun q u => crawl.Add u q) urls q.

(** The distinct elements of a list, each at the place of its first
    occurrence. *)
Fixpoint first_occurrences (l : list string) : list string :=
  match l with
  | [] => []
  | x :: l' => x :: filter (fun y => y ≠ x) (first_occurrences l')
  end.

(** The queue invariant: the visited map holds exactly the items, each
    with the value [true], and no item is queued twice. *)
Definition queue_wf (q : crawl.Queue) : Prop :=
  NoDup (crawl.items q)
  ∧ (∀ u, crawl.visited q !! u = Some true ↔ u ∈ crawl.items q)
  ∧ (∀ u, crawl.visited q !! u ≠ Some false).

(** What one fetched page contributes to the queue: the links that pass
    the two filters, normalized, in document order. *)
Definition page_targets `{Runtime} (domain : string) (links : list string)
  : list string :=
  crawl.NormalizeURL <$> List.filter (crawl.in_scope domain) links.

(** The location [DiscoverAll] asks for the sitemap. *)
Definition sitemap_location (parsed : url.URL) : string :=
  url.Scheme parsed ++ "://" ++ url.Host parsed ++ "/sitemap.xml".

(** The sitemap attempt succeeded with at least one URL. *)
Definition sitemap_yields (r : result goerror (list string)) : Prop :=
  ∃ urls, r = Ok urls ∧ urls ≠ [].

(** A discovered URL other than the seed: the normal form of a candidate
    that passed both filters. *)
Definition scoped `{Runtime} (domain u : string) : Prop :=
  ∃ c, crawl.in_scope domain c = true ∧ u = crawl.NormalizeURL c.

(** The fetcher presents the pages as one link cycle: every page can be
    fetched, its links can be extracted, and the links that pass the
    filters all lead, once normalized, to the next page of the cycle. *)
Definition presents_cycle `{Fetcher} (domain : string) (pages : list string)
  : Prop :=
  NoDup pages ∧
  ∀ i p w, pages !! i = Some p →
    ∃ result w' links,
      Fetch p w = (Ok result, w')
      ∧ crawl.extractLinks (HTML result) p = Returned (Ok links)
      ∧ ∀ x, x ∈ page_targets domain links
             ↔ pages !! (S i mod length pages) = Some x.

(** ** Stub collaborators

    Concrete runtimes and fetchers on which the properties are run. *)

Module stub.

(** No network: every sitemap request fails.  An HTML document is taken
    to hold one anchor, whose [href] is the text of the document. *)
Definition offline : Runtime := {|
  World := unit;
  unicode_lower := fun s => s;
  client_Do := fun _ w => (Err "connection refused", w);
  xml_Unmarshal := fun _ => Err "EOF";
  goquery_hrefs := fun html => Ok [html]
|}.

(** A site whose sitemap lists three pages of [x.com] and one of
    [y.com]. *)
Definition with_sitemap : Runtime := {|
  World := unit;
  unicode_lower := fun s => s;
  client_Do := fun _ w => (Ok (mkResponse 200 (Ok "<urlset/>")), w);
  xml_Unmarshal := fun _ =>
    Ok (mkSitemapIndex [mkSitemapURL "https://x.com/a/";
                        mkSitemapURL "https://y.com/b";
                        mkSitemapURL "https://x.com/c#top";
                        mkSitemapURL "https://x.com/d"]);
  goquery_hrefs := fun html => Ok [html]
|}.

(** The state in which a run starts: nothing has left the process yet. *)
Definition start (R : Runtime) (w : @World R) : @state R := @mkState R w [].

(** Every fetch fails. *)
Definition down (R : Runtime) : @Fetcher R := {|
  Fetch := fun _ w => (Err "timeout", w)
|}.

(** The [i]-th page of a cycle of 300 pages of [x.com]: the root for
    [i = 0], else a path of two letters. *)
Definition cycle_page (i : nat) : string :=
  match i with
  | 0 => "https://x.com/"
  | _ => "https://x.com/"
         ++ String (ascii_of_nat (97 + i / 26))
              (String (ascii_of_nat (97 + i mod 26)) "")
  end.

Definition cycle_pages : list string := cycle_page <$> seq 0 300.

(** The index of a page of the cycle. *)
Definition cycle_index (u : string) : option nat :=
  match str_drop 14 u with
  | "" => Some 0
  | String a (String b "") =>
      Some ((nat_of_ascii a - 97) * 26 + (nat_of_ascii b - 97))
  | _ => None
  end.

(** Page [i] is a document whose only link leads to page [i + 1], the
    last page leading back to the first. *)
Definition cycle : @Fetcher offline := {|
  Fetch := fun u w =>
    match cycle_index u with
    | Some i =>
        if String.eqb (cycle_page i) u && (i <? 300)%nat
        then (Ok (mkFetchResult u 200 (cycle_page (S i mod 300))), w)
        else (Err "404", w)
    | None => (Err "404", w)
    end
|}.

(** The hypothesis of [presents_cycle] at page [i], as a test. *)
Definition cycle_page_ok (i : nat) : bool :=
  match @Fetch offline cycle (cycle_page i) tt with
  | (Ok result, _) =>
      match @crawl.extractLinks offline (HTML result) (cycle_page i) with
      | Returned (Ok links) =>
          match @page_targets offline "x.com" links with
          | [] => false
          | targets => forallb (String.eqb (cycle_page (S i mod 300))) targets
          end
      | _ => false
      end
  | _ => false
  end.

End stub.

(** The reading of "every discovered URL is canonical, in the domain and
    not a static asset" that is tested against the code. *)
Definition discovered_urls_in_scope : Prop :=
  ∀ (R : Runtime) (F : Fetcher) baseURL parsed st urls st',
    url.Parse baseURL = Ok parsed →
    crawl.DiscoverAll baseURL st = Returned (Ok urls, st') →
    ∀ u, u ∈ urls →
      crawl.NormalizeURL u = u
      ∧ crawl.IsSameDomain u (url.Host parsed) = true
      ∧ crawl.IsStaticAsset u = false.

(** ** Plain URLs

    The URLs [scheme://host/path#fragment] written with lower-case
    letters in the scheme, letters, digits, [-] and [.] in the host, and
    unreserved bytes and [/] in the path. *)

Definition host_byte (c : ascii) : bool :=
  is_lower c || is_digit c || byte_in c "-.".

Definition path_byte (c : ascii) : bool :=
  is_lower c || is_upper c || is_digit c || byte_in c "-_.~/".

Definition plain_scheme (s : string) : bool :=
  url.nonempty s && str_all is_lower s.

Definition plain_host (h : string) : bool :=
  url.nonempty h && str_all host_byte h.

Definition plain_path (p : string) : bool :=
  (String.eqb p "" || strings.HasPrefix p "/") && str_all path_byte p.

(** The fragment may hold any bytes but [%]. *)
Definition plain_fragment (f : option string) : bool :=
  match f with
  | None => true
  | Some f => negb (strings.ContainsByte f "%")
  end.

Definition fragment_part (f : option string) : string :=
  match f with
  | None => ""
  | Some f => String "#" f
  end.

Definition plain_url (scheme host path : string) (f : option string) : string :=
  scheme ++ "://" ++ host ++ path ++ fragment_part f.

(** What [NormalizeURL] makes of a path. *)
Definition normal_path (p : string) : string :=
  if String.eqb p "/" then p else strings.TrimSuffix p "/".

(** ** Link emission

    What [extractLinks] appends for one [href], given a base that parsed:
    the text [resolveURL] returns (the empty text stands for "nothing"). *)

Definition resolved_text (base : url.URL) (href : string) : string :=
  match crawl.resolveURL href (Some base) with
  | Returned s => s
  | _ => ""
  end.

Definition emitted_links (base : url.URL) (hrefs : list string) : list string :=
  List.filter url.nonempty
    (resolved_text base <$> List.filter url.nonempty hrefs).

(** The base [https://x.com/docs/], parsed. *)
Definition docs_base : url.URL :=
  url.mkURL "https" "" None "x.com" "/docs/" "" false false "" "" "".

(** ** More on bytes and runes *)

(** The slice [s[i:j]], for [i <= j <= len(s)]. *)
Definition str_slice (i j : nat) (s : string) : string :=
  str_take (j - i) (str_drop i s).

Definition is_alnum (c : ascii) : bool := is_lower c || is_upper c || is_digit c.

Module utf8.

Definition in_range (lo hi : N) (c : ascii) : bool :=
  (lo <=? N_of_ascii c)%N && (N_of_ascii c <=? hi)%N.

(** The number of bytes [for ... range s] and [utf8.DecodeRuneInString]
    take for the first rune of [String b0 rest]: the length of a
    well-formed encoding, and 1 for a byte that starts none or whose
    encoding is cut short or ill-formed (the rune is then [U+FFFD]). *)
Definition width (b0 : ascii) (rest : string) : nat :=
  let x := N_of_ascii b0 in
  if (x <? 128)%N then 1
  else if (x <? 194)%N then 1
  else if (x <? 224)%N then
    match rest with
    | String b1 _ => if in_range 128 191 b1 then 2 else 1
    | _ => 1
    end
  else if (x <? 240)%N then
    let lo := if (x =? 224)%N then 160%N else 128%N in
    let hi := if (x =? 237)%N then 159%N else 191%N in
    match rest with
    | String b1 (String b2 _) =>
        if in_range lo hi b1 && in_range 128 191 b2 then 3 else 1
    | _ => 1
    end
  else if (x <? 245)%N then
    let lo := if (x =? 240)%N then 144%N else 128%N in
    let hi := if (x =? 244)%N then 143%N else 191%N in
    match rest with
    | String b1 (String b2 (String b3 _)) =>
        if in_range lo hi b1 && in_range 128 191 b2 && in_range 128 191 b3
        then 4 else 1
    | _ => 1
    end
  else 1.

End utf8.

(** ** Package [fetch] *)

Module fetch.

(** The errors [HTTPFetcher.Fetch] returns. *)
Inductive error : Type :=
| ErrCreatingRequest (e : url.error)
| ErrFetching (url : string) (e : string)
| ErrUnexpectedStatus (code : Z) (url : string)
| ErrReadingBody (e : string).

Section HTTPFetcher.
Context `{R : Runtime}.

(** [f.client.Do(req)] for the request [Fetch] builds: a GET for the URL
    with the [User-Agent] and [Accept] headers of the package. *)
Variable Do : string -> World -> result string Response * World.

(** The text of an error, as [fmt.Errorf] formats it. *)
Variable Error : error -> string.

(** [HTTPFetcher.Fetch]; [http.NewRequestWithContext] fails when the URL
    does not parse. *)
Definition HTTPFetcher_Fetch (u : string) (w : World)
  : result string FetchResult * World :=
  match url.Parse u with
  | Err e => (Err (Error (ErrCreatingRequest e)), w)
  | Ok _ =>
      let '(r, w) := Do u w in
      match r with
      | Err e => (Err (Error (ErrFetching u e)), w)
      | Ok resp =>
          if (RespStatusCode resp <? 200)%Z || (RespStatusCode resp >=? 300)%Z
          then (Err (Error (ErrUnexpectedStatus (RespStatusCode resp) u)), w)
          else
            match RespBody resp with
            | Err e => (Err (Error (ErrReadingBody e)), w)
            | Ok body => (Ok (mkFetchResult u (RespStatusCode resp) body), w)
            end
      end
  end.

Definition HTTPFetcher : Fetcher := {| Fetch := HTTPFetcher_Fetch |}.

End HTTPFetcher.

End fetch.

(** ** Package [core]: the pipeline types and interfaces *)

Module core.

Record PageMetadata : Type := mkPageMetadata {
  URL : string;
  Domain : string;
  Path : string;
  Title : string;
  Language : string;
  FetchedAt : string
}.

End core.

(** [core.Extractor], [core.Normalizer] and [core.Renderer]; a [[]byte]
    is the string of its bytes. *)
Class Extractor `{Runtime} : Type := {
  Extract : string -> World -> result string string * World
}.

Class Normalizer `{Runtime} : Type := {
  Normalize : string -> World -> result string string * World
}.

Class Renderer `{Runtime} : Type := {
  Render : string -> core.PageMetadata -> World -> result string string * World;
  Extension : string
}.

(** ** Package [output] *)

(** The calls [os.MkdirAll(path, 0755)] and [os.WriteFile(path, data,
    0644)], in the order they were made. *)
Inductive fs_call : Type :=
| MkdirAll (path : string)
| WriteFile (path data : string).

(** The operating system, as the packages [output] and [cmd] use it. *)
Class OS `{Runtime} : Type := {
  os_Getwd : World -> result string string;
  os_MkdirAll : string -> World -> option string * World;
  os_WriteFile : string -> string -> World -> option string * World;
  (** [filepath.Join] of two elements, and [filepath.Dir] *)
  filepath_Join : string -> string -> string;
  filepath_Dir : string -> string;
  (** [time.Now().UTC().Format(time.RFC3339)] *)
  time_Now : World -> string
}.

Module output.

Inductive error : Type :=
| ErrGetwd (e : string)
| ErrCreateOutputDir (e : string)
| ErrParsingURL (e : url.error)
| ErrCreateDir (dir e : string)
| ErrWriteFile (path e : string).

Record Writer : Type := mkWriter { OutputDir : string }.

(** The loop of [sanitize] over the runes of [s]: a rune that is an
    ASCII letter or digit is written as it is, any other as [_]; [n]
    bounds the number of runes. *)
Fixpoint sanitize_runes (n : nat) (s : string) : string :=
  match n, s with
  | S n', String c rest =>
      String (if is_alnum c then c else "_")
        (sanitize_runes n' (str_drop (utf8.width c rest - 1) rest))
  | _, _ => ""
  end.

Definition sanitize (s : string) : string :=
  sanitize_runes (String.length s) s.

Definition filenameFromURL (rawURL : string) : string :=
  match url.Parse rawURL with
  | Err _ => sanitize rawURL
  | Ok parsed =>
      let parts := [sanitize (url.Host parsed)] in
      let path := strings.TrimByte (url.Path parsed) "/" in
      let parts :=
        if negb (String.eqb path "")
        then (parts ++ (sanitize <$> strings.SplitByte path "/"))%list
        else parts in
      strings.Join parts "_"
  end.

Section Writer.
Context `{O : OS}.

(** Each function returns, with its results, the world it leaves and the
    file-system calls it made. *)

Definition New (outputDir : string) (w : World)
  : result error Writer * World * list fs_call :=
  match (if String.eqb outputDir ""
         then match os_Getwd w with
              | Err e => Err (ErrGetwd e)
              | Ok wd => Ok wd
              end
         else Ok outputDir) with
  | Err e => (Err e, w, [])
  | Ok outputDir =>
      let '(err, w) := os_MkdirAll outputDir w in
      match err with
      | Some e => (Err (ErrCreateOutputDir e), w, [MkdirAll outputDir])
      | None => (Ok (mkWriter outputDir), w, [MkdirAll outputDir])
      end
  end.

Definition WriteOnly (wr : Writer) (rawURL data ext : string) (w : World)
  : result error string * World * list fs_call :=
  let name := filenameFromURL rawURL in
  let path := filepath_Join (OutputDir wr) (name ++ ext) in
  let '(err, w) := os_WriteFile path data w in
  match err with
  | Some e => (Err (ErrWriteFile path e), w, [WriteFile path data])
  | None => (Ok path, w, [WriteFile path data])
  end.

Definition WriteAll (wr : Writer) (rawURL data ext : string) (w : World)
  : result error string * World * list fs_call :=
  match url.Parse rawURL with
  | Err e => (Err (ErrParsingURL e), w, [])
  | Ok parsed =>
      let urlPath := strings.TrimSuffix (url.Path parsed) "/" in
      let urlPath :=
        if String.eqb urlPath "" || String.eqb urlPath "/"
        then "/index" else urlPath in
      let urlPath := strings.TrimPrefix urlPath "/" in
      let fullPath := filepath_Join (OutputDir wr) (urlPath ++ ext) in
      let dir := filepath_Dir fullPath in
      let '(err, w) := os_MkdirAll dir w in
      match err with
      | Some e => (Err (ErrCreateDir dir e), w, [MkdirAll dir])
      | None =>
          let '(err, w) := os_WriteFile fullPath data w in
          match err with
          | Some e =>
              (Err (ErrWriteFile fullPath e), w,
               [MkdirAll dir; WriteFile fullPath data])
          | None => (Ok fullPath, w, [MkdirAll dir; WriteFile fullPath data])
          end
      end
  end.

End Writer.

End output.

(** ** Package [chunk] *)

Module chunk.

Record Chunker : Type := mkChunker { ChunkSize : Z }.

Definition New (chunkSize : Z) : Chunker :=
  mkChunker (if (chunkSize <=? 0)%Z then 512%Z else chunkSize).

(** How a call of [Chunk] ends.  Slicing [words[i:end]] with [end < i]
    is a run-time panic; [Unfinished] belongs to the model only: the
    loop was cut before its condition became false. *)
Inductive run : Type :=
| Chunks (chunks : list string)
| SliceBoundsOutOfRange
| Unfinished.

(** The loop of [Chunk]; [fuel] bounds the number of rounds.  The index
    [i] is a natural number: no text has the 2^62 words it takes for
    [i + c.ChunkSize] to wrap around. *)
Fixpoint Chunk_loop (fuel : nat) (size : Z) (words : list string) (i : nat)
  (chunks : list string) : run :=
  if (i <? length words)%nat then
    match fuel with
    | 0 => Unfinished
    | S fuel' =>
        if (size <? 0)%Z then SliceBoundsOutOfRange
        else
          let end_ := (i + Z.to_nat size)%nat in
          let end_ := if (length words <? end_)%nat then length words else end_ in
          Chunk_loop fuel' size words (i + Z.to_nat size)
            (chunks ++ [strings.Join (take (end_ - i) (drop i words)) " "])
    end
  else Chunks chunks.

Section Chunk.
Variable unicode_fields : string -> list string.

Definition Chunk_fuel (fuel : nat) (c : Chunker) (text : string) : run :=
  let words := strings.Fields unicode_fields text in
  if (length words =? 0)%nat then Chunks []
  else Chunk_loop fuel (ChunkSize c) words 0 [].

(** With a positive chunk size, one round for each word is enough
    ([Chunk_partition] below). *)
Definition Chunk (c : Chunker) (text : string) : run :=
  Chunk_fuel (length (strings.Fields unicode_fields text)) c text.

End Chunk.

End chunk.

(** ** Package [render]: the four renderers *)

(** [JSONRenderer.Render], [PDFRenderer.Render] and
    [EmbeddingsRenderer.Render] (the last for a model and a chunk size)
    are built on regular expressions, a PDF library and an embedding
    service that are not part of this development: they are taken as any
    functions of their type. *)
Class Renderers `{Runtime} : Type := {
  JSON_Render : string -> core.PageMetadata -> World -> result string string * World;
  PDF_Render : string -> core.PageMetadata -> World -> result string string * World;
  Embeddings_Render :
    string -> Z -> string -> core.PageMetadata -> World
    -> result string string * World
}.

Module render.
Section Renderers.
Context `{RS : Renderers}.

Definition NewMarkdownRenderer : Renderer := {|
  Render := fun markdown _ w => (Ok markdown, w);
  Extension := ".md"
|}.

Definition NewJSONRenderer : Renderer := {|
  Render := JSON_Render;
  Extension := ".json"
|}.

Definition NewPDFRenderer : Renderer := {|
  Render := PDF_Render;
  Extension := ".pdf"
|}.

Definition NewEmbeddingsRenderer (model : string) (chunkSize : Z) : Renderer := {|
  Render := Embeddings_Render model chunkSize;
  Extension := ".embeddings.txt"
|}.

End Renderers.
End render.

(** ** Package [cmd]: the [convert] command *)

Module cmd.

(** The flag variables of the command. *)
Record Flags : Type := mkFlags {
  flagOnly : bool;
  flagAll : bool;
  flagPDF : bool;
  flagMarkdown : bool;
  flagJSON : bool;
  flagEmbeddings : bool;
  flagModel : string;
  flagChunkSize : Z;
  flagOutputDir : string
}.

Inductive error : Type :=
| ErrOnlyAndAll
| ErrFormatRequired
| ErrOneFormatAllowed (formatCount : nat)
| ErrModelRequired
| ErrInvalidURL (rawURL : string)
| ErrNoFormatSelected
| ErrInitWriter (e : output.error)
| ErrDiscovering (e : goerror)
| ErrFetch (e : string)
| ErrExtract (e : string)
| ErrNormalize (e : string)
| ErrRender (e : string)
| ErrWriter (e : output.error).

(** What the command prints, on standard output or, for the errors and
    the count of failed pages, on standard error. *)
Inductive message : Type :=
| MsgDiscovering (rawURL : string)
| MsgFound (n : nat)
| MsgProcessing (i n : nat) (pageURL : string)
| MsgError (e : error)
| MsgWriteError (e : output.error)
| MsgWritten (path : string)
| MsgFailed (errCount n : nat).

(** *** The helpers of [buildMetadata] *)

(** The loop of [findTag]: [n] positions are left to try from [i] on. *)
Fixpoint findTag_loop (n i : nat) (html tag : string) : option nat :=
  match n with
  | 0 => None
  | S n' =>
      if String.eqb (str_slice i (i + String.length tag) html) tag
      then Some (i + String.length tag)
      else findTag_loop n' (S i) html tag
  end.

Definition findTag (html tag : string) : option nat :=
  if (String.length tag <=? String.length html)%nat
  then findTag_loop (S (String.length html - String.length tag)) 0 html tag
  else None.

Definition extractTitle (html : string) : string :=
  match findTag html "<title>" with
  | None => ""
  | Some start =>
      match findTag html "</title>" with
      | None => ""
      | Some endTag =>
          if (endTag <=? start)%nat then ""
          else
            let end_ := (endTag - String.length "</title>")%nat in
            if (end_ <=? start)%nat then "" else str_slice start end_ html
      end
  end.

(** The text [lang=] followed by a double quote. *)
Definition lang_attr : string := "lang=" ++ String url.dquote "".

(** The loop that moves [end] forward to the next double quote, or to
    the end of [html]. *)
Fixpoint scan_quote (n : nat) (html : string) (end_ : nat) : nat :=
  match n with
  | 0 => end_
  | S n' =>
      match String.get end_ html with
      | Some c =>
          if Ascii.eqb c url.dquote then end_ else scan_quote n' html (S end_)
      | None => end_
      end
  end.

Definition extractLang (html : string) : string :=
  match findTag html lang_attr with
  | None => "en"
  | Some idx => str_slice idx (scan_quote (String.length html) html idx) html
  end.

(** *** Flags *)

Definition validateFlags (f : Flags) : option error :=
  if flagOnly f && flagAll f then Some ErrOnlyAndAll
  else
    let formatCount :=
      ((if flagPDF f then 1 else 0) + (if flagMarkdown f then 1 else 0)
       + (if flagJSON f then 1 else 0) + (if flagEmbeddings f then 1 else 0))%nat in
    if (formatCount =? 0)%nat then Some ErrFormatRequired
    else if (1 <? formatCount)%nat then Some (ErrOneFormatAllowed formatCount)
    else if flagEmbeddings f && String.eqb (flagModel f) ""
    then Some ErrModelRequired
    else None.

Section Convert.
Context `{RS : Renderers}.

Definition selectRenderer (f : Flags) : result error Renderer :=
  if flagMarkdown f then Ok render.NewMarkdownRenderer
  else if flagJSON f then Ok render.NewJSONRenderer
  else if flagPDF f then Ok render.NewPDFRenderer
  else if flagEmbeddings f
  then Ok (render.NewEmbeddingsRenderer (flagModel f) (flagChunkSize f))
  else Err ErrNoFormatSelected.

Context `{O : !OS}.

(** [buildMetadata] reads the fields of the parsed URL without looking
    at the error of [url.Parse]: on a URL that does not parse it
    dereferences nil. *)
Definition buildMetadata (rawURL html : string) (w : World)
  : outcome core.PageMetadata :=
  match url.Parse rawURL with
  | Err _ => Panicked NilDereference
  | Ok parsed =>
      Returned (core.mkPageMetadata rawURL (url.Host parsed) (url.Path parsed)
                  (extractTitle html) (extractLang html) (time_Now w))
  end.

(** A run of the command: the state of the network side, the
    file-system calls made and the lines printed. *)
Record session : Type := mkSession {
  net : state;
  files : list fs_call;
  printed : list message
}.

Definition print (m : message) (s : session) : session :=
  mkSession (net s) (files s) (printed s ++ [m]).

Definition set_net (st : state) (s : session) : session :=
  mkSession st (files s) (printed s).

(** A call that changes the world without leaving the trace. *)
Definition on_world {A : Type} (f : World -> A * World) (st : state)
  : A * state :=
  let '(a, w) := f (world st) in (a, mkState w (trace st)).

(** A call of the package [output]. *)
Definition on_files {A : Type} (f : World -> A * World * list fs_call)
  (s : session) : A * session :=
  let '(a, w, calls) := f (world (net s)) in
  (a, mkSession (mkState w (trace (net s))) (files s ++ calls) (printed s)).

Section Pipeline.
Context `{F : !Fetcher} `{E : !Extractor} `{N : !Normalizer}.

Definition processURL (rawURL : string) (renderer : Renderer) (st : state)
  : outcome (result error (string * core.PageMetadata) * state) :=
  let '(r, st) := crawl.do_fetch rawURL st in
  match r with
  | Err e => Returned (Err (ErrFetch e), st)
  | Ok result =>
      let '(r, st) := on_world (Extract (HTML result)) st in
      match r with
      | Err e => Returned (Err (ErrExtract e), st)
      | Ok content =>
          let '(r, st) := on_world (Normalize content) st in
          match r with
          | Err e => Returned (Err (ErrNormalize e), st)
          | Ok markdown =>
              match buildMetadata rawURL (HTML result) (world st) with
              | Returned meta =>
                  let '(r, st) :=
                    on_world (@Render _ renderer markdown meta) st in
                  match r with
                  | Err e => Returned (Err (ErrRender e), st)
                  | Ok data => Returned (Ok (data, meta), st)
                  end
              | Panicked p => Panicked p
              | OutOfFuel => OutOfFuel
              end
          end
      end
  end.

Definition runOnly (rawURL : string) (renderer : Renderer)
  (writer : output.Writer) (s : session) : outcome (option error * session) :=
  match processURL rawURL renderer (net s) with
  | Returned (Err e, st) => Returned (Some e, set_net st s)
  | Returned (Ok (data, _), st) =>
      let '(r, s) :=
        on_files (output.WriteOnly writer rawURL data (@Extension _ renderer))
          (set_net st s) in
      match r with
      | Err e => Returned (Some (ErrWriter e), s)
      | Ok path => Returned (None, print (MsgWritten path) s)
      end
  | Panicked p => Panicked p
  | OutOfFuel => OutOfFuel
  end.

(** The [for i, pageURL := range urls] loop of [runAll]: [i] pages are
    done, [n] is [len(urls)]. *)
Fixpoint runAll_loop (urls : list string) (i n errCount : nat)
  (renderer : Renderer) (writer : output.Writer) (s : session)
  : outcome (nat * session) :=
  match urls with
  | [] => Returned (errCount, s)
  | pageURL :: urls' =>
      let s := print (MsgProcessing (i + 1) n pageURL) s in
      match processURL pageURL renderer (net s) with
      | Returned (Err e, st) =>
          runAll_loop urls' (S i) n (errCount + 1) renderer writer
            (print (MsgError e) (set_net st s))
      | Returned (Ok (data, _), st) =>
          let '(r, s) :=
            on_files (output.WriteAll writer pageURL data (@Extension _ renderer))
              (set_net st s) in
          match r with
          | Err e =>
              runAll_loop urls' (S i) n (errCount + 1) renderer writer
                (print (MsgWriteError e) s)
          | Ok path =>
              runAll_loop urls' (S i) n errCount renderer writer
                (print (MsgWritten path) s)
          end
      | Panicked p => Panicked p
      | OutOfFuel => OutOfFuel
      end
  end.

Definition runAll (rawURL : string) (renderer : Renderer)
  (writer : output.Writer) (s : session) : outcome (option error * session) :=
  let s := print (MsgDiscovering rawURL) s in
  match crawl.DiscoverAll rawURL (net s) with
  | Returned (Err e, st) => Returned (Some (ErrDiscovering e), set_net st s)
  | Returned (Ok urls, st) =>
      let s := print (MsgFound (length urls)) (set_net st s) in
      match runAll_loop urls 0 (length urls) 0 renderer writer s with
      | Returned (errCount, s) =>
          Returned (None,
                    if (0 <? errCount)%nat
                    then print (MsgFailed errCount (length urls)) s else s)
      | Panicked p => Panicked p
      | OutOfFuel => OutOfFuel
      end
  | Panicked p => Panicked p
  | OutOfFuel => OutOfFuel
  end.

End Pipeline.

(** [runConvert], for the URL given on the command line; [fetch.New()],
    [extract.New()] and [normalize.New()] are the fetcher, the extractor
    and the normalizer of the section. *)
Section Command.
Variable Do : string -> World -> result string Response * World.
Variable Error : fetch.error -> string.
Context `{E : !Extractor} `{N : !Normalizer}.

Definition runConvert (f : Flags) (rawURL : string) (s : session)
  : outcome (option error * session) :=
  match validateFlags f with
  | Some e => Returned (Some e, s)
  | None =>
      match url.Parse rawURL with
      | Err _ => Returned (Some (ErrInvalidURL rawURL), s)
      | Ok parsed =>
          if String.eqb (url.Scheme parsed) "" || String.eqb (url.Host parsed) ""
          then Returned (Some (ErrInvalidURL rawURL), s)
          else
            match selectRenderer f with
            | Err e => Returned (Some e, s)
            | Ok renderer =>
                let F := fetch.HTTPFetcher Do Error in
                let '(r, s) := on_files (output.New (flagOutputDir f)) s in
                match r with
                | Err e => Returned (Some (ErrInitWriter e), s)
                | Ok writer =>
                    if flagAll f
                    then @runAll F E N rawURL renderer writer s
                    else @runOnly F E N rawURL renderer writer s
                end
            end
      end
  end.

End Command.
End Convert.

End cmd.

(** ** Notions used to state further properties *)

(** The queues a client of [queue.go] can build. *)
Inductive reachable : crawl.Queue -> Prop :=
| reachable_new : reachable crawl.NewQueue
| reachable_add u q : reachable q -> reachable (crawl.Add u q)
| reachable_next q u q' :
    reachable q -> crawl.Next q = Returned (u, q') -> reachable q'.

(** The fetcher returns a page only for a URL that parses. *)
Definition fetcher_parses `{Fetcher} : Prop :=
  ∀ u w r w', Fetch u w = (Ok r, w') → ∃ parsed, url.Parse u = Ok parsed.

(** The [href] is one that [resolveURL] resolves against the base: it is
    not empty, has none of the skipped prefixes, parses, and has no
    scheme of its own. *)
Definition relative_href (href : string) : bool :=
  negb (String.eqb href "")
  && negb (strings.HasPrefix href "mailto:" || strings.HasPrefix href "javascript:"
           || strings.HasPrefix href "tel:" || strings.HasPrefix href "#")
  && match url.Parse href with
     | Ok ref => String.eqb (url.Scheme ref) ""
     | Err _ => false
     end.

(** The tag occurs in [pre ++ tag] at its end only: [pre] holds the start
    of no earlier occurrence. *)
Definition first_at (tag pre : string) : Prop :=
  strings.Index (pre ++ tag) tag = Some (String.length pre).

(** The lines and calls that report a page or a file. *)
Definition is_written (m : cmd.message) : bool :=
  match m with cmd.MsgWritten _ => true | _ => false end.

Definition is_page_error (m : cmd.message) : bool :=
  match m with cmd.MsgError _ | cmd.MsgWriteError _ => true | _ => false end.

(** The bytes of a flat file name: ASCII letters, digits and [_]. *)
Definition name_byte (c : ascii) : bool := is_alnum c || Ascii.eqb c "_".

(** A word of an ASCII text: not empty, without white space and without
    a byte above 0x7f. *)
Definition ascii_word (w : string) : bool :=
  negb (String.eqb w "") && negb (str_any strings.asciiSpace w)
  && negb (str_any is_non_ascii w).

(** The text holds no [#]. *)
Definition no_hash (s : string) : Prop := strings.ContainsByte s "#" = false.

(** The fields that [URL.String] prints as they are hold no [#]. *)
Definition raw_fields_no_hash (u : url.URL) : Prop :=
  no_hash (url.Scheme u) ∧ no_hash (url.Opaque u) ∧ no_hash (url.RawPath u)
  ∧ no_hash (url.RawQuery u).

(** ** More stub collaborators *)

Module sample.

(** Every fetch succeeds, whatever the URL, with a page whose only link
    is the relative reference [next]. *)
Definition echo (R : Runtime) : @Fetcher R := {|
  Fetch := fun u w => (Ok (mkFetchResult u 200 "next"), w)
|}.

(** The stages after the fetch, for the runs of the command: the
    extractor and the normalizer return their argument, the three
    renderers that are not modelled return the Markdown, and the disk
    accepts every call. *)
Definition extractor (R : Runtime) : @Extractor R := {|
  Extract := fun html w => (Ok html, w)
|}.

Definition normalizer (R : Runtime) : @Normalizer R := {|
  Normalize := fun html w => (Ok html, w)
|}.

Definition renderers (R : Runtime) : @Renderers R := {|
  JSON_Render := fun markdown _ w => (Ok markdown, w);
  PDF_Render := fun markdown _ w => (Ok markdown, w);
  Embeddings_Render := fun _ _ markdown _ w => (Ok markdown, w)
|}.

Definition disk (R : Runtime) : @OS R := {|
  os_Getwd := fun _ => Ok "/work";
  os_MkdirAll := fun _ w => (None, w);
  os_WriteFile := fun _ _ w => (None, w);
  filepath_Join := fun dir name => dir ++ "/" ++ name;
  filepath_Dir := fun path =>
    match strings.LastIndexByte path "/" with
    | Some i => str_take i path
    | None => "."
    end;
  time_Now := fun _ => "2026-01-01T00:00:00Z"
|}.

(** A server that answers every request with the same page. *)
Definition same_page (R : Runtime)
  : string -> @World R -> result string Response * @World R :=
  fun _ w => (Ok (mkResponse 200 (Ok "<html><title>Hi</title></html>")), w).

(** The text of an error is not looked at. *)
Definition error_text : fetch.error -> string := fun _ => "error".

(** The session in which a command starts. *)
Definition fresh (R : Runtime) (w : @World R) : @cmd.session R :=
  @cmd.mkSession R (stub.start R w) [] [].

End sample.

(** * Properties *)

(** ** The frontier queue *)

Section QueueFacts.

Lemma queue_wf_new : queue_wf crawl.NewQueue.
Proof.
  split; [constructor|]. split.
  - intros u. cbn. rewrite lookup_empty. split; [done|]. by intros ?%elem_of_nil.
  - intros u. cbn. by rewrite lookup_empty.
Qed.

Lemma map_get_true (q : crawl.Queue) u :
  queue_wf q → crawl.map_get (crawl.visited q) u = true ↔ u ∈ crawl.items q.
Proof.
  intros (_ & Hin & Hnf). unfold crawl.map_get. rewrite <- Hin.
  destruct (crawl.visited q !! u) as [[]|] eqn:E; cbn; split; try done.
Qed.

Lemma map_get_false (q : crawl.Queue) u :
  queue_wf q → crawl.map_get (crawl.visited q) u = false →
  crawl.visited q !! u = None ∧ u ∉ crawl.items q.
Proof.
  intros Hwf Hget. pose proof (map_get_true q u Hwf) as Ht.
  destruct Hwf as (_ & Hin & Hnf). split.
  - unfold crawl.map_get in Hget.
    destruct (crawl.visited q !! u) as [[]|] eqn:E; cbn in *; try done.
    by destruct (Hnf u).
  - intros Hu. apply Ht in Hu. congruence.
Qed.

Lemma Add_seen (q : crawl.Queue) u :
  queue_wf q → u ∈ crawl.items q → crawl.Add u q = q.
Proof.
  intros Hwf Hu. unfold crawl.Add.
  by rewrite (proj2 (map_get_true q u Hwf) Hu).
Qed.

Lemma Add_fresh (q : crawl.Queue) u :
  queue_wf q → u ∉ crawl.items q →
  crawl.Add u q =
  crawl.mkQueue (crawl.items q ++ [u])%list (<[u := true]> (crawl.visited q))
                (crawl.idx q).
Proof.
  intros Hwf Hu. unfold crawl.Add.
  destruct (crawl.map_get (crawl.visited q) u) eqn:E; [|done].
  by apply (map_get_true q u Hwf) in E.
Qed.

Lemma Add_wf (q : crawl.Queue) u : queue_wf q → queue_wf (crawl.Add u q).
Proof.
  intros Hwf. destruct (decide (u ∈ crawl.items q)) as [Hu|Hu].
  - by rewrite Add_seen.
  - rewrite Add_fresh by done. destruct Hwf as (Hnd & Hin & Hnf).
    split; [|split]; cbn.
    + apply NoDup_app. split; [done|]. split; [|apply NoDup_singleton].
      intros x Hx ->%list_elem_of_singleton. done.
    + intros v. rewrite elem_of_app, list_elem_of_singleton, <- Hin.
      destruct (decide (u = v)) as [->|Hne].
      * rewrite lookup_insert_eq. naive_solver.
      * rewrite lookup_insert_ne by done. naive_solver.
    + intros v. destruct (decide (u = v)) as [->|Hne].
      * by rewrite lookup_insert_eq.
      * rewrite lookup_insert_ne by done. apply Hnf.
Qed.

Lemma Add_idx (q : crawl.Queue) u : crawl.idx (crawl.Add u q) = crawl.idx q.
Proof. unfold crawl.Add. by destruct (crawl.map_get _ _). Qed.

Lemma Add_items (q : crawl.Queue) u :
  queue_wf q →
  crawl.items (crawl.Add u q) =
  (crawl.items q ++ (if decide (u ∈ crawl.items q) then [] else [u]))%list.
Proof.
  intros Hwf. case_decide.
  - rewrite Add_seen by done. by rewrite app_nil_r.
  - by rewrite Add_fresh.
Qed.

Lemma Visited_length (q : crawl.Queue) :
  queue_wf q → crawl.Visited q = length (crawl.items q).
Proof.
  intros (Hnd & Hin & Hnf). unfold crawl.Visited.
  rewrite <- size_dom.
  assert (dom (crawl.visited q) = list_to_set (C:=gset string) (crawl.items q))
    as ->.
  { apply set_eq. intros u. rewrite elem_of_dom, elem_of_list_to_set, <- Hin.
    split.
    - intros [[] Hb]; [done|]. by destruct (Hnf u).
    - intros ->. eauto. }
  by apply size_list_to_set.
Qed.

Lemma add_all_wf urls (q : crawl.Queue) : queue_wf q → queue_wf (add_all urls q).
Proof.
  revert q. induction urls as [|u urls IH]; intros q Hwf; [done|].
  cbn. apply IH. by apply Add_wf.
Qed.

Lemma add_all_idx urls (q : crawl.Queue) :
  crawl.idx (add_all urls q) = crawl.idx q.
Proof.
  revert q. induction urls as [|u urls IH]; intros q; [done|].
  cbn. rewrite IH. apply Add_idx.
Qed.

Lemma filter_first_occurrences_seen (l : list string) (seen : list string) x :
  x ∈ seen →
  filter (fun y => y ∉ seen) (filter (fun y => y ≠ x) l)
  = filter (fun y => y ∉ seen) l.
Proof.
  intros Hx. rewrite list_filter_filter. apply list_filter_iff.
  intros y. split; [naive_solver|]. intros Hy. split; [done|]. by intros ->.
Qed.

Lemma filter_first_occurrences_fresh (l : list string) (seen : list string) x :
  filter (fun y => y ∉ (seen ++ [x])%list) l
  = filter (fun y => y ∉ seen) (filter (fun y => y ≠ x) l).
Proof.
  rewrite list_filter_filter. apply list_filter_iff.
  intros y. rewrite elem_of_app, list_elem_of_singleton. naive_solver.
Qed.

Lemma filter_keeps_all (P : string → Prop) `{!∀ x, Decision (P x)}
  (l : list string) : (∀ x, x ∈ l → P x) → filter P l = l.
Proof.
  induction l as [|y l IH]; intros Hall; [done|].
  rewrite filter_cons_True by (apply Hall; left).
  f_equal. apply IH. intros x Hx. apply Hall. by right.
Qed.

Lemma filter_drops_all (P : string → Prop) `{!∀ x, Decision (P x)}
  (l : list string) : (∀ x, x ∈ l → ¬ P x) → filter P l = [].
Proof.
  induction l as [|y l IH]; intros Hall; [done|].
  rewrite filter_cons_False by (apply Hall; left).
  apply IH. intros x Hx. apply Hall. by right.
Qed.

Lemma add_all_items urls (q : crawl.Queue) :
  queue_wf q →
  crawl.items (add_all urls q)
  = (crawl.items q
     ++ filter (fun y => y ∉ crawl.items q) (first_occurrences urls))%list.
Proof.
  revert q. induction urls as [|u urls IH]; intros q Hwf.
  - cbn. by rewrite app_nil_r.
  - cbn [add_all fold_left first_occurrences].
    change (fold_left _ urls ?q0) with (add_all urls q0).
    rewrite IH by by apply Add_wf.
    rewrite Add_items by done. case_decide as Hu.
    + rewrite app_nil_r. f_equal. rewrite filter_cons_False by naive_solver.
      by rewrite filter_first_occurrences_seen.
    + rewrite <- app_assoc. f_equal. rewrite filter_cons_True by done.
      cbn. f_equal. apply filter_first_occurrences_fresh.
Qed.

Lemma first_occurrences_elem (l : list string) x :
  x ∈ first_occurrences l ↔ x ∈ l.
Proof.
  induction l as [|y l IH]; [done|]. cbn.
  rewrite !elem_of_cons, list_elem_of_filter, IH.
  destruct (decide (x = y)); naive_solver.
Qed.

End QueueFacts.

(** ** The BFS loop *)

Section LoopFacts.
Context `{F : Fetcher}.

Lemma HasNext_lookup (q : crawl.Queue) :
  crawl.HasNext q = true → ∃ u, crawl.items q !! crawl.idx q = Some u.
Proof.
  unfold crawl.HasNext. intros Hlt%Nat.ltb_lt.
  destruct (lookup_lt_is_Some_2 (crawl.items q) (crawl.idx q) Hlt) as [u Hu].
  eauto.
Qed.

Lemma HasNext_Next (q : crawl.Queue) :
  crawl.HasNext q = true →
  ∃ u, crawl.items q !! crawl.idx q = Some u
       ∧ crawl.Next q
         = Returned (u, crawl.mkQueue (crawl.items q) (crawl.visited q)
                                      (S (crawl.idx q))).
Proof.
  intros [u Hu]%HasNext_lookup. exists u. split; [done|].
  unfold crawl.Next. by rewrite Hu.
Qed.

Lemma resolveURL_no_index_panic href base :
  crawl.resolveURL href base ≠ Panicked IndexOutOfRange
  ∧ crawl.resolveURL href base ≠ OutOfFuel.
Proof.
  unfold crawl.resolveURL.
  destruct (_ || _); [done|]. destruct (url.Parse href); [|done].
  by destruct (url.ResolveReference base a).
Qed.

Lemma each_href_outcome hrefs base links :
  (∃ ls, crawl.each_href hrefs base links = Returned ls)
  ∨ crawl.each_href hrefs base links = Panicked NilDereference.
Proof.
  revert links. induction hrefs as [|h hrefs IH]; intros links; cbn.
  - eauto.
  - destruct (String.eqb h ""); [apply IH|].
    pose proof (resolveURL_no_index_panic h base) as [Hp Hf].
    destruct (crawl.resolveURL h base) as [r|[]|];
      [apply IH|done|by right|done].
Qed.

Lemma extractLinks_outcome html baseURL :
  (∃ r, crawl.extractLinks html baseURL = Returned r)
  ∨ crawl.extractLinks html baseURL = Panicked NilDereference.
Proof.
  unfold crawl.extractLinks. destruct (goquery_hrefs html); [|eauto].
  destruct (each_href_outcome a
              match url.Parse baseURL with Ok u => Some u | Err _ => None end [])
    as [[ls ->]| ->]; eauto.
Qed.

Lemma add_links_add_all links domain (q : crawl.Queue) :
  crawl.add_links links domain q = add_all (page_targets domain links) q.
Proof.
  revert q. induction links as [|l links IH]; intros q; [done|].
  cbn [crawl.add_links]. rewrite IH. unfold page_targets.
  cbn [List.filter]. unfold crawl.in_scope at 2.
  by destruct (crawl.IsSameDomain l domain && negb (crawl.IsStaticAsset l)).
Qed.

(** One round of the loop, when its condition holds. *)
Lemma bfs_loop_round fuel domain (q : crawl.Queue) st :
  crawl.HasNext q = true → (crawl.Visited q < crawl.maxPages)%nat →
  ∃ u, crawl.items q !! crawl.idx q = Some u ∧
  let q1 := crawl.mkQueue (crawl.items q) (crawl.visited q) (S (crawl.idx q)) in
  crawl.bfs_loop (S fuel) domain q st =
    match crawl.do_fetch u st with
    | (Err _, st1) => crawl.bfs_loop fuel domain q1 st1
    | (Ok result, st1) =>
        match crawl.extractLinks (HTML result) u with
        | Returned (Err _) => crawl.bfs_loop fuel domain q1 st1
        | Returned (Ok links) =>
            crawl.bfs_loop fuel domain (add_all (page_targets domain links) q1) st1
        | Panicked p => Panicked p
        | OutOfFuel => OutOfFuel
        end
    end.
Proof.
  intros Hn Hv. destruct (HasNext_Next q Hn) as (u & Hu & HN).
  exists u. split; [done|]. cbn [crawl.bfs_loop]. rewrite Hn, HN.
  apply Nat.ltb_lt in Hv. rewrite Hv. cbn [andb].
  destruct (crawl.do_fetch u st) as [[result|e] st1]; [|done].
  destruct (crawl.extractLinks (HTML result) u) as [[links|]| |]; try done.
  by rewrite add_links_add_all.
Qed.

Lemma bfs_loop_done fuel domain (q : crawl.Queue) st :
  crawl.HasNext q && (crawl.Visited q <? crawl.maxPages)%nat = false →
  crawl.bfs_loop fuel domain q st = Returned (q, st).
Proof. intros Hc. destruct fuel; cbn [crawl.bfs_loop]; by rewrite Hc. Qed.

Lemma do_fetch_trace u st :
  trace (crawl.do_fetch u st).2 = (trace st ++ [EvFetch u])%list.
Proof. unfold crawl.do_fetch. by destruct (Fetch u (world st)). Qed.

(** What holds of the queue and the trace when the loop returns. *)
Lemma bfs_loop_returned fuel domain (q q' : crawl.Queue) st st' :
  queue_wf q →
  crawl.bfs_loop fuel domain q st = Returned (q', st') →
  queue_wf q'
  ∧ (∃ added,
        crawl.items q' = (crawl.items q ++ added)%list
        ∧ Forall (fun u => ∃ c, crawl.in_scope domain c = true
                                ∧ u = crawl.NormalizeURL c) added)
  ∧ (∃ fetched, trace st' = (trace st ++ (EvFetch <$> fetched))%list
                ∧ (crawl.HasNext q = true →
                   (crawl.Visited q < crawl.maxPages)%nat →
                   ∃ rest, fetched = default "" (crawl.items q !! crawl.idx q)
                                     :: rest))
  ∧ crawl.HasNext q' && (crawl.Visited q' <? crawl.maxPages)%nat = false.
Proof.
  revert q st. induction fuel as [|fuel IH]; intros q st Hwf Hrun.
  - destruct (crawl.HasNext q && (crawl.Visited q <? crawl.maxPages)%nat) eqn:Hc;
      cbn [crawl.bfs_loop] in Hrun; rewrite Hc in Hrun; [done|].
    injection Hrun as <- <-. split; [done|]. split.
    + exists []. by rewrite app_nil_r.
    + split; [|done]. exists []. split; [by rewrite app_nil_r|].
      intros Hn Hv%Nat.ltb_lt. by rewrite Hn, Hv in Hc.
  - destruct (crawl.HasNext q && (crawl.Visited q <? crawl.maxPages)%nat) eqn:Hc.
    2:{ rewrite bfs_loop_done in Hrun by done. injection Hrun as <- <-.
        split; [done|]. split.
        - exists []. by rewrite app_nil_r.
        - split; [|done]. exists []. split; [by rewrite app_nil_r|].
          intros Hn Hv%Nat.ltb_lt. by rewrite Hn, Hv in Hc. }
    apply andb_true_iff in Hc as [Hn Hv%Nat.ltb_lt].
    destruct (bfs_loop_round fuel domain q st Hn Hv) as (u & Hu & Heq).
    cbn zeta in Heq. rewrite Heq in Hrun. clear Heq.
    pose proof (do_fetch_trace u st) as Htr.
    set (q1 := crawl.mkQueue (crawl.items q) (crawl.visited q) (S (crawl.idx q)))
      in *.
    assert (queue_wf q1) as Hwf1 by exact Hwf.
    assert (∀ q2 st1,
      trace st1 = (trace st ++ [EvFetch u])%list →
      queue_wf q2 →
      (∃ added,
        crawl.items q2 = (crawl.items q ++ added)%list
        ∧ Forall (fun u => ∃ c, crawl.in_scope domain c = true
                                ∧ u = crawl.NormalizeURL c) added) →
      crawl.bfs_loop fuel domain q2 st1 = Returned (q', st') →
      queue_wf q'
      ∧ (∃ added,
        crawl.items q' = (crawl.items q ++ added)%list
        ∧ Forall (fun u => ∃ c, crawl.in_scope domain c = true
                                ∧ u = crawl.NormalizeURL c) added)
      ∧ (∃ fetched, trace st' = (trace st ++ (EvFetch <$> fetched))%list
                ∧ (crawl.HasNext q = true →
                   (crawl.Visited q < crawl.maxPages)%nat →
                   ∃ rest, fetched = default "" (crawl.items q !! crawl.idx q)
                                     :: rest))
      ∧ crawl.HasNext q' && (crawl.Visited q' <? crawl.maxPages)%nat = false)
      as Hstep.
    { intros q2 st1 Ht1 Hwf2 (added & Hadd & Hall) Hrun2.
      destruct (IH q2 st1 Hwf2 Hrun2)
        as (Hwf' & (added' & Hadd' & Hall') & (fetched & Hf & _) & Hend).
      split; [done|]. split.
      - exists (added ++ added')%list. split.
        + by rewrite Hadd', Hadd, app_assoc.
        + by apply Forall_app.
      - split; [|done]. exists (u :: fetched). split.
        + rewrite Hf, Ht1. cbn. by rewrite <- app_assoc.
        + intros _ _. rewrite Hu. cbn. eauto. }
    destruct (crawl.do_fetch u st) as [[result|e] st1]; cbn in Htr.
    + destruct (crawl.extractLinks (HTML result) u) as [[links|]| |]; try done.
      * refine (Hstep _ _ Htr _ _ Hrun); [by apply add_all_wf|].
        rewrite add_all_items by done. cbn [crawl.items q1].
        eexists. split; [done|].
        apply Forall_forall. intros x [_ Hx]%list_elem_of_filter.
        rewrite first_occurrences_elem in Hx. unfold page_targets in Hx.
        apply list_elem_of_fmap in Hx as (c & -> & Hc).
        apply list_elem_of_In, filter_In in Hc as [_ Hc]. eauto.
      * refine (Hstep _ _ Htr Hwf1 _ Hrun).
        exists []. by rewrite app_nil_r.
    + refine (Hstep _ _ Htr Hwf1 _ Hrun).
      exists []. by rewrite app_nil_r.
Qed.

(** The loop neither runs out of [maxPages] rounds nor reads outside the
    queue: it returns, unless link extraction dereferences a nil base. *)
Lemma bfs_loop_total fuel domain (q : crawl.Queue) st :
  queue_wf q → (crawl.maxPages ≤ fuel + crawl.idx q + 1)%nat →
  (∃ r, crawl.bfs_loop fuel domain q st = Returned r)
  ∨ crawl.bfs_loop fuel domain q st = Panicked NilDereference.
Proof.
  revert q st. induction fuel as [|fuel IH]; intros q st Hwf Hfuel.
  - destruct (crawl.HasNext q && (crawl.Visited q <? crawl.maxPages)%nat) eqn:Hc.
    + apply andb_true_iff in Hc as [Hn%Nat.ltb_lt Hv%Nat.ltb_lt].
      rewrite Visited_length in Hv by done. lia.
    + left. rewrite bfs_loop_done by done. eauto.
  - destruct (crawl.HasNext q && (crawl.Visited q <? crawl.maxPages)%nat) eqn:Hc.
    2:{ left. rewrite bfs_loop_done by done. eauto. }
    apply andb_true_iff in Hc as [Hn Hv%Nat.ltb_lt].
    destruct (bfs_loop_round fuel domain q st Hn Hv) as (u & Hu & Heq).
    cbn zeta in Heq. rewrite Heq. clear Heq.
    set (q1 := crawl.mkQueue (crawl.items q) (crawl.visited q) (S (crawl.idx q))).
    assert (queue_wf q1) as Hwf1 by exact Hwf.
    destruct (crawl.do_fetch u st) as [[result|e] st1].
    + destruct (extractLinks_outcome (HTML result) u) as [[[links|e] ->]| ->].
      * apply IH; [by apply add_all_wf|]. rewrite add_all_idx. cbn. lia.
      * apply IH; [done|]. cbn. lia.
      * by right.
    + apply IH; [done|]. cbn. lia.
Qed.

(** More rounds than needed change nothing. *)
Lemma bfs_loop_more_fuel fuel k domain (q : crawl.Queue) st :
  crawl.bfs_loop fuel domain q st ≠ OutOfFuel →
  crawl.bfs_loop (fuel + k) domain q st = crawl.bfs_loop fuel domain q st.
Proof.
  revert q st. induction fuel as [|fuel IH]; intros q st Hne.
  - destruct (crawl.HasNext q && (crawl.Visited q <? crawl.maxPages)%nat) eqn:Hc.
    + cbn [crawl.bfs_loop] in Hne. by rewrite Hc in Hne.
    + by rewrite !bfs_loop_done.
  - destruct (crawl.HasNext q && (crawl.Visited q <? crawl.maxPages)%nat) eqn:Hc.
    2:{ by rewrite !bfs_loop_done. }
    apply andb_true_iff in Hc as [Hn Hv%Nat.ltb_lt].
    destruct (bfs_loop_round fuel domain q st Hn Hv) as (u & Hu & Heq).
    destruct (bfs_loop_round (fuel + k) domain q st Hn Hv) as (u' & Hu' & Heq').
    assert (u' = u) as -> by congruence.
    cbn zeta in Heq, Heq'. rewrite Heq in Hne. cbn [Nat.add]. rewrite Heq, Heq'.
    destruct (crawl.do_fetch u st) as [[result|e] st1]; [|by apply IH].
    destruct (crawl.extractLinks (HTML result) u) as [[links|]| |];
      try done; by apply IH.
Qed.

Lemma seed_queue start :
  let q0 := crawl.Add (crawl.NormalizeURL start) crawl.NewQueue in
  queue_wf q0 ∧ crawl.items q0 = [crawl.NormalizeURL start] ∧ crawl.idx q0 = 0
  ∧ crawl.HasNext q0 = true ∧ crawl.Visited q0 = 1.
Proof.
  cbn zeta. pose proof (Add_wf _ (crawl.NormalizeURL start) queue_wf_new) as Hwf.
  assert (crawl.items (crawl.Add (crawl.NormalizeURL start) crawl.NewQueue)
          = [crawl.NormalizeURL start]) as Hit.
  { rewrite Add_items by apply queue_wf_new. cbn. case_decide as Hin; [|done].
    by apply elem_of_nil in Hin. }
  split; [done|]. split; [done|]. split; [by rewrite Add_idx|]. split.
  - unfold crawl.HasNext. by rewrite Add_idx, Hit.
  - by rewrite Visited_length, Hit.
Qed.

Lemma discoverFromLinks_fuel_outcome fuel start domain st :
  (crawl.maxPages ≤ fuel + 1)%nat →
  (∃ rest fetched st',
      crawl.discoverFromLinks_fuel fuel start domain st
      = Returned (Ok (crawl.NormalizeURL start :: rest), st')
      ∧ Forall (scoped domain) rest
      ∧ NoDup (crawl.NormalizeURL start :: rest)
      ∧ trace st'
        = (trace st ++ EvFetch (crawl.NormalizeURL start) :: (EvFetch <$> fetched))%list)
  ∨ crawl.discoverFromLinks_fuel fuel start domain st = Panicked NilDereference.
Proof.
  intros Hfuel. unfold crawl.discoverFromLinks_fuel.
  destruct (seed_queue start) as (Hwf & Hit & Hidx & Hn & Hv). cbn zeta in *.
  set (q0 := crawl.Add (crawl.NormalizeURL start) crawl.NewQueue) in *.
  destruct (bfs_loop_total fuel domain q0 st Hwf) as [[[q' st'] Hrun]|Hp].
  { rewrite Hidx. lia. }
  - left. rewrite Hrun.
    destruct (bfs_loop_returned _ _ _ _ _ _ Hwf Hrun)
      as (Hwf' & (added & Hadd & Hall) & (fetched & Htr & Hfirst) & _).
    destruct Hfirst as [rest ->]; [done|rewrite Hv; unfold crawl.maxPages; lia|].
    rewrite Hit, Hidx in *. cbn in Htr, Hadd.
    exists added, rest, st'. unfold crawl.All. rewrite Hadd.
    split; [done|]. split; [done|]. split; [|done].
    destruct Hwf' as (Hnd & _). by rewrite Hadd in Hnd.
  - right. by rewrite Hp.
Qed.

Lemma discoverFromLinks_more_fuel k start domain st :
  crawl.discoverFromLinks_fuel (crawl.maxPages + k) start domain st
  = crawl.discoverFromLinks start domain st.
Proof.
  unfold crawl.discoverFromLinks, crawl.discoverFromLinks_fuel.
  rewrite bfs_loop_more_fuel; [done|].
  destruct (seed_queue start) as (Hwf & _ & Hidx & _). cbn zeta in *.
  destruct (bfs_loop_total crawl.maxPages domain _ st Hwf) as [[r ->]| ->];
    [lia|done|done].
Qed.

Lemma sitemap_loop_spec us domain acc :
  crawl.sitemap_loop us domain acc
  = (acc ++ page_targets domain (Loc <$> us))%list.
Proof.
  revert acc. induction us as [|u us IH]; intros acc.
  - cbn. by rewrite app_nil_r.
  - cbn [crawl.sitemap_loop]. rewrite IH. unfold page_targets. cbn.
    unfold crawl.in_scope at 2.
    destruct (crawl.IsSameDomain (Loc u) domain && negb (crawl.IsStaticAsset (Loc u)));
      [|done].
    by rewrite <- app_assoc.
Qed.

(** The sitemap reader makes no page fetch. *)
Lemma discoverFromSitemap_trace sitemapURL domain st :
  List.filter is_fetch (trace (crawl.discoverFromSitemap sitemapURL domain st).2)
  = List.filter is_fetch (trace st).
Proof.
  unfold crawl.discoverFromSitemap, crawl.do_get.
  destruct (url.Parse sitemapURL); [|done].
  destruct (client_Do sitemapURL (world st)) as [[resp|e] w].
  - assert (List.filter is_fetch (trace st ++ [EvGet sitemapURL])
            = List.filter is_fetch (trace st)) as Heq.
    { rewrite List.filter_app. cbn. by rewrite app_nil_r. }
    destruct (negb (RespStatusCode resp =? 200)%Z); [done|].
    destruct (RespBody resp); [|done].
    by destruct (xml_Unmarshal a0).
  - cbn. rewrite List.filter_app. cbn. by rewrite app_nil_r.
Qed.

Lemma discoverFromSitemap_scoped sitemapURL domain st urls :
  (crawl.discoverFromSitemap sitemapURL domain st).1 = Ok urls →
  Forall (scoped domain) urls.
Proof.
  unfold crawl.discoverFromSitemap.
  destruct (url.Parse sitemapURL); [|done].
  destruct (crawl.do_get sitemapURL st) as [[resp|e] st1]; [|done].
  destruct (negb (RespStatusCode resp =? 200)%Z); [done|].
  destruct (RespBody resp); [|done].
  destruct (xml_Unmarshal a0) as [sitemap|]; [|done].
  cbn. intros [= <-]. rewrite sitemap_loop_spec. cbn.
  apply Forall_forall. intros x Hx. unfold page_targets in Hx.
  apply list_elem_of_fmap in Hx as (c & -> & Hc).
  apply list_elem_of_In, filter_In in Hc as [_ Hc]. by exists c.
Qed.

(** [DiscoverAll] after a successful parse of the starting URL. *)
Lemma DiscoverAll_parsed baseURL parsed st :
  url.Parse baseURL = Ok parsed →
  crawl.DiscoverAll baseURL st =
  match crawl.discoverFromSitemap (sitemap_location parsed) (url.Host parsed) st with
  | (Ok (u :: urls), st1) => Returned (Ok (u :: urls), st1)
  | (_, st1) => crawl.discoverFromLinks baseURL (url.Host parsed) st1
  end.
Proof.
  intros Hp. unfold crawl.DiscoverAll. rewrite Hp. fold (sitemap_location parsed).
  destruct (crawl.discoverFromSitemap _ _ st) as [[[|u urls]|e] st1]; done.
Qed.

End LoopFacts.

(** ** Claims about the frontier queue *)

(** C3: after any finite sequence of [Add] calls on a fresh queue, [All]
    holds each distinct URL once, at the place of its first [Add]; adding
    a URL that was added before leaves the queue as it is; and [Visited]
    is the length of [All]. *)
Theorem queue_add_sequence (urls : list string) :
  crawl.All (add_all urls crawl.NewQueue) = first_occurrences urls
  ∧ NoDup (crawl.All (add_all urls crawl.NewQueue))
  ∧ (∀ u, u ∈ crawl.All (add_all urls crawl.NewQueue) ↔ u ∈ urls)
  ∧ (∀ u, u ∈ urls →
       crawl.Add u (add_all urls crawl.NewQueue) = add_all urls crawl.NewQueue)
  ∧ crawl.Visited (add_all urls crawl.NewQueue)
    = length (crawl.All (add_all urls crawl.NewQueue)).
Proof.
  pose proof (add_all_wf urls _ queue_wf_new) as Hwf.
  assert (crawl.All (add_all urls crawl.NewQueue) = first_occurrences urls)
    as Hall.
  { unfold crawl.All. rewrite add_all_items by apply queue_wf_new. cbn.
    apply filter_keeps_all. intros x _. apply not_elem_of_nil. }
  split; [done|]. split; [apply Hwf|]. split; [|split].
  - intros u. rewrite Hall. apply first_occurrences_elem.
  - intros u Hu. apply Add_seen; [done|].
    change (u ∈ crawl.All (add_all urls crawl.NewQueue)).
    rewrite Hall. by apply first_occurrences_elem.
  - by apply Visited_length.
Qed.

Lemma queue_add_sequence_witness :
  crawl.All (add_all ["a"; "b"; "a"; "c"] crawl.NewQueue) = ["a"; "b"; "c"]
  ∧ crawl.Add "a" (add_all ["a"; "b"; "a"; "c"] crawl.NewQueue)
    = add_all ["a"; "b"; "a"; "c"] crawl.NewQueue.
Proof.
  destruct (queue_add_sequence ["a"; "b"; "a"; "c"]) as (Hall & _ & _ & Hadd & _).
  split.
  - rewrite Hall. reflexivity.
  - apply Hadd. apply list_elem_of_here.
Defined.

(** ** Claims about the orchestrator *)

Section Orchestrator.
Context `{F : Fetcher}.

Lemma bfs_loop_no_index_panic fuel domain (q : crawl.Queue) st :
  crawl.bfs_loop fuel domain q st ≠ Panicked IndexOutOfRange.
Proof.
  revert q st. induction fuel as [|fuel IH]; intros q st.
  - cbn [crawl.bfs_loop]. by destruct (_ && _).
  - destruct (crawl.HasNext q && (crawl.Visited q <? crawl.maxPages)%nat) eqn:Hc.
    2:{ by rewrite bfs_loop_done. }
    apply andb_true_iff in Hc as [Hn Hv%Nat.ltb_lt].
    destruct (bfs_loop_round fuel domain q st Hn Hv) as (u & Hu & Heq).
    cbn zeta in Heq. rewrite Heq. clear Heq.
    destruct (crawl.do_fetch u st) as [[result|e] st1]; [|apply IH].
    destruct (extractLinks_outcome (HTML result) u) as [[[links|e] ->]| ->];
      [apply IH|apply IH|done].
Qed.

(** C9: when [HasNext] holds, [Next] reads inside the queue, returns the
    URL at the cursor and moves the cursor by one; and since the loop
    calls [Next] only under [HasNext], no run of the loop or of
    [DiscoverAll] ends in an index-out-of-range panic. *)
Theorem Next_under_HasNext (q : crawl.Queue) :
  (crawl.HasNext q = true →
   ∃ u, crawl.items q !! crawl.idx q = Some u
        ∧ (crawl.idx q < length (crawl.items q))%nat
        ∧ crawl.Next q
          = Returned (u, crawl.mkQueue (crawl.items q) (crawl.visited q)
                                       (crawl.idx q + 1)))
  ∧ (∀ fuel domain st,
       crawl.bfs_loop fuel domain q st ≠ Panicked IndexOutOfRange)
  ∧ (∀ baseURL st, crawl.DiscoverAll baseURL st ≠ Panicked IndexOutOfRange).
Proof.
  split; [|split].
  - intros Hn. destruct (HasNext_Next q Hn) as (u & Hu & HN).
    exists u. split; [done|]. split.
    + by apply lookup_lt_Some in Hu.
    + by rewrite Nat.add_1_r.
  - intros fuel domain st. apply bfs_loop_no_index_panic.
  - intros baseURL st. unfold crawl.DiscoverAll.
    destruct (url.Parse baseURL) as [parsed|]; [|done].
    assert (∀ st1, crawl.discoverFromLinks baseURL (url.Host parsed) st1
                   ≠ Panicked IndexOutOfRange) as Hbfs.
    { intros st1. unfold crawl.discoverFromLinks, crawl.discoverFromLinks_fuel.
      pose proof (bfs_loop_no_index_panic crawl.maxPages (url.Host parsed)
                    (crawl.Add (crawl.NormalizeURL baseURL) crawl.NewQueue) st1).
      destruct (crawl.bfs_loop _ _ _ _) as [[]|[]|]; done. }
    destruct (crawl.discoverFromSitemap _ _ st) as [[urls|e] st1]; [|apply Hbfs].
    destruct (0 <? length urls)%nat; [done|apply Hbfs].
Qed.

(** C7: when the sitemap is fetched with status 200 and its body is read
    and parsed, the reader returns the [loc] entries that are in the
    domain and not static assets, each normalized, in document order. *)
Theorem discoverFromSitemap_output sitemapURL domain st resp w body sitemap :
  is_ok (url.Parse sitemapURL) = true →
  client_Do sitemapURL (world st) = (Ok resp, w) →
  RespStatusCode resp = 200%Z →
  RespBody resp = Ok body →
  xml_Unmarshal body = Ok sitemap →
  (crawl.discoverFromSitemap sitemapURL domain st).1
  = Ok (crawl.NormalizeURL <$>
        List.filter (fun loc => crawl.IsSameDomain loc domain
                                && negb (crawl.IsStaticAsset loc))
                    (Loc <$> URLs sitemap)).
Proof.
  intros Hp Hdo Hst Hbody Hxml. unfold crawl.discoverFromSitemap, crawl.do_get.
  destruct (url.Parse sitemapURL); [|done].
  rewrite Hdo, Hst, Hbody, Hxml. cbn. by rewrite sitemap_loop_spec.
Qed.

Lemma not_yields_cases (r : result goerror (list string)) :
  ¬ sitemap_yields r ↔ (∃ e, r = Err e) ∨ r = Ok [].
Proof.
  unfold sitemap_yields. split.
  - intros Hn. destruct r as [[|u urls]|e]; eauto.
    destruct Hn. by exists (u :: urls).
  - intros [[e ->]| ->] (urls & Heq & Hne); congruence.
Qed.

Lemma classic_yields (r : result goerror (list string)) :
  sitemap_yields r ∨ ¬ sitemap_yields r.
Proof.
  destruct r as [[|u urls]|e].
  - right. intros (urls & [= <-] & Hne). done.
  - left. by exists (u :: urls).
  - right. by intros (urls & Heq & _).
Qed.

Lemma DiscoverAll_fallback baseURL parsed st :
  url.Parse baseURL = Ok parsed →
  ¬ sitemap_yields
      (crawl.discoverFromSitemap (sitemap_location parsed) (url.Host parsed) st).1 →
  crawl.DiscoverAll baseURL st
  = crawl.discoverFromLinks baseURL (url.Host parsed)
      (crawl.discoverFromSitemap (sitemap_location parsed) (url.Host parsed) st).2.
Proof.
  intros Hp Hny. rewrite (DiscoverAll_parsed _ _ _ Hp).
  destruct (crawl.discoverFromSitemap _ _ st) as [[[|u urls]|e] st1]; try done.
  destruct Hny. by exists (u :: urls).
Qed.

Lemma DiscoverAll_sitemap baseURL parsed st :
  url.Parse baseURL = Ok parsed →
  sitemap_yields
      (crawl.discoverFromSitemap (sitemap_location parsed) (url.Host parsed) st).1 →
  crawl.DiscoverAll baseURL st
  = Returned (crawl.discoverFromSitemap (sitemap_location parsed)
                (url.Host parsed) st).
Proof.
  intros Hp (urls & Heq & Hne). rewrite (DiscoverAll_parsed _ _ _ Hp).
  destruct (crawl.discoverFromSitemap _ _ st) as [[[|u us]|e] st1]; cbn in *;
    congruence.
Qed.

Lemma discoverFromLinks_outcome start domain st :
  (∃ rest fetched st',
      crawl.discoverFromLinks start domain st
      = Returned (Ok (crawl.NormalizeURL start :: rest), st')
      ∧ Forall (scoped domain) rest
      ∧ NoDup (crawl.NormalizeURL start :: rest)
      ∧ trace st'
        = (trace st ++ EvFetch (crawl.NormalizeURL start) :: (EvFetch <$> fetched))%list)
  ∨ crawl.discoverFromLinks start domain st = Panicked NilDereference.
Proof.
  apply discoverFromLinks_fuel_outcome. unfold crawl.maxPages. lia.
Qed.

(** C1: once the starting URL is parsed, [DiscoverAll] returns what the
    sitemap reader returned, without a single page fetch, exactly when
    the reader succeeded with a non-empty list; when the reader failed
    (transport error, status other than 200, unreadable or unparsable
    body) or returned the empty list, [DiscoverAll] is the BFS crawl from
    the starting URL, whose first action is to fetch the normalized
    starting URL. *)
Theorem DiscoverAll_sitemap_first baseURL parsed st :
  url.Parse baseURL = Ok parsed →
  let run :=
    crawl.discoverFromSitemap (sitemap_location parsed) (url.Host parsed) st in
  (sitemap_yields run.1 →
     crawl.DiscoverAll baseURL st = Returned (run.1, run.2)
     ∧ List.filter is_fetch (trace run.2) = List.filter is_fetch (trace st))
  ∧ (¬ sitemap_yields run.1 →
     crawl.DiscoverAll baseURL st
     = crawl.discoverFromLinks baseURL (url.Host parsed) run.2
     ∧ ((∃ rest fetched st',
           crawl.DiscoverAll baseURL st
           = Returned (Ok (crawl.NormalizeURL baseURL :: rest), st')
           ∧ trace st'
             = (trace run.2 ++ EvFetch (crawl.NormalizeURL baseURL)
                               :: (EvFetch <$> fetched))%list)
        ∨ crawl.DiscoverAll baseURL st = Panicked NilDereference))
  ∧ ((∃ st',
        crawl.DiscoverAll baseURL st = Returned (run.1, st')
        ∧ List.filter is_fetch (trace st') = List.filter is_fetch (trace st))
     ↔ sitemap_yields run.1)
  ∧ (¬ sitemap_yields run.1 ↔
     (∃ e, url.Parse (sitemap_location parsed) = Err e)
     ∨ (∃ e, (client_Do (sitemap_location parsed) (world st)).1 = Err e)
     ∨ (∃ resp, (client_Do (sitemap_location parsed) (world st)).1 = Ok resp
                ∧ (RespStatusCode resp ≠ 200%Z
                   ∨ (∃ e, RespBody resp = Err e)
                   ∨ (∃ body e, RespBody resp = Ok body
                                ∧ xml_Unmarshal body = Err e)))
     ∨ run.1 = Ok []).
Proof.
  intros Hp run.
  assert (¬ sitemap_yields run.1 →
     crawl.DiscoverAll baseURL st
     = crawl.discoverFromLinks baseURL (url.Host parsed) run.2
     ∧ ((∃ rest fetched st',
           crawl.DiscoverAll baseURL st
           = Returned (Ok (crawl.NormalizeURL baseURL :: rest), st')
           ∧ trace st'
             = (trace run.2 ++ EvFetch (crawl.NormalizeURL baseURL)
                               :: (EvFetch <$> fetched))%list)
        ∨ crawl.DiscoverAll baseURL st = Panicked NilDereference)) as Hfall.
  { intros Hny. pose proof (DiscoverAll_fallback _ _ _ Hp Hny) as Heq.
    split; [done|]. rewrite Heq.
    destruct (discoverFromLinks_outcome baseURL (url.Host parsed) run.2)
      as [(rest & fetched & st' & Hrun & _ & _ & Htr)|Hpanic]; [left|by right].
    by exists rest, fetched, st'. }
  assert (sitemap_yields run.1 →
     crawl.DiscoverAll baseURL st = Returned (run.1, run.2)
     ∧ List.filter is_fetch (trace run.2) = List.filter is_fetch (trace st))
    as Hsm.
  { intros Hy. split; [|apply discoverFromSitemap_trace].
    rewrite (DiscoverAll_sitemap _ _ _ Hp Hy). fold run. by destruct run. }
  split; [done|]. split; [done|]. split.
  - split.
    + intros (st' & Hrun & Htr).
      destruct (classic_yields run.1) as [Hy|Hny]; [done|exfalso].
      destruct (Hfall Hny) as [_ [(rest & fetched & st2 & Hrun2 & Htr2)|Hpanic]];
        [|congruence].
      rewrite Hrun in Hrun2. injection Hrun2 as _ <-.
      rewrite Htr2, List.filter_app in Htr. subst run.
      rewrite discoverFromSitemap_trace in Htr. cbn in Htr.
      apply (f_equal length) in Htr. rewrite length_app in Htr. cbn in Htr. lia.
    + intros Hy. exists run.2. by apply Hsm.
  - clear Hfall Hsm. rewrite not_yields_cases. subst run.
    unfold crawl.discoverFromSitemap, crawl.do_get.
    destruct (url.Parse (sitemap_location parsed)) as [?|e0]; cbn.
    2:{ split; intros _; left; by eexists. }
    destruct (client_Do (sitemap_location parsed) (world st)) as [[resp|e] w]; cbn.
    2:{ split; intros _; [right|]; left; by eexists. }
    destruct (RespStatusCode resp =? 200)%Z eqn:Hst; cbn.
    2:{ apply Z.eqb_neq in Hst. split; intros _; [|left; by eexists].
        right; right; left. exists resp. split; [done|by left]. }
    apply Z.eqb_eq in Hst.
    destruct (RespBody resp) as [body|e] eqn:Hbody; cbn.
    2:{ split; intros _; [|left; by eexists].
        right; right; left. exists resp. split; [done|]. right; left.
        by exists e. }
    destruct (xml_Unmarshal body) as [sitemap|e] eqn:Hxml; cbn.
    2:{ split; intros _; [|left; by eexists].
        right; right; left. exists resp. split; [done|]. right; right.
        by exists body, e. }
    split.
    + intros [[e He]|Hnil]; [done|]. by do 3 right.
    + intros [[e He]|[[e He]|[(r & Hr & Hcases)|Hnil]]]; try done; [|by right].
      injection Hr as <-.
      destruct Hcases as [?|[[e He]|(b & e & Hb & He)]]; try congruence.
Qed.

(** C5: [DiscoverAll] returns an error exactly when the starting URL does
    not parse.  Once it parses, the call ends with a list (or with the
    nil-dereference panic of link extraction), never out of rounds; and a
    page whose fetch fails, or whose links cannot be extracted, is
    skipped: the loop goes on with the next queued URL. *)
Theorem DiscoverAll_error_iff baseURL st :
  ((∃ e st', crawl.DiscoverAll baseURL st = Returned (Err e, st'))
   ↔ (∃ e, url.Parse baseURL = Err e))
  ∧ (∀ parsed, url.Parse baseURL = Ok parsed →
       (∃ urls st', crawl.DiscoverAll baseURL st = Returned (Ok urls, st'))
       ∨ crawl.DiscoverAll baseURL st = Panicked NilDereference)
  ∧ (∀ fuel domain (q : crawl.Queue) st0 u,
       crawl.HasNext q = true → (crawl.Visited q < crawl.maxPages)%nat →
       crawl.items q !! crawl.idx q = Some u →
       (∀ e st1, crawl.do_fetch u st0 = (Err e, st1) →
          crawl.bfs_loop (S fuel) domain q st0
          = crawl.bfs_loop fuel domain
              (crawl.mkQueue (crawl.items q) (crawl.visited q) (S (crawl.idx q)))
              st1)
       ∧ (∀ result e st1, crawl.do_fetch u st0 = (Ok result, st1) →
          crawl.extractLinks (HTML result) u = Returned (Err e) →
          crawl.bfs_loop (S fuel) domain q st0
          = crawl.bfs_loop fuel domain
              (crawl.mkQueue (crawl.items q) (crawl.visited q) (S (crawl.idx q)))
              st1)).
Proof.
  assert (∀ parsed, url.Parse baseURL = Ok parsed →
       (∃ urls st', crawl.DiscoverAll baseURL st = Returned (Ok urls, st'))
       ∨ crawl.DiscoverAll baseURL st = Panicked NilDereference) as Hok.
  { intros parsed Hp. rewrite (DiscoverAll_parsed _ _ _ Hp).
    destruct (crawl.discoverFromSitemap _ _ st) as [[[|u urls]|e] st1]; eauto;
      destruct (discoverFromLinks_outcome baseURL (url.Host parsed) st1)
        as [(rest & fetched & st' & -> & _)| ->]; eauto. }
  split; [|split; [done|]].
  - split.
    + intros (e & st' & Hrun).
      destruct (url.Parse baseURL) as [parsed|e0] eqn:Hp; [|eauto].
      destruct (Hok parsed eq_refl) as [(urls & st2 & Hrun2)|Hpanic]; congruence.
    + intros [e Hp]. unfold crawl.DiscoverAll. rewrite Hp. eauto.
  - intros fuel domain q st0 u Hn Hv Hu.
    destruct (bfs_loop_round fuel domain q st0 Hn Hv) as (u' & Hu' & Heq).
    assert (u' = u) as -> by congruence. cbn zeta in Heq. split.
    + intros e st1 Hf. by rewrite Heq, Hf.
    + intros result e st1 Hf He. by rewrite Heq, Hf, He.
Qed.

(** C10: when the starting URL parses and the sitemap attempt did not
    yield a non-empty list, the list [DiscoverAll] returns starts with the
    normalized starting URL, whatever the fetches give; the only other
    way the call can end is the nil-dereference panic of link
    extraction. *)
Theorem fallback_seed_first baseURL parsed st :
  url.Parse baseURL = Ok parsed →
  ¬ sitemap_yields
      (crawl.discoverFromSitemap (sitemap_location parsed) (url.Host parsed) st).1 →
  (∃ rest st',
      crawl.DiscoverAll baseURL st
      = Returned (Ok (crawl.NormalizeURL baseURL :: rest), st'))
  ∨ crawl.DiscoverAll baseURL st = Panicked NilDereference.
Proof.
  intros Hp Hny. rewrite (DiscoverAll_fallback _ _ _ Hp Hny).
  destruct (discoverFromLinks_outcome baseURL (url.Host parsed)
              (crawl.discoverFromSitemap (sitemap_location parsed)
                 (url.Host parsed) st).2)
    as [(rest & fetched & st' & -> & _)| ->]; eauto.
Qed.

(** C6, as the code has it: every URL of the list a successful
    [DiscoverAll] returns is the normal form of a candidate; the candidate
    is the starting URL itself, which is not filtered, or a sitemap entry
    or extracted link that is in the domain of the starting URL and is not
    a static asset. *)
Theorem DiscoverAll_provenance baseURL parsed st urls st' :
  url.Parse baseURL = Ok parsed →
  crawl.DiscoverAll baseURL st = Returned (Ok urls, st') →
  ∀ u, u ∈ urls →
    u = crawl.NormalizeURL baseURL
    ∨ ∃ c, crawl.IsSameDomain c (url.Host parsed) = true
           ∧ crawl.IsStaticAsset c = false
           ∧ u = crawl.NormalizeURL c.
Proof.
  intros Hp Hrun u Hu.
  assert (scoped (url.Host parsed) u →
          ∃ c, crawl.IsSameDomain c (url.Host parsed) = true
               ∧ crawl.IsStaticAsset c = false ∧ u = crawl.NormalizeURL c) as Hsc.
  { intros (c & Hc & ->). exists c. unfold crawl.in_scope in Hc.
    apply andb_true_iff in Hc as [? ?%negb_true_iff]. done. }
  rewrite (DiscoverAll_parsed _ _ _ Hp) in Hrun.
  pose proof (discoverFromSitemap_scoped (sitemap_location parsed)
                (url.Host parsed) st) as Hsm.
  assert (∀ st1, crawl.discoverFromLinks baseURL (url.Host parsed) st1
                 = Returned (Ok urls, st') →
                 u = crawl.NormalizeURL baseURL ∨ scoped (url.Host parsed) u)
    as Hbfs.
  { intros st1 Hrun1.
    destruct (discoverFromLinks_outcome baseURL (url.Host parsed) st1)
      as [(rest & fetched & st2 & Hrun2 & Hall & _)|Hpanic]; [|congruence].
    rewrite Hrun1 in Hrun2. injection Hrun2 as -> _.
    apply elem_of_cons in Hu as [->|Hu]; [by left|right].
    by apply (proj1 (Forall_forall _ _) Hall). }
  destruct (crawl.discoverFromSitemap _ _ st) as [[[|v vs]|e] st1]; cbn in Hsm.
  - destruct (Hbfs _ Hrun); eauto.
  - injection Hrun as <- _. right. apply Hsc.
    by apply (proj1 (Forall_forall _ _) (Hsm _ eq_refl)).
  - destruct (Hbfs _ Hrun); eauto.
Qed.

End Orchestrator.

Section Cycle.
Context `{F : Fetcher}.

Lemma first_occurrences_constant (l : list string) x :
  l ≠ [] → (∀ y, y ∈ l → y = x) → first_occurrences l = [x].
Proof.
  destruct l as [|y l]; [done|]. intros _ Hall. cbn.
  rewrite (Hall y) by left. f_equal.
  apply filter_drops_all. intros z Hz Hne.
  rewrite first_occurrences_elem in Hz. apply Hne, Hall. by right.
Qed.

(** The loop on a cycle: with the first [k + 1] pages queued and the
    cursor on page [k], it stops with exactly the first [maxPages] pages
    queued. *)
Lemma bfs_loop_cycle domain pages d : ∀ k fuel (q : crawl.Queue) st,
  presents_cycle domain pages → (crawl.maxPages < length pages)%nat →
  (S k + d = crawl.maxPages)%nat → (d ≤ fuel)%nat →
  queue_wf q → crawl.items q = take (S k) pages → crawl.idx q = k →
  ∃ q' st',
    crawl.bfs_loop fuel domain q st = Returned (q', st')
    ∧ crawl.items q' = take crawl.maxPages pages
    ∧ crawl.Visited q' = crawl.maxPages.
Proof.
  induction d as [|d IH]; intros k fuel q st Hcyc Hlen Hk Hfuel Hwf Hit Hidx.
  - assert (crawl.Visited q = crawl.maxPages) as Hv.
    { rewrite Visited_length, Hit, length_take by done. lia. }
    exists q, st. rewrite bfs_loop_done.
    + split; [done|]. split; [|done]. rewrite Hit. f_equal. lia.
    + rewrite Hv, Nat.ltb_irrefl. apply andb_false_r.
  - destruct fuel as [|fuel]; [lia|].
    assert (crawl.HasNext q = true) as Hn.
    { unfold crawl.HasNext. apply Nat.ltb_lt. rewrite Hit, length_take, Hidx. lia. }
    assert (crawl.Visited q < crawl.maxPages)%nat as Hv.
    { rewrite Visited_length, Hit, length_take by done. lia. }
    destruct (bfs_loop_round fuel domain q st Hn Hv) as (u & Hu & Heq).
    cbn zeta in Heq. rewrite Heq. clear Heq.
    rewrite Hit, Hidx, lookup_take_lt in Hu by lia.
    destruct Hcyc as [Hnd Hpages].
    destruct (Hpages k u (world st) Hu) as (result & w' & links & Hf & Hx & Ht).
    unfold crawl.do_fetch. rewrite Hf, Hx.
    rewrite Nat.mod_small in Ht by lia.
    destruct (lookup_lt_is_Some_2 pages (S k)) as [nxt Hnxt]; [lia|].
    set (q1 := crawl.mkQueue (crawl.items q) (crawl.visited q) (S (crawl.idx q))).
    assert (queue_wf q1) as Hwf1 by exact Hwf.
    apply (IH (S k)); [done|done|lia|lia|by apply add_all_wf| |].
    + rewrite add_all_items by done. cbn [crawl.items q1]. rewrite Hit.
      rewrite (take_S_r pages (S k) nxt) by done. f_equal.
      rewrite (first_occurrences_constant _ nxt).
      * rewrite filter_cons_True; [done|].
        intros Hin. apply list_elem_of_lookup in Hin as [i Hi].
        pose proof (lookup_lt_Some _ _ _ Hi) as Hlt. rewrite length_take in Hlt.
        rewrite lookup_take_lt in Hi by lia.
        pose proof (NoDup_lookup _ _ _ _ Hnd Hi Hnxt). lia.
      * intros Hnil. pose proof (proj2 (Ht nxt) Hnxt) as Hin.
        rewrite Hnil in Hin. by apply elem_of_nil in Hin.
      * intros y Hy%Ht. congruence.
    + rewrite add_all_idx. cbn. by rewrite Hidx.
Qed.

(** C2: whatever fetcher presents 300 pages of [x.com] as one link cycle
    through the seed [https://x.com/], the BFS loop ends, within
    [maxPages] rounds and for any larger bound alike, with exactly the
    first 100 pages of the cycle visited; [discoverFromLinks] returns
    them. *)
Theorem bfs_cycle_stops_at_cap (pages : list string) st :
  length pages = 300%nat →
  pages !! 0%nat = Some (crawl.NormalizeURL "https://x.com/") →
  presents_cycle "x.com" pages →
  ∃ q st',
    (∀ extra,
       crawl.bfs_loop (crawl.maxPages + extra) "x.com"
         (crawl.Add (crawl.NormalizeURL "https://x.com/") crawl.NewQueue) st
       = Returned (q, st'))
    ∧ crawl.HasNext q && (crawl.Visited q <? crawl.maxPages)%nat = false
    ∧ crawl.Visited q = 100%nat
    ∧ crawl.All q = take 100 pages
    ∧ crawl.discoverFromLinks "https://x.com/" "x.com" st
      = Returned (Ok (take 100 pages), st').
Proof.
  intros Hlen Hseed Hcyc.
  destruct (seed_queue "https://x.com/") as (Hwf & Hit & Hidx & _). cbn zeta in *.
  unfold crawl.discoverFromLinks, crawl.discoverFromLinks_fuel.
  generalize dependent (crawl.Add (crawl.NormalizeURL "https://x.com/")
                                  crawl.NewQueue).
  generalize dependent (crawl.NormalizeURL "https://x.com/").
  intros seed Hseed q0 Hwf Hit Hidx.
  assert (crawl.items q0 = take 1 pages) as Hit1.
  { rewrite Hit. destruct pages as [|p pages]; [discriminate|].
    cbn in Hseed. injection Hseed as ->. reflexivity. }
  assert (crawl.maxPages < length pages)%nat as Hlt.
  { rewrite Hlen. unfold crawl.maxPages. lia. }
  destruct (bfs_loop_cycle "x.com" pages 99 0 crawl.maxPages q0 st Hcyc Hlt)
    as (q & st' & Hrun & Hitems & Hv);
    [reflexivity|unfold crawl.maxPages; lia|exact Hwf|exact Hit1|exact Hidx|].
  exists q, st'. split; [|split; [|split; [exact Hv|split]]].
  - intros extra. rewrite bfs_loop_more_fuel; [exact Hrun|].
    rewrite Hrun. discriminate.
  - by destruct (bfs_loop_returned _ _ _ _ _ _ Hwf Hrun) as (_ & _ & _ & Hend).
  - exact Hitems.
  - rewrite Hrun. unfold crawl.All. by rewrite Hitems.
Qed.

End Cycle.

(** ** Strings *)

Section StringFacts.

Lemma append_cons c (s t : string) : String c s ++ t = String c (s ++ t).
Proof. reflexivity. Qed.

Lemma append_nil_l (s : string) : "" ++ s = s.
Proof. reflexivity. Qed.

Lemma list_ascii_app (s t : string) :
  list_ascii_of_string (s ++ t)
  = (list_ascii_of_string s ++ list_ascii_of_string t)%list.
Proof.
  induction s as [|c s IH]; [done|]. rewrite ?append_cons. cbn. by rewrite IH.
Qed.

Lemma str_all_app p (s t : string) :
  str_all p (s ++ t) = str_all p s && str_all p t.
Proof. unfold str_all. by rewrite list_ascii_app, forallb_app. Qed.

Lemma str_any_app p (s t : string) :
  str_any p (s ++ t) = str_any p s || str_any p t.
Proof. unfold str_any. by rewrite list_ascii_app, existsb_app. Qed.

Lemma str_all_cons p c (s : string) :
  str_all p (String c s) = p c && str_all p s.
Proof. done. Qed.

Lemma str_any_cons p c (s : string) :
  str_any p (String c s) = p c || str_any p s.
Proof. done. Qed.

(** A byte class that excludes [c] excludes it from every string of the
    class. *)
Lemma str_all_not_any (p q : ascii → bool) (s : string) :
  (∀ c, p c = true → q c = false) → str_all p s = true → str_any q s = false.
Proof.
  intros Hpq. induction s as [|c s IH]; [done|].
  rewrite str_all_cons, str_any_cons. intros [Hc Hs]%andb_true_iff.
  by rewrite (Hpq c Hc), IH.
Qed.

Lemma str_all_weaken (p q : ascii → bool) (s : string) :
  (∀ c, p c = true → q c = true) → str_all p s = true → str_all q s = true.
Proof.
  intros Hpq. induction s as [|c s IH]; [done|].
  rewrite !str_all_cons. intros [Hc Hs]%andb_true_iff.
  by rewrite (Hpq c Hc), IH.
Qed.

Lemma append_assoc (s t r : string) : (s ++ t) ++ r = s ++ t ++ r.
Proof.
  induction s as [|c s IH]; [done|]. rewrite ?append_cons. cbn. by rewrite IH.
Qed.

Lemma append_nil_r (s : string) : s ++ "" = s.
Proof.
  induction s as [|c s IH]; [done|]. rewrite ?append_cons. cbn. by rewrite IH.
Qed.

Lemma append_inj_l (s t r : string) : s ++ t = s ++ r → t = r.
Proof.
  induction s as [|c s IH]; [done|]. rewrite !append_cons.
  intros [= H]. by apply IH.
Qed.

Lemma length_append (s t : string) :
  String.length (s ++ t) = (String.length s + String.length t)%nat.
Proof.
  induction s as [|c s IH]; [done|]. rewrite ?append_cons. cbn. by rewrite IH.
Qed.

Lemma str_take_app (s t : string) : str_take (String.length s) (s ++ t) = s.
Proof.
  induction s as [|c s IH]; [by destruct t|]. rewrite append_cons. cbn.
  by rewrite IH.
Qed.

Lemma str_drop_app (s t : string) : str_drop (String.length s) (s ++ t) = t.
Proof.
  induction s as [|c s IH]; [done|]. rewrite ?append_cons. cbn. by rewrite IH.
Qed.

Lemma str_take_all (s : string) : str_take (String.length s) s = s.
Proof.
  induction s as [|c s IH]; [done|]. rewrite ?append_cons. cbn. by rewrite IH.
Qed.

Lemma str_any_drop p n (s : string) :
  str_any p (str_drop n s) = true → str_any p s = true.
Proof.
  revert s. induction n as [|n IH]; intros s; [by destruct s|].
  destruct s as [|c s]; [done|]. cbn [str_drop].
  intros H%IH. rewrite str_any_cons, H. apply orb_true_r.
Qed.

Lemma eqb_byte_refl c : Ascii.eqb c c = true.
Proof. apply Ascii.eqb_refl. Qed.

Lemma IndexByte_absent (s : string) c :
  strings.ContainsByte s c = false → strings.IndexByte s c = None.
Proof.
  unfold strings.ContainsByte. induction s as [|a s IH]; [done|].
  rewrite str_any_cons. intros [Ha Hs]%orb_false_iff.
  cbn [strings.IndexByte]. rewrite Ascii.eqb_sym, Ha. by rewrite IH.
Qed.

Lemma IndexByte_first (s t : string) c :
  strings.ContainsByte s c = false →
  strings.IndexByte (s ++ String c t) c = Some (String.length s).
Proof.
  unfold strings.ContainsByte. induction s as [|a s IH].
  - intros _. rewrite append_nil_l. cbn [strings.IndexByte String.length].
    by rewrite eqb_byte_refl.
  - rewrite str_any_cons. intros [Ha Hs]%orb_false_iff.
    rewrite append_cons. cbn [strings.IndexByte String.length].
    rewrite Ascii.eqb_sym, Ha. by rewrite IH.
Qed.

Lemma LastIndexByte_absent (s : string) c :
  strings.ContainsByte s c = false → strings.LastIndexByte s c = None.
Proof.
  unfold strings.ContainsByte. induction s as [|a s IH]; [done|].
  rewrite str_any_cons. intros [Ha Hs]%orb_false_iff.
  cbn [strings.LastIndexByte]. rewrite IH by done.
  by rewrite Ascii.eqb_sym, Ha.
Qed.

Lemma CutByte_absent (s : string) c :
  strings.ContainsByte s c = false → strings.CutByte s c = (s, "", false).
Proof. intros H. unfold strings.CutByte. by rewrite IndexByte_absent. Qed.

Lemma CutByte_first (s t : string) c :
  strings.ContainsByte s c = false →
  strings.CutByte (s ++ String c t) c = (s, t, true).
Proof.
  intros H. unfold strings.CutByte. rewrite IndexByte_first by done.
  rewrite str_take_app.
  replace (S (String.length s)) with (String.length (s ++ String c ""))
    by (rewrite length_append; cbn; lia).
  replace (s ++ String c t) with ((s ++ String c "") ++ t)
    by (by rewrite append_assoc).
  by rewrite str_drop_app.
Qed.

Lemma HasSuffix_byte_contains (s : string) c :
  strings.HasSuffix s (String c "") = true → strings.ContainsByte s c = true.
Proof.
  unfold strings.HasSuffix, strings.ContainsByte.
  intros [_ Heq%String.eqb_eq]%andb_true_iff.
  apply (str_any_drop _ (String.length s - String.length (String c ""))).
  rewrite Heq, str_any_cons. by rewrite eqb_byte_refl.
Qed.

(** A string is empty or has a last byte. *)
Lemma str_snoc_cases (s : string) : s = "" ∨ ∃ t c, s = t ++ String c "".
Proof.
  induction s as [|a s IH]; [by left|right].
  destruct IH as [->|(t & c & ->)].
  - by exists "", a.
  - exists (String a t), c. by rewrite append_cons.
Qed.

Lemma HasSuffix_snoc (t : string) c d :
  strings.HasSuffix (t ++ String c "") (String d "") = Ascii.eqb c d.
Proof.
  unfold strings.HasSuffix. rewrite length_append. cbn [String.length].
  replace (String.length t + 1 - 1)%nat with (String.length t) by lia.
  rewrite str_drop_app.
  replace (1 <=? String.length t + 1)%nat with true
    by (symmetry; apply Nat.leb_le; lia).
  cbn [andb String.eqb]. by destruct (Ascii.eqb c d).
Qed.

Lemma TrimSuffix_snoc (t : string) c d :
  strings.TrimSuffix (t ++ String c "") (String d "")
  = if Ascii.eqb c d then t else t ++ String c "".
Proof.
  unfold strings.TrimSuffix. rewrite HasSuffix_snoc.
  destruct (Ascii.eqb c d); [|done].
  rewrite length_append. cbn [String.length].
  replace (String.length t + 1 - 1)%nat with (String.length t) by lia.
  apply str_take_app.
Qed.

End StringFacts.

(** ** [net/url] on plain URLs *)

Section PlainURL.

Ltac by_bytes c := destruct c as [[] [] [] [] [] [] [] []]; vm_compute; try done.

Lemma host_byte_facts c :
  host_byte c = true →
  url.shouldEscape c url.encodeHost = false
  ∧ Ascii.eqb c "/" = false ∧ Ascii.eqb c "?" = false ∧ Ascii.eqb c "#" = false
  ∧ Ascii.eqb c "@" = false ∧ Ascii.eqb c ":" = false ∧ Ascii.eqb c "[" = false
  ∧ Ascii.eqb c "%" = false ∧ Ascii.eqb c "+" = false
  ∧ ((N_of_ascii c <? 32)%N || (N_of_ascii c =? 127)%N) = false.
Proof. by_bytes c. Qed.

Lemma path_byte_facts c :
  path_byte c = true →
  url.shouldEscape c url.encodePath = false
  ∧ Ascii.eqb c "?" = false ∧ Ascii.eqb c "#" = false
  ∧ Ascii.eqb c "%" = false ∧ Ascii.eqb c "+" = false
  ∧ Ascii.eqb c ":" = false ∧ Ascii.eqb c "*" = false
  ∧ ((N_of_ascii c <? 32)%N || (N_of_ascii c =? 127)%N) = false.
Proof. by_bytes c. Qed.

Lemma lower_byte_facts c :
  is_lower c = true →
  is_upper c = false ∧ (is_lower c || is_upper c) = true
  ∧ Ascii.eqb c "?" = false ∧ Ascii.eqb c "#" = false
  ∧ Ascii.eqb c "/" = false ∧ Ascii.eqb c "*" = false
  ∧ ((N_of_ascii c <? 32)%N || (N_of_ascii c =? 127)%N) = false.
Proof. by_bytes c. Qed.

Lemma unescape_scan_cons c (rest : string) mode :
  Ascii.eqb c "%" = false →
  url.unescape_scan (String c rest) mode =
  if Ascii.eqb c "+" then
    match url.unescape_scan rest mode with
    | Ok (n, hasPlus) =>
        Ok (n, match mode with url.encodeQueryComponent => true | _ => hasPlus end)
    | Err e => Err e
    end
  else if url.is_host_mode mode && negb (is_non_ascii c)
          && url.shouldEscape c url.encodeHost
  then Err (url.InvalidHostError (String c ""))
  else url.unescape_scan rest mode.
Proof.
  destruct c as [[] [] [] [] [] [] [] []]; intros H;
    first [discriminate H | reflexivity].
Qed.

(** Without a [%] there is nothing to decode, and outside the host nothing
    to reject. *)
Lemma unescape_scan_clean (s : string) mode :
  strings.ContainsByte s "%" = false →
  mode ≠ url.encodeQueryComponent →
  str_any (fun c => url.is_host_mode mode && negb (is_non_ascii c)
                    && url.shouldEscape c url.encodeHost) s = false →
  url.unescape_scan s mode = Ok (0%nat, false).
Proof.
  unfold strings.ContainsByte. intros Hp Hm. induction s as [|c s IH]; [done|].
  rewrite str_any_cons in Hp. apply orb_false_iff in Hp as [Hc Hs].
  rewrite str_any_cons. intros [Hh Hrest]%orb_false_iff.
  rewrite unescape_scan_cons by by rewrite Ascii.eqb_sym.
  rewrite Hh, (IH Hs Hrest). destruct (Ascii.eqb c "+"); [|done].
  by destruct mode.
Qed.

Lemma unescape_clean (s : string) mode :
  strings.ContainsByte s "%" = false →
  mode ≠ url.encodeQueryComponent →
  str_any (fun c => url.is_host_mode mode && negb (is_non_ascii c)
                    && url.shouldEscape c url.encodeHost) s = false →
  url.unescape s mode = Ok s.
Proof.
  intros Hp Hm Hh. unfold url.unescape.
  by rewrite (unescape_scan_clean s mode Hp Hm Hh).
Qed.

Lemma escape_clean (s : string) mode :
  str_any (fun c => url.shouldEscape c mode) s = false → url.escape s mode = s.
Proof. intros H. unfold url.escape. by rewrite H. Qed.

Lemma contains_byte_class (p : ascii → bool) (s : string) c :
  (∀ a, p a = true → Ascii.eqb a c = false) →
  str_all p s = true → strings.ContainsByte s c = false.
Proof.
  intros Hp Hs. unfold strings.ContainsByte.
  apply (str_all_not_any p); [|done].
  intros a Ha. rewrite Ascii.eqb_sym. by apply Hp.
Qed.

Lemma path_unescape (p : string) :
  str_all path_byte p = true → url.unescape p url.encodePath = Ok p.
Proof.
  intros Hp. apply unescape_clean; [|done|].
  - apply (contains_byte_class path_byte); [|done].
    intros a Ha. by destruct (path_byte_facts a Ha) as (_&_&_&?&_).
  - apply (str_all_not_any path_byte); [|done]. done.
Qed.

Lemma path_escape (p : string) :
  str_all path_byte p = true → url.escape p url.encodePath = p.
Proof.
  intros Hp. apply escape_clean. apply (str_all_not_any path_byte); [|done].
  intros a Ha. by destruct (path_byte_facts a Ha) as (?&_).
Qed.

Lemma host_unescape (h : string) :
  str_all host_byte h = true → url.unescape h url.encodeHost = Ok h.
Proof.
  intros Hh. apply unescape_clean; [|done|].
  - apply (contains_byte_class host_byte); [|done].
    intros a Ha. by destruct (host_byte_facts a Ha) as (_&_&_&_&_&_&_&?&_).
  - apply (str_all_not_any host_byte); [|done].
    intros a Ha. destruct (host_byte_facts a Ha) as (-> &_).
    cbn. apply andb_false_r.
Qed.

Lemma host_escape (h : string) :
  str_all host_byte h = true → url.escape h url.encodeHost = h.
Proof.
  intros Hh. apply escape_clean. apply (str_all_not_any host_byte); [|done].
  intros a Ha. by destruct (host_byte_facts a Ha) as (?&_).
Qed.

Lemma setPath_plain (u : url.URL) (p : string) :
  str_all path_byte p = true →
  url.setPath u p = Ok (url.with_RawPath "" (url.with_Path p u)).
Proof.
  intros Hp. unfold url.setPath.
  by rewrite path_unescape, path_escape, String.eqb_refl.
Qed.

Lemma getScheme_loop_letters (raw scheme rest : string) i :
  str_all is_lower scheme = true →
  url.getScheme_loop raw i (scheme ++ String ":" rest)
  = if (i + String.length scheme =? 0)%nat then Err url.ErrMissingScheme
    else Ok (str_take (i + String.length scheme) raw, rest).
Proof.
  revert i. induction scheme as [|c s IH]; intros i Hs.
  - rewrite append_nil_l. cbn [String.length]. rewrite Nat.add_0_r. done.
  - rewrite str_all_cons in Hs. apply andb_true_iff in Hs as [Hc Hs].
    rewrite append_cons. cbn [url.getScheme_loop String.length].
    destruct (lower_byte_facts c Hc) as (_ & -> & _).
    rewrite IH by done. by rewrite Nat.add_succ_r.
Qed.

Lemma getScheme_plain (scheme rest : string) :
  plain_scheme scheme = true →
  url.getScheme (scheme ++ String ":" rest) = Ok (scheme, rest).
Proof.
  intros [Hne Hs]%andb_true_iff. unfold url.getScheme.
  rewrite getScheme_loop_letters by done. cbn [Nat.add].
  destruct scheme as [|c s]; [done|]. cbn [String.length Nat.eqb].
  change (S (String.length s)) with (String.length (String c s)).
  by rewrite str_take_app.
Qed.

Lemma HasPrefix_byte c d (s : string) :
  strings.HasPrefix (String c s) (String d "") = true → c = d.
Proof.
  unfold strings.HasPrefix.
  change (String.prefix (String d "") (String c s))
    with (if Ascii.ascii_dec d c then String.prefix "" s else false).
  destruct (Ascii.ascii_dec d c); [auto|discriminate].
Qed.

(** The record [Parse] builds for a plain URL without its fragment. *)
Lemma parse_plain (scheme host path : string) :
  plain_scheme scheme = true → plain_host host = true →
  plain_path path = true →
  url.parse (scheme ++ "://" ++ host ++ path)
  = Ok (url.mkURL scheme "" None host path "" false false "" "" "").
Proof.
  intros Hscheme Hhost Hpath.
  pose proof Hscheme as [Hsne Hs]%andb_true_iff.
  pose proof Hhost as [Hhne Hh]%andb_true_iff.
  pose proof Hpath as [Hpfx Hp]%andb_true_iff.
  set (rest := "//" ++ host ++ path).
  change (scheme ++ "://" ++ host ++ path) with (scheme ++ String ":" rest).
  assert (∀ c, strings.ContainsByte host c = false →
               strings.ContainsByte path c = false →
               Ascii.eqb c "/" = false →
               strings.ContainsByte rest c = false) as Hrest.
  { intros c H1 H2 H3. unfold rest, strings.ContainsByte in *.
    change ("//" ++ host ++ path) with (String "/" (String "/" (host ++ path))).
    rewrite !str_any_cons, str_any_app, H1, H2, H3. done. }
  assert (strings.ContainsByte host "/" = false) as Hhslash.
  { apply (contains_byte_class host_byte); [|done].
    intros a Ha. by destruct (host_byte_facts a Ha) as (_&?&_). }
  unfold url.parse.
  (* no control character *)
  assert (url.stringContainsCTLByte (scheme ++ String ":" rest) = false) as ->.
  { unfold url.stringContainsCTLByte, rest.
    change ("//" ++ host ++ path) with (String "/" (String "/" (host ++ path))).
    rewrite str_any_app, !str_any_cons, str_any_app.
    rewrite (str_all_not_any is_lower _ scheme) by
      (done || intros a Ha; by destruct (lower_byte_facts a Ha) as (_&_&_&_&_&_&?)).
    rewrite (str_all_not_any host_byte _ host) by
      (done || intros a Ha; by destruct (host_byte_facts a Ha) as (_&_&_&_&_&_&_&_&_&?)).
    rewrite (str_all_not_any path_byte _ path) by
      (done || intros a Ha; by destruct (path_byte_facts a Ha) as (_&_&_&_&_&_&_&?)).
    done. }
  assert (String.eqb (scheme ++ String ":" rest) "*" = false) as ->.
  { apply String.eqb_neq. intros Heq. apply (f_equal String.length) in Heq.
    rewrite length_append in Heq. destruct scheme; [discriminate Hsne|].
    cbn [String.length] in Heq. lia. }
  rewrite getScheme_plain by done.
  assert (strings.ToLowerASCII scheme = scheme) as ->.
  { unfold strings.ToLowerASCII.
    rewrite (str_all_not_any is_lower is_upper scheme); [done| |done].
    intros a Ha. by destruct (lower_byte_facts a Ha) as (?&_). }
  assert (strings.ContainsByte rest "?" = false) as Hq.
  { apply Hrest; [| |done].
    - apply (contains_byte_class host_byte); [|done].
      intros a Ha. by destruct (host_byte_facts a Ha) as (_&_&?&_).
    - apply (contains_byte_class path_byte); [|done].
      intros a Ha. by destruct (path_byte_facts a Ha) as (_&?&_). }
  assert (strings.HasSuffix rest "?" = false) as ->.
  { destruct (strings.HasSuffix rest "?") eqn:E; [|done].
    apply HasSuffix_byte_contains in E. congruence. }
  cbn [andb]. rewrite CutByte_absent by done.
  cbn [url.Scheme url.with_RawQuery url.with_Scheme url.zero].
  assert (strings.HasPrefix rest "/" = true) as -> by done.
  assert (strings.HasPrefix rest "//" = true) as ->.
  { unfold strings.HasPrefix. change (String.prefix "" (host ++ path) = true).
    by destruct (host ++ path). }
  cbn [negb andb]. rewrite Hsne. cbn [orb andb].
  change (str_drop 2 rest) with (host ++ path).
  assert (match strings.IndexByte (host ++ path) "/" with
          | Some i => (str_take i (host ++ path), str_drop i (host ++ path))
          | None => (host ++ path, "")
          end = (host, path)) as ->.
  { destruct path as [|c path'].
    - rewrite append_nil_r, IndexByte_absent by done. done.
    - apply orb_true_iff in Hpfx as [Hpfx|Hpfx]; [by cbn in Hpfx|].
      apply HasPrefix_byte in Hpfx as ->.
      rewrite IndexByte_first by done. by rewrite str_take_app, str_drop_app. }
  (* the authority is the host alone *)
  assert (url.parseAuthority host = Ok (None, host)) as ->.
  { unfold url.parseAuthority.
    rewrite LastIndexByte_absent.
    2:{ apply (contains_byte_class host_byte); [|done].
        intros a Ha. by destruct (host_byte_facts a Ha) as (_&_&_&_&?&_). }
    assert (url.parseHost host = Ok host) as ->; [|done].
    unfold url.parseHost. rewrite host_unescape by done.
    assert (strings.HasPrefix host "[" = false) as ->.
    { destruct host as [|c host']; [done|]. rewrite str_all_cons in Hh.
      apply andb_true_iff in Hh as [Hc _].
      destruct (host_byte_facts c Hc) as (_&_&_&_&_&_&Hb&_).
      destruct (strings.HasPrefix (String c host') "[") eqn:E; [|done].
      apply HasPrefix_byte in E as ->. discriminate Hb. }
    rewrite LastIndexByte_absent; [done|].
    apply (contains_byte_class host_byte); [|done].
    intros a Ha. by destruct (host_byte_facts a Ha) as (_&_&_&_&_&?&_). }
  by rewrite setPath_plain.
Qed.

Lemma plain_no_hash (scheme host path : string) :
  plain_scheme scheme = true → plain_host host = true →
  plain_path path = true →
  strings.ContainsByte (scheme ++ "://" ++ host ++ path) "#" = false.
Proof.
  intros [_ Hs]%andb_true_iff [_ Hh]%andb_true_iff [_ Hp]%andb_true_iff.
  unfold strings.ContainsByte.
  change ("://" ++ host ++ path)
    with (String ":" (String "/" (String "/" (host ++ path)))).
  rewrite str_any_app, !str_any_cons, str_any_app.
  fold (strings.ContainsByte scheme "#"). fold (strings.ContainsByte host "#").
  fold (strings.ContainsByte path "#").
  rewrite (contains_byte_class is_lower scheme), (contains_byte_class host_byte host),
    (contains_byte_class path_byte path); try done.
  - intros a Ha. by destruct (path_byte_facts a Ha) as (_&_&?&_).
  - intros a Ha. by destruct (host_byte_facts a Ha) as (_&_&_&?&_).
  - intros a Ha. by destruct (lower_byte_facts a Ha) as (_&_&_&?&_).
Qed.

(** [Parse] of a plain URL: the fragment lands in [Fragment] and
    [RawFragment] only. *)
Lemma Parse_plain (scheme host path : string) f :
  plain_scheme scheme = true → plain_host host = true →
  plain_path path = true → plain_fragment f = true →
  ∃ frag rawfrag,
    url.Parse (plain_url scheme host path f)
    = Ok (url.mkURL scheme "" None host path "" false false "" frag rawfrag).
Proof.
  intros Hs Hh Hp Hf. unfold plain_url, url.Parse.
  pose proof (plain_no_hash _ _ _ Hs Hh Hp) as Hhash.
  pose proof (parse_plain _ _ _ Hs Hh Hp) as Hparse.
  replace (scheme ++ "://" ++ host ++ path ++ fragment_part f)
    with ((scheme ++ "://" ++ host ++ path) ++ fragment_part f).
  2:{ rewrite !append_assoc. done. }
  destruct f as [f|]; cbn [fragment_part].
  - rewrite CutByte_first by done. rewrite Hparse.
    destruct (String.eqb f "") eqn:Hfe; [by eexists _, _|].
    unfold url.setFragment. rewrite unescape_clean; [| |done|].
    + destruct (String.eqb f (url.escape f url.encodeFragment));
        by eexists _, _.
    + cbn in Hf. by apply negb_true_iff in Hf.
    + cbn [url.is_host_mode andb]. clear. by induction f.
  - rewrite append_nil_r, CutByte_absent by done. rewrite Hparse.
    by eexists _, _.
Qed.

(** [String] of a plain record without fragment is the plain URL. *)
Lemma String_plain (scheme host path rawfrag : string) :
  plain_scheme scheme = true → plain_host host = true →
  plain_path path = true →
  url.String (url.mkURL scheme "" None host path "" false false "" "" rawfrag)
  = scheme ++ "://" ++ host ++ path.
Proof.
  intros [Hsne Hs]%andb_true_iff [Hhne Hh]%andb_true_iff [Hpfx Hp]%andb_true_iff.
  unfold url.String, url.EscapedPath.
  cbn [url.Scheme url.Opaque url.User url.Host url.Path url.RawPath url.OmitHost
       url.ForceQuery url.RawQuery url.Fragment url.RawFragment].
  rewrite Hsne, Hhne.
  change (url.nonempty "") with false. cbn [negb andb orb].
  rewrite host_escape, path_escape by done.
  assert (String.eqb path "*" = false) as ->.
  { destruct path as [|c p]; [done|]. rewrite str_all_cons in Hp.
    apply andb_true_iff in Hp as [Hc _].
    destruct (path_byte_facts c Hc) as (_&_&_&_&_&_&Hstar&_).
    cbn [String.eqb]. by rewrite Hstar. }
  assert (url.nonempty path && negb (strings.HasPrefix path "/") = false)
    as ->.
  { unfold url.nonempty.
    apply orb_true_iff in Hpfx as [->| ->]; [done|apply andb_false_r]. }
  cbn [andb].
  assert (String.eqb (((scheme ++ ":") ++ "//") ++ host) "" = false) as ->.
  { destruct scheme; [discriminate Hsne|done]. }
  cbn [andb]. rewrite !append_assoc. done.
Qed.

End PlainURL.

(** ** [NormalizeURL] *)

Section Normalize.

Lemma with_Path_same (u : url.URL) : url.with_Path (url.Path u) u = u.
Proof. by destruct u. Qed.

(** What [NormalizeURL] does, in one equation per outcome of [Parse]. *)
Lemma NormalizeURL_parsed raw parsed :
  url.Parse raw = Ok parsed →
  crawl.NormalizeURL raw
  = url.String (url.with_Path (normal_path (url.Path parsed))
                              (url.with_Fragment "" parsed)).
Proof.
  intros Hp. unfold crawl.NormalizeURL, normal_path. rewrite Hp.
  change (url.Path (url.with_Fragment "" parsed)) with (url.Path parsed).
  destruct (String.eqb (url.Path parsed) "/") eqn:E; cbn [negb]; [|done].
  change (url.Path parsed) with (url.Path (url.with_Fragment "" parsed)) at 1.
  by rewrite with_Path_same.
Qed.

Lemma NormalizeURL_unparsed raw e :
  url.Parse raw = Err e → crawl.NormalizeURL raw = raw.
Proof. intros Hp. unfold crawl.NormalizeURL. by rewrite Hp. Qed.

Lemma TrimSuffix_empty : strings.TrimSuffix "" "/" = "".
Proof. done. Qed.

Lemma normal_path_snoc (t : string) c :
  normal_path (t ++ String c "")
  = if Ascii.eqb c "/" then (if String.eqb t "" then "/" else t)
    else t ++ String c "".
Proof.
  unfold normal_path. rewrite TrimSuffix_snoc.
  destruct t as [|a t].
  - rewrite append_nil_l. cbn [String.eqb].
    destruct (Ascii.eqb c "/") eqn:E; [|done].
    by apply Ascii.eqb_eq in E as ->.
  - rewrite append_cons.
    assert (String.eqb (String a (t ++ String c "")) "/" = false) as ->.
    { cbn [String.eqb]. destruct (Ascii.eqb a "/"); [|done]. by destruct t. }
    done.
Qed.

Lemma normal_path_plain (p : string) :
  plain_path p = true → plain_path (normal_path p) = true.
Proof.
  intros Hp. destruct (str_snoc_cases p) as [->|(t & c & ->)]; [done|].
  rewrite normal_path_snoc. destruct (Ascii.eqb c "/") eqn:Hc; [|done].
  destruct (String.eqb t "") eqn:Ht; [done|].
  apply andb_true_iff in Hp as [Hpfx Hall].
  rewrite str_all_app in Hall. apply andb_true_iff in Hall as [Hall _].
  unfold plain_path. rewrite Hall, andb_true_r.
  destruct t as [|a t]; [done|].
  rewrite append_cons in Hpfx. cbn [String.eqb orb] in Hpfx.
  apply HasPrefix_byte in Hpfx as ->. cbn [String.eqb orb].
  unfold strings.HasPrefix.
  change (String.prefix "/" (String "/" t)) with (String.prefix "" t).
  by destruct t.
Qed.

Lemma HasSuffix_two (t : string) d c :
  strings.HasSuffix (t ++ String d (String c "")) "//"
  = Ascii.eqb d "/" && Ascii.eqb c "/".
Proof.
  unfold strings.HasSuffix. rewrite length_append. cbn [String.length].
  replace (String.length t + 2 - 2)%nat with (String.length t) by lia.
  rewrite str_drop_app.
  replace (2 <=? String.length t + 2)%nat with true
    by (symmetry; apply Nat.leb_le; lia).
  cbn [andb String.eqb].
  by destruct (Ascii.eqb d "/"), (Ascii.eqb c "/").
Qed.

(** Normalizing a path twice changes nothing more exactly when the path
    does not end in two slashes, or is the two slashes alone. *)
Lemma normal_path_twice (p : string) :
  normal_path (normal_path p) = normal_path p
  ↔ strings.HasSuffix p "//" = false ∨ p = "//".
Proof.
  destruct (str_snoc_cases p) as [->|(t & c & ->)]; [by split; [left|]|].
  destruct (Ascii.eqb c "/") eqn:Hc.
  2:{ rewrite normal_path_snoc, Hc, normal_path_snoc, Hc. split; [|done].
      intros _. left.
      destruct (str_snoc_cases t) as [->|(t' & d & ->)]; [done|].
      rewrite append_assoc, append_cons, append_nil_l, HasSuffix_two, Hc.
      apply andb_false_r. }
  apply Ascii.eqb_eq in Hc as ->.
  destruct (str_snoc_cases t) as [->|(t' & d & ->)]; [by split; [left|]|].
  assert ((t' ++ String d "") ++ "/" = t' ++ String d "/") as Hp2
    by (by rewrite append_assoc).
  assert (strings.HasSuffix ((t' ++ String d "") ++ "/") "//" = Ascii.eqb d "/")
    as -> by (by rewrite Hp2, HasSuffix_two, andb_true_r).
  rewrite (normal_path_snoc (t' ++ String d "")).
  change (Ascii.eqb "/" "/") with true. cbn match.
  assert (String.eqb (t' ++ String d "") "" = false) as ->
    by (by destruct t').
  rewrite normal_path_snoc.
  destruct (Ascii.eqb d "/") eqn:Hd.
  2:{ split; [by left|done]. }
  apply Ascii.eqb_eq in Hd as ->.
  destruct (String.eqb t' "") eqn:Ht.
  - apply String.eqb_eq in Ht as ->. split; [by right|done].
  - split.
    + intros Heq. apply (f_equal String.length) in Heq.
      rewrite length_append in Heq. cbn [String.length] in Heq. lia.
    + intros [?|Heq]; [done|]. exfalso. rewrite Hp2 in Heq.
      destruct t' as [|a t']; [done|].
      rewrite append_cons in Heq. injection Heq as _ Heq.
      apply (f_equal String.length) in Heq.
      rewrite length_append in Heq. cbn [String.length] in Heq. lia.
Qed.

Lemma NormalizeURL_plain_url (scheme host path : string) f :
  plain_scheme scheme = true → plain_host host = true →
  plain_path path = true → plain_fragment f = true →
  crawl.NormalizeURL (plain_url scheme host path f)
  = plain_url scheme host (normal_path path) None.
Proof.
  intros Hs Hh Hp Hf.
  destruct (Parse_plain scheme host path f Hs Hh Hp Hf) as (frag & rawfrag & HP).
  rewrite (NormalizeURL_parsed _ _ HP).
  unfold url.with_Path, url.with_Fragment.
  cbn [url.Scheme url.Opaque url.User url.Host
       url.Path url.RawPath url.OmitHost url.ForceQuery url.RawQuery
       url.Fragment url.RawFragment].
  rewrite String_plain by (done || by apply normal_path_plain).
  unfold plain_url. cbn [fragment_part]. by rewrite append_nil_r.
Qed.

End Normalize.

(** C4, as the code has it: [NormalizeURL] leaves an input that does not
    parse as it is, and otherwise prints the parsed URL without its
    fragment and with one trailing slash taken off any path but ["/"].
    On the plain URLs [scheme://host/path#fragment] it returns
    [scheme://host] followed by the path so shortened, and applying it
    again changes nothing exactly when the path does not end in two
    slashes (or is the two slashes alone). *)
Theorem NormalizeURL_idempotent_plain (scheme host path : string) f :
  plain_scheme scheme = true → plain_host host = true →
  plain_path path = true → plain_fragment f = true →
  crawl.NormalizeURL (plain_url scheme host path f)
  = plain_url scheme host (normal_path path) None
  ∧ (crawl.NormalizeURL (crawl.NormalizeURL (plain_url scheme host path f))
     = crawl.NormalizeURL (plain_url scheme host path f)
     ↔ strings.HasSuffix path "//" = false ∨ path = "//")
  ∧ (∀ raw e, url.Parse raw = Err e →
       crawl.NormalizeURL raw = raw
       ∧ crawl.NormalizeURL (crawl.NormalizeURL raw) = crawl.NormalizeURL raw)
  ∧ (∀ raw parsed, url.Parse raw = Ok parsed →
       crawl.NormalizeURL raw
       = url.String
           (url.with_Path
              (if String.eqb (url.Path parsed) "/" then url.Path parsed
               else strings.TrimSuffix (url.Path parsed) "/")
              (url.with_Fragment "" parsed))).
Proof.
  intros Hs Hh Hp Hf.
  pose proof (NormalizeURL_plain_url scheme host path f Hs Hh Hp Hf) as H1.
  pose proof (NormalizeURL_plain_url scheme host (normal_path path) None Hs Hh
                (normal_path_plain _ Hp) eq_refl) as H2.
  split; [done|]. split; [|split].
  - rewrite H1, H2, <- normal_path_twice. unfold plain_url. split.
    + intros Heq. do 2 apply append_inj_l in Heq.
      cbn [fragment_part] in Heq. rewrite !append_nil_r in Heq.
      change ("://" ++ host ++ normal_path (normal_path path))
        with (String ":" (String "/" (String "/"
                (host ++ normal_path (normal_path path))))) in Heq.
      by apply append_inj_l in Heq.
    + by intros ->.
  - intros raw e He. pose proof (NormalizeURL_unparsed raw e He) as Hraw.
    by rewrite !Hraw.
  - intros raw parsed HP. apply (NormalizeURL_parsed _ _ HP).
Qed.

Lemma NormalizeURL_idempotent_plain_witness :
  crawl.NormalizeURL "https://x.com/docs/#top" = "https://x.com/docs"
  ∧ crawl.NormalizeURL (crawl.NormalizeURL "https://x.com/docs/#top")
    = crawl.NormalizeURL "https://x.com/docs/#top".
Proof.
  destruct (NormalizeURL_idempotent_plain "https" "x.com" "/docs/" (Some "top")
              eq_refl eq_refl eq_refl eq_refl) as (H1 & H2 & _).
  split.
  - exact H1.
  - apply H2. left. reflexivity.
Defined.

(** C4 as stated fails: a path that ends in two slashes loses one of
    them at each application. *)
Lemma NormalizeURL_not_idempotent :
  crawl.NormalizeURL "http://x.com/a//" = "http://x.com/a/"
  ∧ crawl.NormalizeURL (crawl.NormalizeURL "http://x.com/a//") = "http://x.com/a"
  ∧ crawl.NormalizeURL (crawl.NormalizeURL "http://x.com/a//")
    ≠ crawl.NormalizeURL "http://x.com/a//".
Proof. split; [|split]; vm_compute; [reflexivity|reflexivity|discriminate]. Qed.

(** ** Link resolution *)

Section Links.
Context `{R : Runtime}.

Lemma ResolveReference_base (base ref : url.URL) :
  ∃ resolved, url.ResolveReference (Some base) ref = Some resolved.
Proof.
  unfold url.ResolveReference. cbn [mbind option_bind].
  destruct (String.eqb (url.Scheme ref) ""); cbn [mbind option_bind];
    repeat match goal with
           | |- context [if ?b then _ else _] => destruct b
           end; eauto.
Qed.

(** Printing a URL whose fragment was emptied leaves out the [#] part,
    and nothing else. *)
Lemma String_without_fragment (u : url.URL) :
  url.String u
  = url.String (url.with_Fragment "" u)
    ++ (if url.nonempty (url.Fragment u)
        then "#" ++ url.EscapedFragment u else "").
Proof.
  destruct u as [sch opq usr hst pth rpth omit force rq frag rfrag].
  unfold url.String, url.with_Fragment, url.EscapedPath.
  cbn [url.Scheme url.Opaque url.User url.Host url.Path url.RawPath url.OmitHost
       url.ForceQuery url.RawQuery url.Fragment url.RawFragment].
  change (url.nonempty "") with false. cbn match.
  destruct (url.nonempty frag); [done|]. by rewrite append_nil_r.
Qed.

Lemma resolveURL_base href (base : url.URL) :
  crawl.resolveURL href (Some base) = Returned (resolved_text base href).
Proof.
  unfold resolved_text, crawl.resolveURL.
  destruct (_ || _); [done|]. destruct (url.Parse href) as [parsed|]; [|done].
  by destruct (ResolveReference_base base parsed) as [resolved ->].
Qed.

Lemma each_href_base hrefs (base : url.URL) links :
  crawl.each_href hrefs (Some base) links
  = Returned (links ++ emitted_links base hrefs)%list.
Proof.
  revert links. induction hrefs as [|h hrefs IH]; intros links.
  - cbn. by rewrite app_nil_r.
  - cbn [crawl.each_href]. unfold emitted_links. cbn [List.filter].
    unfold url.nonempty at 2. destruct (String.eqb h ""); cbn [negb].
    + apply IH.
    + rewrite resolveURL_base, IH. cbn [fmap list_fmap List.filter].
      fold (url.nonempty (resolved_text base h)). fold (emitted_links base hrefs).
      destruct (url.nonempty (resolved_text base h)); [|done].
      by rewrite <- app_assoc.
Qed.

(** C8: [resolveURL] returns the empty text, so that nothing is emitted,
    for an [href] that begins with [mailto:], [javascript:], [tel:] or [#]
    and for one that does not parse; for any other it returns the
    reference resolved against the base, printed without its fragment.
    [extractLinks] emits, in document order, the non-empty texts so
    obtained from the non-empty [href] values.  Against
    [https://x.com/docs/], [../intro] gives [https://x.com/intro]. *)
Theorem resolveURL_emits href (base : url.URL) :
  (strings.HasPrefix href "mailto:" = true
   ∨ strings.HasPrefix href "javascript:" = true
   ∨ strings.HasPrefix href "tel:" = true
   ∨ strings.HasPrefix href "#" = true
   ∨ (∃ e, url.Parse href = Err e) →
   crawl.resolveURL href (Some base) = Returned "")
  ∧ (strings.HasPrefix href "mailto:" = false →
     strings.HasPrefix href "javascript:" = false →
     strings.HasPrefix href "tel:" = false →
     strings.HasPrefix href "#" = false →
     ∀ parsed, url.Parse href = Ok parsed →
     ∃ resolved,
       url.ResolveReference (Some base) parsed = Some resolved
       ∧ crawl.resolveURL href (Some base)
         = Returned (url.String (url.with_Fragment "" resolved))
       ∧ url.String resolved
         = url.String (url.with_Fragment "" resolved)
           ++ (if url.nonempty (url.Fragment resolved)
               then "#" ++ url.EscapedFragment resolved else ""))
  ∧ (∀ html hrefs baseURL,
       goquery_hrefs html = Ok hrefs → url.Parse baseURL = Ok base →
       crawl.extractLinks html baseURL
       = Returned (Ok (List.filter url.nonempty
                         (resolved_text base <$> List.filter url.nonempty hrefs))))
  ∧ (url.Parse "https://x.com/docs/" = Ok docs_base
     ∧ crawl.resolveURL "../intro" (Some docs_base)
       = Returned "https://x.com/intro"
     ∧ crawl.resolveURL "#section" (Some docs_base) = Returned ""
     ∧ crawl.resolveURL "mailto:a@b.com" (Some docs_base) = Returned "").
Proof.
  split; [|split; [|split]].
  - unfold crawl.resolveURL.
    intros [-> |[-> |[-> |[-> |[e He]]]]]; rewrite ?orb_true_r; try done.
    destruct (_ || _); [done|]. by rewrite He.
  - intros H1 H2 H3 H4 parsed HP. unfold crawl.resolveURL.
    rewrite H1, H2, H3, H4, HP. cbn [orb].
    destruct (ResolveReference_base base parsed) as [resolved Hres].
    exists resolved. rewrite Hres. split; [done|]. split; [done|].
    apply String_without_fragment.
  - intros html hrefs baseURL Hq HP. unfold crawl.extractLinks.
    rewrite Hq, HP, each_href_base. done.
  - split; [|split; [|split]]; vm_compute; reflexivity.
Qed.

End Links.

Lemma resolveURL_emits_witness :
  crawl.resolveURL "javascript:void(0)" (Some docs_base) = Returned ""
  ∧ crawl.resolveURL "/a/b?x=1#frag" (Some docs_base)
    = Returned "https://x.com/a/b?x=1"
  ∧ @crawl.extractLinks stub.offline "../intro" "https://x.com/docs/"
    = Returned (Ok ["https://x.com/intro"]).
Proof.
  destruct (@resolveURL_emits stub.offline "javascript:void(0)" docs_base)
    as (Hnone & _).
  destruct (@resolveURL_emits stub.offline "/a/b?x=1#frag" docs_base)
    as (_ & Hsome & Hextract & _).
  split; [|split].
  - apply Hnone. right. left. reflexivity.
  - destruct (Hsome eq_refl eq_refl eq_refl eq_refl
                (url.mkURL "" "" None "" "/a/b" "" false false "x=1" "frag" "")
                eq_refl) as (resolved & Hres & -> & _).
    vm_compute in Hres. injection Hres as <-. reflexivity.
  - rewrite (Hextract "../intro" ["../intro"] "https://x.com/docs/"
               eq_refl eq_refl).
    reflexivity.
Defined.

(** ** The properties on the stub collaborators *)

Lemma Next_under_HasNext_witness :
  ∃ u, crawl.items (crawl.mkQueue ["a"; "b"] ∅ 1)
         !! crawl.idx (crawl.mkQueue ["a"; "b"] ∅ 1) = Some u
       ∧ (crawl.idx (crawl.mkQueue ["a"; "b"] ∅ 1)
          < length (crawl.items (crawl.mkQueue ["a"; "b"] ∅ 1)))%nat
       ∧ crawl.Next (crawl.mkQueue ["a"; "b"] ∅ 1)
         = Returned (u, crawl.mkQueue ["a"; "b"] ∅ (1 + 1)).
Proof.
  exact (proj1 (@Next_under_HasNext stub.offline (stub.down _)
                  (crawl.mkQueue ["a"; "b"] ∅ 1)) eq_refl).
Defined.

Lemma discoverFromSitemap_output_witness :
  (@crawl.discoverFromSitemap stub.with_sitemap "https://x.com/sitemap.xml"
     "x.com" (stub.start stub.with_sitemap tt)).1
  = Ok ["https://x.com/a"; "https://x.com/c"; "https://x.com/d"].
Proof.
  rewrite (@discoverFromSitemap_output stub.with_sitemap
             "https://x.com/sitemap.xml" "x.com" (stub.start stub.with_sitemap tt)
             (mkResponse 200 (Ok "<urlset/>")) tt "<urlset/>"
             (mkSitemapIndex [mkSitemapURL "https://x.com/a/";
                              mkSitemapURL "https://y.com/b";
                              mkSitemapURL "https://x.com/c#top";
                              mkSitemapURL "https://x.com/d"])
             eq_refl eq_refl eq_refl eq_refl eq_refl).
  vm_compute. reflexivity.
Defined.

Lemma DiscoverAll_sitemap_first_witness :
  @crawl.DiscoverAll stub.with_sitemap (stub.down _) "https://x.com/"
    (stub.start stub.with_sitemap tt)
  = Returned (Ok ["https://x.com/a"; "https://x.com/c"; "https://x.com/d"],
              @mkState stub.with_sitemap tt [EvGet "https://x.com/sitemap.xml"]).
Proof.
  destruct (@DiscoverAll_sitemap_first stub.with_sitemap (stub.down _)
              "https://x.com/"
              (url.mkURL "https" "" None "x.com" "/" "" false false "" "" "")
              (stub.start stub.with_sitemap tt) eq_refl) as (Hyes & _).
  destruct Hyes as [Hrun _].
  - exists ["https://x.com/a"; "https://x.com/c"; "https://x.com/d"].
    split; [vm_compute; reflexivity|discriminate].
  - rewrite Hrun. vm_compute. reflexivity.
Defined.

Lemma DiscoverAll_error_iff_witness :
  (∃ e st', @crawl.DiscoverAll stub.offline (stub.down _) "http://x.com/%zz"
              (stub.start stub.offline tt) = Returned (Err e, st'))
  ∧ ((∃ urls st', @crawl.DiscoverAll stub.offline (stub.down _)
                    "https://x.com/" (stub.start stub.offline tt) = Returned (Ok urls, st'))
     ∨ @crawl.DiscoverAll stub.offline (stub.down _) "https://x.com/"
         (stub.start stub.offline tt) = Panicked NilDereference).
Proof.
  split.
  - apply (proj1 (@DiscoverAll_error_iff stub.offline (stub.down _)
                    "http://x.com/%zz" (stub.start stub.offline tt))).
    exists (url.EscapeError "%zz"). vm_compute. reflexivity.
  - apply (proj1 (proj2 (@DiscoverAll_error_iff stub.offline (stub.down _)
                           "https://x.com/" (stub.start stub.offline tt)))
             (url.mkURL "https" "" None "x.com" "/" "" false false "" "" "")).
    vm_compute. reflexivity.
Defined.

Lemma fallback_seed_first_witness :
  (∃ rest st',
      @crawl.DiscoverAll stub.offline (stub.down _) "https://x.com/a.png/"
        (stub.start stub.offline tt)
      = Returned (Ok ("https://x.com/a.png" :: rest), st'))
  ∨ @crawl.DiscoverAll stub.offline (stub.down _) "https://x.com/a.png/"
      (stub.start stub.offline tt) = Panicked NilDereference.
Proof.
  apply (@fallback_seed_first stub.offline (stub.down _) "https://x.com/a.png/"
           (url.mkURL "https" "" None "x.com" "/a.png/" "" false false "" "" "")
           (stub.start stub.offline tt)).
  - vm_compute. reflexivity.
  - intros (urls & Hrun & _). vm_compute in Hrun. discriminate Hrun.
Defined.

Lemma DiscoverAll_provenance_witness :
  "https://x.com/a.png" = crawl.NormalizeURL "https://x.com/a.png"
  ∨ ∃ c, crawl.IsSameDomain c "x.com" = true
         ∧ @crawl.IsStaticAsset stub.offline c = false
         ∧ "https://x.com/a.png" = crawl.NormalizeURL c.
Proof.
  apply (@DiscoverAll_provenance stub.offline (stub.down _) "https://x.com/a.png"
           (url.mkURL "https" "" None "x.com" "/a.png" "" false false "" "" "")
           (stub.start stub.offline tt) ["https://x.com/a.png"]
           (@mkState stub.offline tt [EvGet "https://x.com/sitemap.xml";
                        EvFetch "https://x.com/a.png"])).
  - vm_compute. reflexivity.
  - vm_compute. reflexivity.
  - apply list_elem_of_here.
Defined.

(** C6 as stated fails: the starting URL is queued without being
    filtered, so a starting URL that names a static asset is returned. *)
Lemma discovered_urls_not_all_in_scope : ¬ discovered_urls_in_scope.
Proof.
  intros Hclaim.
  assert (@crawl.DiscoverAll stub.offline (stub.down _) "https://x.com/a.png"
            (stub.start stub.offline tt)
          = Returned (Ok ["https://x.com/a.png"],
                      @mkState stub.offline tt [EvGet "https://x.com/sitemap.xml";
                                  EvFetch "https://x.com/a.png"])) as Hrun
    by (vm_compute; reflexivity).
  assert (url.Parse "https://x.com/a.png"
          = Ok (url.mkURL "https" "" None "x.com" "/a.png" "" false false "" "" ""))
    as Hparse by (vm_compute; reflexivity).
  destruct (Hclaim stub.offline (stub.down _) _ _ _ _ _ Hparse Hrun
              "https://x.com/a.png" (list_elem_of_here _ _)) as (_ & _ & Hasset).
  vm_compute in Hasset. discriminate Hasset.
Qed.

Lemma cycle_pages_lookup i :
  (i < 300)%nat → stub.cycle_pages !! i = Some (stub.cycle_page i).
Proof.
  intros Hi. unfold stub.cycle_pages.
  rewrite list_lookup_fmap, lookup_seq_lt by done. done.
Qed.

Lemma cycle_presents :
  @presents_cycle stub.offline stub.cycle "x.com" stub.cycle_pages.
Proof.
  assert (length stub.cycle_pages = 300%nat) as Hlen by (vm_compute; reflexivity).
  split.
  - apply (@bool_decide_unpack _ (NoDup_dec stub.cycle_pages)).
    vm_compute. reflexivity.
  - intros i p [] Hi. rewrite Hlen.
    assert (i < 300)%nat as Hlt by (apply lookup_lt_Some in Hi; lia).
    rewrite cycle_pages_lookup in Hi by done. injection Hi as <-.
    assert (forallb stub.cycle_page_ok (seq 0 300) = true) as Hall
      by (vm_compute; reflexivity).
    rewrite forallb_forall in Hall.
    assert (In i (seq 0 300)) as Hin by (apply in_seq; lia).
    apply Hall in Hin. clear Hall. unfold stub.cycle_page_ok in Hin.
    destruct (@Fetch stub.offline stub.cycle (stub.cycle_page i) ())
      as [[result|e] w'] eqn:Hf; [|discriminate Hin].
    destruct (@crawl.extractLinks stub.offline (HTML result) (stub.cycle_page i))
      as [[links|e]| |] eqn:Hx; try discriminate Hin.
    exists result, w', links. split; [reflexivity|]. split; [exact Hx|].
    rewrite cycle_pages_lookup by (apply Nat.mod_upper_bound; lia).
    destruct (@page_targets stub.offline "x.com" links) as [|t ts];
      [discriminate Hin|].
    rewrite forallb_forall in Hin. intros x. split.
    + intros Hx'%list_elem_of_In. apply Hin, String.eqb_eq in Hx'.
      by rewrite Hx'.
    + intros Heq. pose proof (Hin t (or_introl eq_refl)) as Ht.
      apply String.eqb_eq in Ht. assert (x = t) as -> by congruence.
      apply list_elem_of_here.
Qed.

Lemma bfs_cycle_stops_at_cap_witness :
  ∃ q st',
    @crawl.bfs_loop stub.offline stub.cycle crawl.maxPages "x.com"
      (crawl.Add (crawl.NormalizeURL "https://x.com/") crawl.NewQueue)
      (stub.start stub.offline tt) = Returned (q, st')
    ∧ crawl.Visited q = 100%nat
    ∧ crawl.All q = take 100 stub.cycle_pages.
Proof.
  destruct (@bfs_cycle_stops_at_cap stub.offline stub.cycle stub.cycle_pages
              (stub.start stub.offline tt)) as (q & st' & Hrun & _ & Hv & Hall & _).
  - vm_compute. reflexivity.
  - vm_compute. reflexivity.
  - exact cycle_presents.
  - exists q, st'. split; [|split; [exact Hv|exact Hall]].
    rewrite <- (Hrun 0%nat). rewrite Nat.add_0_r. reflexivity.
Defined.

(** * Further properties *)

(** ** The queue as its clients see it *)

Section QueueClients.

Lemma reachable_wf (q : crawl.Queue) :
  reachable q → queue_wf q ∧ (crawl.idx q ≤ length (crawl.items q))%nat.
Proof.
  induction 1 as [|u q Hr [Hwf Hle]|q u q' Hr [Hwf Hle] HN].
  - split; [apply queue_wf_new|done].
  - split; [by apply Add_wf|]. rewrite Add_idx, Add_items by done.
    rewrite length_app. lia.
  - unfold crawl.Next in HN.
    destruct (crawl.items q !! crawl.idx q) as [x|] eqn:Hx; [|done].
    injection HN as <- <-. split; [exact Hwf|]. cbn.
    by apply lookup_lt_Some in Hx.
Qed.

(** X1: a URL added while the queue is being read does not disturb the
    reading: [Next] gives the same URL before and after the [Add], and the
    two calls can be made in either order. *)
Theorem Next_Add_commute (q : crawl.Queue) u :
  crawl.HasNext q = true →
  ∃ x q1, crawl.Next q = Returned (x, q1)
          ∧ crawl.Next (crawl.Add u q) = Returned (x, crawl.Add u q1).
Proof.
  intros Hn. destruct (HasNext_Next q Hn) as (x & Hx & HN).
  exists x, (crawl.mkQueue (crawl.items q) (crawl.visited q) (S (crawl.idx q))).
  split; [done|]. unfold crawl.Add, crawl.Next.
  cbn [crawl.items crawl.visited crawl.idx].
  destruct (crawl.map_get (crawl.visited q) u).
  - by rewrite Hx.
  - cbn [crawl.items crawl.visited crawl.idx].
    by rewrite (lookup_app_l_Some _ _ _ _ Hx).
Qed.

(** X2: whatever sequence of [NewQueue], [Add] and [Next] calls built the
    queue, [All] holds no URL twice, [Visited] is its length, a URL is in
    [All] exactly when a further [Add] of it changes nothing, and the
    cursor has not passed the end, where [HasNext] is false. *)
Theorem reachable_invariant (q : crawl.Queue) :
  reachable q →
  NoDup (crawl.All q)
  ∧ crawl.Visited q = length (crawl.All q)
  ∧ (∀ u, u ∈ crawl.All q ↔ crawl.Add u q = q)
  ∧ (crawl.idx q ≤ length (crawl.All q))%nat
  ∧ (crawl.HasNext q = false ↔ crawl.idx q = length (crawl.All q)).
Proof.
  intros [Hwf Hle]%reachable_wf. unfold crawl.All.
  split; [apply Hwf|]. split; [by apply Visited_length|]. split; [|split].
  - intros u. split; [by apply Add_seen|].
    intros Heq. destruct (decide (u ∈ crawl.items q)) as [|Hn]; [done|].
    rewrite Add_fresh in Heq by done.
    apply (f_equal (fun q => length (crawl.items q))) in Heq. cbn in Heq.
    rewrite length_app in Heq. cbn in Heq. lia.
  - done.
  - unfold crawl.HasNext. rewrite Nat.ltb_ge. lia.
Qed.

End QueueClients.

(** ** The requests of a discovery run *)

Section Requests.
Context `{F : Fetcher}.

(** The pages the loop fetches are the queued URLs between the cursor at
    its start and the cursor at its end, in queue order. *)
Lemma bfs_loop_fetches fuel domain (q q' : crawl.Queue) st st' :
  queue_wf q → (crawl.idx q ≤ length (crawl.items q))%nat →
  crawl.bfs_loop fuel domain q st = Returned (q', st') →
  (crawl.idx q ≤ crawl.idx q')%nat
  ∧ (crawl.idx q' ≤ length (crawl.items q'))%nat
  ∧ (crawl.idx q' ≤ crawl.idx q `max` (crawl.maxPages - 1))%nat
  ∧ trace st'
    = (trace st
       ++ (EvFetch <$> take (crawl.idx q' - crawl.idx q)
                         (drop (crawl.idx q) (crawl.items q'))))%list.
Proof.
  revert q st. induction fuel as [|fuel IH]; intros q st Hwf Hle Hrun.
  - destruct (crawl.HasNext q && (crawl.Visited q <? crawl.maxPages)%nat) eqn:Hc;
      cbn [crawl.bfs_loop] in Hrun; rewrite Hc in Hrun; [done|].
    injection Hrun as <- <-. rewrite Nat.sub_diag. cbn. rewrite app_nil_r.
    repeat split; [done|done|lia].
  - destruct (crawl.HasNext q && (crawl.Visited q <? crawl.maxPages)%nat) eqn:Hc.
    2:{ rewrite bfs_loop_done in Hrun by done. injection Hrun as <- <-.
        rewrite Nat.sub_diag. cbn. rewrite app_nil_r.
        repeat split; [done|done|lia]. }
    apply andb_true_iff in Hc as [Hn Hv%Nat.ltb_lt].
    destruct (bfs_loop_round fuel domain q st Hn Hv) as (u & Hu & Heq).
    cbn zeta in Heq. rewrite Heq in Hrun. clear Heq.
    pose proof (do_fetch_trace u st) as Htr.
    set (q1 := crawl.mkQueue (crawl.items q) (crawl.visited q) (S (crawl.idx q)))
      in *.
    assert (queue_wf q1) as Hwf1 by exact Hwf.
    pose proof (lookup_lt_Some _ _ _ Hu) as Hlt.
    rewrite Visited_length in Hv by done. unfold crawl.maxPages in *.
    assert (∀ q2 st1,
      trace st1 = (trace st ++ [EvFetch u])%list →
      queue_wf q2 → crawl.idx q2 = S (crawl.idx q) →
      (∃ added, crawl.items q2 = (crawl.items q ++ added)%list) →
      crawl.bfs_loop fuel domain q2 st1 = Returned (q', st') →
      (crawl.idx q ≤ crawl.idx q')%nat
      ∧ (crawl.idx q' ≤ length (crawl.items q'))%nat
      ∧ (crawl.idx q' ≤ crawl.idx q `max` (100 - 1))%nat
      ∧ trace st'
        = (trace st
           ++ (EvFetch <$> take (crawl.idx q' - crawl.idx q)
                             (drop (crawl.idx q) (crawl.items q'))))%list)
      as Hstep.
    { intros q2 st1 Ht1 Hwf2 Hidx (added & Hadd) Hrun2.
      assert (crawl.idx q2 ≤ length (crawl.items q2))%nat as Hle2.
      { rewrite Hidx, Hadd, length_app. lia. }
      destruct (IH q2 st1 Hwf2 Hle2 Hrun2) as (Hi & Hl & Hb & Ht).
      destruct (bfs_loop_returned _ _ _ _ _ _ Hwf2 Hrun2)
        as (_ & (added' & Hadd' & _) & _).
      rewrite Hidx in *.
      split; [lia|]. split; [done|]. split; [lia|].
      rewrite Ht, Ht1, <- app_assoc. f_equal.
      assert (crawl.items q' !! crawl.idx q = Some u) as Hu'.
      { rewrite Hadd', Hadd.
        apply lookup_app_l_Some. by apply lookup_app_l_Some. }
      rewrite (drop_S _ _ _ Hu').
      replace (crawl.idx q' - crawl.idx q)%nat
        with (S (crawl.idx q' - S (crawl.idx q))) by lia.
      done. }
    destruct (crawl.do_fetch u st) as [[result|e] st1]; cbn in Htr.
    + destruct (crawl.extractLinks (HTML result) u) as [[links|e]| |];
        try done.
      * refine (Hstep _ _ Htr _ _ _ Hrun).
        -- by apply add_all_wf.
        -- by rewrite add_all_idx.
        -- rewrite add_all_items by done. eauto.
      * refine (Hstep _ _ Htr Hwf1 eq_refl _ Hrun). exists []. cbn.
        by rewrite app_nil_r.
    + refine (Hstep _ _ Htr Hwf1 eq_refl _ Hrun). exists []. cbn.
      by rewrite app_nil_r.
Qed.

Lemma discoverFromLinks_trace startURL domain st urls st' :
  crawl.discoverFromLinks startURL domain st = Returned (Ok urls, st') →
  NoDup urls
  ∧ ∃ n, (1 ≤ n ≤ 99)%nat ∧ (n ≤ length urls)%nat
         ∧ trace st' = (trace st ++ (EvFetch <$> take n urls))%list.
Proof.
  unfold crawl.discoverFromLinks, crawl.discoverFromLinks_fuel.
  destruct (seed_queue startURL) as (Hwf & Hit & Hidx & Hn & Hv). cbn zeta in *.
  set (q0 := crawl.Add (crawl.NormalizeURL startURL) crawl.NewQueue) in *.
  destruct (crawl.bfs_loop crawl.maxPages domain q0 st) as [[q' st1]| |] eqn:Hrun;
    [|done|done].
  intros [= <- <-].
  destruct (bfs_loop_returned _ _ _ _ _ _ Hwf Hrun)
    as (Hwf' & _ & (fetched & Htr & Hfirst) & _).
  destruct (bfs_loop_fetches _ _ _ _ _ _ Hwf ltac:(rewrite Hidx; lia) Hrun)
    as (_ & Hle & Hb & Ht).
  rewrite Hidx in *. rewrite Nat.sub_0_r in Ht. cbn [drop] in Ht.
  split; [apply Hwf'|]. exists (crawl.idx q'). unfold crawl.All.
  split; [|done]. split; [|unfold crawl.maxPages in Hb; lia].
  destruct Hfirst as [rest ->]; [done|rewrite Hv; unfold crawl.maxPages; lia|].
  rewrite Htr in Ht. apply app_inv_head in Ht.
  destruct (crawl.idx q'); [|lia]. by rewrite take_0 in Ht.
Qed.

(** X3: the crawl fetches pages in the order of the list it returns, each
    at most once, and stops fetching after 99 pages: the fetches it makes
    are those of the first [n] URLs of its result, for some [n] between 1
    and 99, and the result holds no URL twice. *)
Theorem discoverFromLinks_fetches startURL domain st urls st' :
  crawl.discoverFromLinks startURL domain st = Returned (Ok urls, st') →
  NoDup urls
  ∧ ∃ n, (1 ≤ n ≤ 99)%nat ∧ (n ≤ length urls)%nat
         ∧ trace st' = (trace st ++ (EvFetch <$> take n urls))%list.
Proof. apply discoverFromLinks_trace. Qed.

(** The sitemap reader makes at most one request, and it is a GET. *)
Lemma discoverFromSitemap_requests sitemapURL domain st :
  ∃ gets, (length gets ≤ 1)%nat
          ∧ trace (crawl.discoverFromSitemap sitemapURL domain st).2
            = (trace st ++ (EvGet <$> gets))%list
          ∧ ∀ g, g ∈ gets → g = sitemapURL.
Proof.
  unfold crawl.discoverFromSitemap, crawl.do_get.
  destruct (url.Parse sitemapURL).
  2:{ exists []. cbn. rewrite app_nil_r. split; [lia|]. split; [done|].
      by intros g ?%elem_of_nil. }
  exists [sitemapURL]. split; [done|]. split.
  - destruct (client_Do sitemapURL (world st)) as [[resp|e] w]; [|done].
    destruct (negb (RespStatusCode resp =? 200)%Z); [done|].
    destruct (RespBody resp); [|done].
    by destruct (xml_Unmarshal a0).
  - by intros g ->%list_elem_of_singleton.
Qed.

(** X4: a discovery run that returns has made at most 100 requests: at
    most one GET, for the sitemap of the starting URL's host, and after
    it at most 99 page fetches. *)
Theorem DiscoverAll_requests baseURL st r st' :
  crawl.DiscoverAll baseURL st = Returned (r, st') →
  ∃ gets fetched,
    trace st' = (trace st ++ (EvGet <$> gets) ++ (EvFetch <$> fetched))%list
    ∧ (length gets ≤ 1)%nat ∧ (length fetched ≤ 99)%nat
    ∧ (∀ g, g ∈ gets →
        ∃ parsed, url.Parse baseURL = Ok parsed ∧ g = sitemap_location parsed).
Proof.
  intros Hrun.
  destruct (url.Parse baseURL) as [parsed|e] eqn:Hp.
  2:{ unfold crawl.DiscoverAll in Hrun. rewrite Hp in Hrun.
      injection Hrun as <- <-. exists [], []. cbn. rewrite app_nil_r.
      split; [done|]. split; [lia|]. split; [lia|]. by intros g ?%elem_of_nil. }
  rewrite (DiscoverAll_parsed _ _ _ Hp) in Hrun.
  destruct (discoverFromSitemap_requests (sitemap_location parsed)
              (url.Host parsed) st) as (gets & Hlen & Htr & Hgets).
  assert (∀ st1 r0, trace st1 = (trace st ++ (EvGet <$> gets))%list →
     crawl.discoverFromLinks baseURL (url.Host parsed) st1 = Returned (r0, st') →
     ∃ fetched,
       trace st' = (trace st ++ (EvGet <$> gets) ++ (EvFetch <$> fetched))%list
       ∧ (length fetched ≤ 99)%nat) as Hbfs.
  { intros st1 r0 Ht1 Hrun1.
    destruct (discoverFromLinks_outcome baseURL (url.Host parsed) st1)
      as [(rest & fetched0 & st2 & Hrun2 & _)|Hpanic]; [|congruence].
    rewrite Hrun2 in Hrun1. injection Hrun1 as <- ->.
    destruct (discoverFromLinks_trace _ _ _ _ _ Hrun2)
      as (_ & n & Hn & _ & Ht).
    exists (take n (crawl.NormalizeURL baseURL :: rest)).
    split; [by rewrite Ht, Ht1, <- app_assoc|].
    rewrite length_take. lia. }
  exists gets.
  assert (∀ fetched, 
    trace st' = (trace st ++ (EvGet <$> gets) ++ (EvFetch <$> fetched))%list
    ∧ (length fetched ≤ 99)%nat →
    trace st' = (trace st ++ (EvGet <$> gets) ++ (EvFetch <$> fetched))%list
    ∧ (length gets ≤ 1)%nat ∧ (length fetched ≤ 99)%nat
    ∧ (∀ g, g ∈ gets →
        ∃ parsed0, Ok parsed = Ok (E:=url.error) parsed0
                   ∧ g = sitemap_location parsed0)) as Hfin.
  { intros fetched [Ht Hl]. split; [done|]. split; [done|]. split; [done|].
    intros g Hin. exists parsed. split; [done|]. by apply Hgets. }
  destruct (crawl.discoverFromSitemap (sitemap_location parsed)
              (url.Host parsed) st) as [[[|u us]|e] st1].
  - destruct (Hbfs st1 r Htr Hrun) as [fetched Hf]. exists fetched. by apply Hfin.
  - injection Hrun as <- <-. exists []. apply Hfin.
    split; [|cbn; lia]. cbn [snd] in Htr. rewrite Htr.
    cbn [fmap list_fmap]. by rewrite app_nil_r.
  - destruct (Hbfs st1 r Htr Hrun) as [fetched Hf]. exists fetched. by apply Hfin.
Qed.

End Requests.

(** ** Link extraction without a base *)

Section NilBase.
Context `{F : Fetcher}.

Lemma resolveURL_nil_base href :
  String.eqb href "" = false →
  (relative_href href = true →
   crawl.resolveURL href None = Panicked NilDereference)
  ∧ (relative_href href = false → ∃ s, crawl.resolveURL href None = Returned s).
Proof.
  intros Hne. unfold relative_href, crawl.resolveURL. rewrite Hne. cbn [negb andb].
  destruct (_ || _); cbn [negb andb]; [split; [done|eauto]|].
  destruct (url.Parse href) as [ref|]; [|split; [done|eauto]].
  unfold url.ResolveReference, url.nonempty. cbn [mbind option_bind].
  destruct (String.eqb (url.Scheme ref) ""); cbn [mbind option_bind negb orb];
    [split; [done|discriminate]|split; [done|eauto]].
Qed.

Lemma each_href_nil_base hrefs links :
  if existsb relative_href hrefs
  then crawl.each_href hrefs None links = Panicked NilDereference
  else ∃ ls, crawl.each_href hrefs None links = Returned ls.
Proof.
  revert links. induction hrefs as [|h hrefs IH]; intros links;
    cbn [existsb crawl.each_href]; [eauto|].
  destruct (String.eqb h "") eqn:Hh.
  - unfold relative_href at 1. rewrite Hh. cbn [negb andb orb]. apply IH.
  - destruct (resolveURL_nil_base h Hh) as [Hrel Hret].
    destruct (relative_href h); cbn [orb].
    + by rewrite Hrel.
    + destruct (Hret eq_refl) as [s ->]. apply IH.
Qed.

Lemma extractLinks_panics html baseURL :
  crawl.extractLinks html baseURL = Panicked NilDereference
  ↔ is_ok (url.Parse baseURL) = false
    ∧ ∃ hrefs, goquery_hrefs html = Ok hrefs
               ∧ existsb relative_href hrefs = true.
Proof.
  unfold crawl.extractLinks.
  destruct (goquery_hrefs html) as [hrefs|e].
  2:{ split; [done|]. by intros (_ & hrefs & Hh & _). }
  destruct (url.Parse baseURL) as [base|e]; cbn [is_ok].
  - rewrite each_href_base. split; [done|]. by intros [? _].
  - pose proof (each_href_nil_base hrefs []) as Hnil.
    destruct (existsb relative_href hrefs) eqn:Hex.
    + rewrite Hnil. split; [|done]. intros _. split; [done|]. by exists hrefs.
    + destruct Hnil as [ls ->]. split; [done|].
      intros (_ & hrefs' & [= <-] & ?). congruence.
Qed.

(** X5: [extractLinks] ends in a nil dereference exactly when the URL of
    the page does not parse and the page holds a link that has to be
    resolved against it (a non-empty [href] without a skipped prefix that
    parses and has no scheme); in every other case it returns. *)
Theorem extractLinks_panics_iff html baseURL :
  (crawl.extractLinks html baseURL = Panicked NilDereference
   ↔ is_ok (url.Parse baseURL) = false
     ∧ ∃ hrefs, goquery_hrefs html = Ok hrefs
                ∧ existsb relative_href hrefs = true)
  ∧ (crawl.extractLinks html baseURL ≠ Panicked NilDereference →
     ∃ r, crawl.extractLinks html baseURL = Returned r).
Proof.
  split; [apply extractLinks_panics|].
  intros Hne. by destruct (extractLinks_outcome html baseURL) as [?|?].
Qed.

(** X6: a fetcher that returns a page for a starting URL whose normal
    form does not parse brings [DiscoverAll] down: when the sitemap gave
    nothing and the page holds a link to resolve, the call ends in a nil
    dereference instead of returning. *)
Theorem DiscoverAll_nil_base_panics baseURL parsed st result w' hrefs :
  url.Parse baseURL = Ok parsed →
  ¬ sitemap_yields
      (crawl.discoverFromSitemap (sitemap_location parsed) (url.Host parsed) st).1 →
  is_ok (url.Parse (crawl.NormalizeURL baseURL)) = false →
  Fetch (crawl.NormalizeURL baseURL)
    (world (crawl.discoverFromSitemap (sitemap_location parsed)
              (url.Host parsed) st).2)
  = (Ok result, w') →
  goquery_hrefs (HTML result) = Ok hrefs →
  existsb relative_href hrefs = true →
  crawl.DiscoverAll baseURL st = Panicked NilDereference.
Proof.
  intros Hp Hny Hbad Hfetch Hhrefs Hrel.
  rewrite (DiscoverAll_fallback _ _ _ Hp Hny).
  generalize dependent (crawl.discoverFromSitemap (sitemap_location parsed)
                          (url.Host parsed) st).
  intros [r st1] _ Hfetch. cbn [snd] in *.
  unfold crawl.discoverFromLinks, crawl.discoverFromLinks_fuel.
  destruct (seed_queue baseURL) as (Hwf & Hit & Hidx & Hn & Hv). cbn zeta in *.
  generalize dependent (crawl.Add (crawl.NormalizeURL baseURL) crawl.NewQueue).
  intros q0 Hwf Hit Hidx Hn Hv.
  assert (crawl.Visited q0 < crawl.maxPages)%nat as Hlt
    by (rewrite Hv; unfold crawl.maxPages; lia).
  change crawl.maxPages with (S 99) at 1.
  destruct (bfs_loop_round 99 (url.Host parsed) q0 st1 Hn Hlt) as (u & Hu & Heq).
  cbn zeta in Heq. rewrite Heq. clear Heq.
  rewrite Hit, Hidx in Hu. injection Hu as <-.
  unfold crawl.do_fetch. rewrite Hfetch.
  assert (crawl.extractLinks (HTML result) (crawl.NormalizeURL baseURL)
          = Panicked NilDereference) as ->; [|done].
  apply extractLinks_panics. eauto.
Qed.

Lemma extractLinks_parsed_base html baseURL :
  is_ok (url.Parse baseURL) = true →
  ∃ r, crawl.extractLinks html baseURL = Returned r.
Proof.
  intros Hp. destruct (extractLinks_outcome html baseURL) as [?|Hpanic]; [done|].
  apply extractLinks_panics in Hpanic as [Hbad _]. congruence.
Qed.

(** With a fetcher that succeeds only on URLs that parse, link extraction
    always has a base, and the loop returns. *)
Lemma bfs_loop_returns fuel domain (q : crawl.Queue) st :
  fetcher_parses →
  queue_wf q → (crawl.maxPages ≤ fuel + crawl.idx q + 1)%nat →
  ∃ r, crawl.bfs_loop fuel domain q st = Returned r.
Proof.
  intros Hfp. revert q st. induction fuel as [|fuel IH]; intros q st Hwf Hfuel.
  - destruct (bfs_loop_total 0 domain q st Hwf Hfuel) as [?|Hp]; [done|].
    destruct (crawl.HasNext q && (crawl.Visited q <? crawl.maxPages)%nat) eqn:Hc.
    + cbn [crawl.bfs_loop] in Hp. by rewrite Hc in Hp.
    + rewrite bfs_loop_done by done. eauto.
  - destruct (crawl.HasNext q && (crawl.Visited q <? crawl.maxPages)%nat) eqn:Hc.
    2:{ rewrite bfs_loop_done by done. eauto. }
    apply andb_true_iff in Hc as [Hn Hv%Nat.ltb_lt].
    destruct (bfs_loop_round fuel domain q st Hn Hv) as (u & Hu & Heq).
    cbn zeta in Heq. rewrite Heq. clear Heq.
    set (q1 := crawl.mkQueue (crawl.items q) (crawl.visited q) (S (crawl.idx q))).
    assert (queue_wf q1) as Hwf1 by exact Hwf.
    unfold crawl.do_fetch.
    destruct (Fetch u (world st)) as [[result|e] w'] eqn:Hf.
    + destruct (Hfp _ _ _ _ Hf) as [parsed Hparsed].
      destruct (extractLinks_parsed_base (HTML result) u) as [[links|e] ->].
      * by rewrite Hparsed.
      * apply IH; [by apply add_all_wf|]. rewrite add_all_idx. cbn. lia.
      * apply IH; [done|]. cbn. lia.
    + apply IH; [done|]. cbn. lia.
Qed.

Lemma discoverFromLinks_returns start domain st :
  fetcher_parses →
  ∃ rest st',
    crawl.discoverFromLinks start domain st
    = Returned (Ok (crawl.NormalizeURL start :: rest), st').
Proof.
  intros Hfp. unfold crawl.discoverFromLinks, crawl.discoverFromLinks_fuel.
  destruct (seed_queue start) as (Hwf & Hit & Hidx & _). cbn zeta in *.
  generalize dependent (crawl.Add (crawl.NormalizeURL start) crawl.NewQueue).
  intros q0 Hwf Hit Hidx.
  destruct (bfs_loop_returns crawl.maxPages domain q0 st Hfp Hwf)
    as [[q' st'] Hrun]; [rewrite Hidx; lia|].
  rewrite Hrun.
  destruct (bfs_loop_returned _ _ _ _ _ _ Hwf Hrun)
    as (_ & (added & Hadd & _) & _).
  exists added, st'. unfold crawl.All. by rewrite Hadd, Hit.
Qed.

Lemma DiscoverAll_returns baseURL st :
  fetcher_parses → ∃ r st', crawl.DiscoverAll baseURL st = Returned (r, st').
Proof.
  intros Hfp. destruct (url.Parse baseURL) as [parsed|e] eqn:Hp.
  2:{ unfold crawl.DiscoverAll. rewrite Hp. eauto. }
  rewrite (DiscoverAll_parsed _ _ _ Hp).
  destruct (crawl.discoverFromSitemap _ _ st) as [[[|u urls]|e] st1]; eauto;
    destruct (discoverFromLinks_returns baseURL (url.Host parsed) st1 Hfp)
      as (rest & st' & ->); eauto.
Qed.

Lemma DiscoverAll_returns_list baseURL st :
  fetcher_parses → is_ok (url.Parse baseURL) = true →
  ∃ urls st', crawl.DiscoverAll baseURL st = Returned (Ok urls, st').
Proof.
  intros Hfp Hok. destruct (url.Parse baseURL) as [parsed|e] eqn:Hp; [|done].
  rewrite (DiscoverAll_parsed _ _ _ Hp).
  destruct (crawl.discoverFromSitemap _ _ st) as [[[|u urls]|e] st1]; eauto;
    destruct (discoverFromLinks_returns baseURL (url.Host parsed) st1 Hfp)
      as (rest & st' & ->); eauto.
Qed.

End NilBase.

(** ** The HTTP fetcher *)

Section HTTPFetcher.
Context `{R : Runtime}.
Variable Do : string → World → result string Response * World.
Variable Error : fetch.error → string.

(** X7: [HTTPFetcher.Fetch] returns a page exactly when the URL parses,
    the request is answered with a status from 200 to 299 and the body
    can be read; the page then carries the URL as it was asked for, the
    status and the body.  For a URL that does not parse, no request is
    made. *)
Theorem HTTPFetcher_Fetch_ok u w r w' :
  (@Fetch R (fetch.HTTPFetcher Do Error) u w = (Ok r, w')
   ↔ is_ok (url.Parse u) = true
     ∧ ∃ resp body,
         Do u w = (Ok resp, w')
         ∧ (200 ≤ RespStatusCode resp < 300)%Z
         ∧ RespBody resp = Ok body
         ∧ r = mkFetchResult u (RespStatusCode resp) body)
  ∧ (is_ok (url.Parse u) = false →
     ∃ e, @Fetch R (fetch.HTTPFetcher Do Error) u w = (Err e, w)).
Proof.
  cbn [Fetch fetch.HTTPFetcher]. unfold fetch.HTTPFetcher_Fetch.
  destruct (url.Parse u) as [parsed|e]; cbn [is_ok].
  2:{ split; [|eauto]. split; [done|]. by intros [? _]. }
  split; [|done].
  destruct (Do u w) as [[resp|e] w1].
  2:{ split; [done|]. by intros (_ & resp & body & [=] & _). }
  destruct (RespStatusCode resp <? 200)%Z eqn:Hlo; cbn [orb].
  { apply Z.ltb_lt in Hlo. split; [done|].
    intros (_ & resp' & body & [= <- <-] & Hst & _). lia. }
  destruct (RespStatusCode resp >=? 300)%Z eqn:Hhi.
  { apply Z.geb_le in Hhi. split; [done|].
    intros (_ & resp' & body & [= <- <-] & Hst & _). lia. }
  apply Z.ltb_ge in Hlo. rewrite Z.geb_leb in Hhi. apply Z.leb_gt in Hhi.
  destruct (RespBody resp) as [body|e] eqn:Hbody.
  - split.
    + intros [= <- <-]. split; [done|]. exists resp, body. repeat split; done || lia.
    + intros (_ & resp' & body' & [= <- <-] & _ & Hb & ->).
      rewrite Hbody in Hb. by injection Hb as <-.
  - split; [done|]. intros (_ & resp' & body' & [= <- <-] & _ & Hb & _).
    congruence.
Qed.

Lemma HTTPFetcher_parses : @fetcher_parses R (fetch.HTTPFetcher Do Error).
Proof.
  intros u w r w'. cbn [Fetch fetch.HTTPFetcher]. unfold fetch.HTTPFetcher_Fetch.
  destruct (url.Parse u) as [parsed|e]; [eauto|done].
Qed.

(** X8: with the HTTP fetcher, [DiscoverAll] returns for every starting
    URL and whatever the servers answer: the nil dereference of link
    extraction cannot happen, since a page is only ever extracted under a
    URL that parsed. *)
Theorem DiscoverAll_HTTPFetcher_returns baseURL st :
  ∃ r st',
    @crawl.DiscoverAll R (fetch.HTTPFetcher Do Error) baseURL st
    = Returned (r, st').
Proof. apply DiscoverAll_returns, HTTPFetcher_parses. Qed.

End HTTPFetcher.

(** ** The filters on plain URLs *)

Section PlainRules.
Context `{R : Runtime}.

Lemma path_byte_ascii c : path_byte c = true → is_non_ascii c = false.
Proof.
  destruct c as [[] [] [] [] [] [] [] []]; intros H;
    first [discriminate H | reflexivity].
Qed.

Lemma Ext_scan_any (q : ascii → bool) (p : string) i :
  str_any q (path.Ext_scan p i) = true → str_any q p = true.
Proof.
  induction i as [|j IH]; cbn [path.Ext_scan]; [done|].
  destruct (String.get j p) as [c|]; [|done].
  destruct (Ascii.eqb c "/"); [done|].
  destruct (Ascii.eqb c "."); [apply str_any_drop|apply IH].
Qed.

(** X9: for a plain URL, [IsSameDomain] compares the host with the domain
    byte by byte (no sub-domain matches, no case folding), and
    [NormalizeURL] does not change the verdict. *)
Theorem IsSameDomain_plain (scheme host path : string) f domain :
  plain_scheme scheme = true → plain_host host = true →
  plain_path path = true → plain_fragment f = true →
  crawl.IsSameDomain (plain_url scheme host path f) domain
  = String.eqb host domain
  ∧ crawl.IsSameDomain (crawl.NormalizeURL (plain_url scheme host path f)) domain
    = String.eqb host domain.
Proof.
  intros Hs Hh Hp Hf.
  assert (∀ p g, plain_path p = true → plain_fragment g = true →
            crawl.IsSameDomain (plain_url scheme host p g) domain
            = String.eqb host domain) as Hsame.
  { intros p g Hp' Hg.
    destruct (Parse_plain scheme host p g Hs Hh Hp' Hg) as (frag & rawfrag & HP).
    unfold crawl.IsSameDomain. by rewrite HP. }
  split; [by apply Hsame|].
  rewrite NormalizeURL_plain_url by done.
  apply Hsame; [by apply normal_path_plain|done].
Qed.

(** X10: for a plain URL, [IsStaticAsset] looks at nothing but the
    extension of the path, in lower case: the scheme, the host and the
    fragment play no part, and [.PNG] is treated as [.png]. *)
Theorem IsStaticAsset_plain (scheme host path : string) f :
  plain_scheme scheme = true → plain_host host = true →
  plain_path path = true → plain_fragment f = true →
  crawl.IsStaticAsset (plain_url scheme host path f)
  = crawl.map_get crawl.staticExtensions
      (strings.ToLowerASCII (path.Ext path)).
Proof.
  intros Hs Hh Hp Hf.
  destruct (Parse_plain scheme host path f Hs Hh Hp Hf) as (frag & rawfrag & HP).
  unfold crawl.IsStaticAsset. rewrite HP. cbn [url.Path].
  unfold strings.ToLower.
  destruct (str_any is_non_ascii (path.Ext path)) eqn:Hany; [|done].
  apply Ext_scan_any in Hany.
  apply andb_true_iff in Hp as [_ Hp].
  by rewrite (str_all_not_any path_byte is_non_ascii path path_byte_ascii Hp)
    in Hany.
Qed.

End PlainRules.

(** ** Titles and languages *)

Section Tags.

Lemma str_take_drop n (s : string) : str_take n s ++ str_drop n s = s.
Proof.
  revert s. induction n as [|n IH]; intros s; [by destruct s|].
  destruct s as [|c s]; [done|]. cbn [str_take str_drop].
  by rewrite append_cons, IH.
Qed.

Lemma length_str_drop n (s : string) :
  String.length (str_drop n s) = (String.length s - n)%nat.
Proof.
  revert s. induction n as [|n IH]; intros s; [by destruct s|].
  destruct s as [|c s]; [done|]. cbn [str_drop String.length]. by rewrite IH.
Qed.

Lemma length_str_take n (s : string) :
  String.length (str_take n s) = (n `min` String.length s)%nat.
Proof.
  revert s. induction n as [|n IH]; intros s; [by destruct s|].
  destruct s as [|c s]; [done|]. cbn [str_take String.length]. by rewrite IH.
Qed.

Lemma str_drop_drop n m (s : string) :
  str_drop n (str_drop m s) = str_drop (m + n) s.
Proof.
  revert s. induction m as [|m IH]; intros s; [done|].
  destruct s as [|c s]; [by destruct n|]. cbn [str_drop Nat.add]. apply IH.
Qed.

Lemma prefix_app (tag s : string) :
  String.prefix tag s = true ↔ ∃ rest, s = tag ++ rest.
Proof.
  revert s. induction tag as [|a tag IH]; intros s.
  - split; [intros _; by exists s|]. intros _. by destruct s.
  - destruct s as [|b s].
    + split; [done|]. by intros [rest [=]].
    + change (String.prefix (String a tag) (String b s))
        with (if Ascii.ascii_dec a b then String.prefix tag s else false).
      destruct (Ascii.ascii_dec a b) as [->|Hne].
      * rewrite IH. split; intros [rest Hr]; exists rest.
        -- by rewrite append_cons, Hr.
        -- rewrite append_cons in Hr. by injection Hr.
      * split; [done|]. intros [rest Hr]. rewrite append_cons in Hr.
        injection Hr as ? _. congruence.
Qed.

Lemma take_eqb_prefix (tag s : string) :
  String.eqb (str_take (String.length tag) s) tag = String.prefix tag s.
Proof.
  apply eq_true_iff_eq. rewrite String.eqb_eq, prefix_app. split.
  - intros Ht. exists (str_drop (String.length tag) s).
    by rewrite <- Ht at 1; rewrite str_take_drop.
  - intros [rest ->]. apply str_take_app.
Qed.

Lemma prefix_length (tag s : string) :
  String.prefix tag s = true → (String.length tag ≤ String.length s)%nat.
Proof. intros [rest ->]%prefix_app. rewrite length_append. lia. Qed.

Lemma Index_bound (s tag : string) i :
  strings.Index s tag = Some i → (i + String.length tag ≤ String.length s)%nat.
Proof.
  revert i. induction s as [|c s IH]; intros i; cbn [strings.Index].
  - destruct (String.prefix tag "") eqn:Hp; [|done].
    intros [= <-]. by apply prefix_length in Hp.
  - destruct (String.prefix tag (String c s)) eqn:Hp.
    + intros [= <-]. by apply prefix_length in Hp.
    + destruct (strings.Index s tag) as [j|]; [|done].
      intros [= <-]. specialize (IH j eq_refl). cbn. lia.
Qed.

Lemma Index_short (s tag : string) :
  (String.length s < String.length tag)%nat → strings.Index s tag = None.
Proof.
  intros Hlt. destruct (strings.Index s tag) as [i|] eqn:Hi; [|done].
  apply Index_bound in Hi. lia.
Qed.

Lemma str_take_app_le n (s t : string) :
  (n ≤ String.length s)%nat → str_take n (s ++ t) = str_take n s.
Proof.
  revert s. induction n as [|n IH]; intros s Hle.
  - destruct s; [by destruct t|done].
  - destruct s as [|c s]; [cbn in Hle; lia|]. rewrite append_cons.
    cbn [str_take]. rewrite IH; [done|]. cbn in Hle. lia.
Qed.

Lemma prefix_app_long (tag s t : string) :
  (String.length tag ≤ String.length s)%nat →
  String.prefix tag (s ++ t) = String.prefix tag s.
Proof.
  intros Hle. by rewrite <- !take_eqb_prefix, str_take_app_le.
Qed.

(** The first occurrence in [s] is the first occurrence in [s ++ t]. *)
Lemma Index_extend (s t tag : string) i :
  strings.Index s tag = Some i → strings.Index (s ++ t) tag = Some i.
Proof.
  revert i. induction s as [|c s IH]; intros i Hi.
  - pose proof (Index_bound _ _ _ Hi) as Hb. cbn in Hb.
    destruct tag; [|cbn in Hb; lia]. destruct i; [|lia].
    rewrite append_nil_l. by destruct t.
  - pose proof (Index_bound _ _ _ Hi) as Hb.
    rewrite append_cons. cbn [strings.Index] in *.
    rewrite <- append_cons, prefix_app_long by lia.
    destruct (String.prefix tag (String c s)); [done|].
    destruct (strings.Index s tag) as [j|]; [|done].
    by rewrite (IH j eq_refl).
Qed.

Lemma str_drop_cons n (s : string) c r :
  str_drop n s = String c r → str_drop (S n) s = r.
Proof.
  revert s. induction n as [|n IH]; intros s.
  - destruct s; cbn; congruence.
  - destruct s as [|a s]; [done|]. cbn [str_drop]. apply IH.
Qed.

Lemma findTag_loop_Index n i (html tag : string) :
  (0 < String.length tag)%nat →
  (i + String.length tag + n = S (String.length html))%nat →
  cmd.findTag_loop n i html tag
  = (fun k => i + k + String.length tag)%nat
    <$> strings.Index (str_drop i html) tag.
Proof.
  intros Htag. revert i. induction n as [|n IH]; intros i Hn.
  - cbn [cmd.findTag_loop]. rewrite Index_short; [done|].
    rewrite length_str_drop. lia.
  - cbn [cmd.findTag_loop]. unfold str_slice.
    replace (i + String.length tag - i)%nat with (String.length tag) by lia.
    rewrite take_eqb_prefix.
    destruct (str_drop i html) as [|c r] eqn:Hd.
    { apply (f_equal String.length) in Hd. rewrite length_str_drop in Hd.
      cbn in Hd. lia. }
    cbn [strings.Index].
    destruct (String.prefix tag (String c r)) eqn:Hp;
      cbn [fmap option_fmap option_map]; [f_equal; lia|].
    rewrite IH by lia. rewrite (str_drop_cons _ _ _ _ Hd).
    destruct (strings.Index r tag); cbn [fmap option_fmap option_map];
      [f_equal; lia|done].
Qed.

(** [findTag] gives the end of the first occurrence of the tag. *)
Lemma findTag_Index (html tag : string) :
  cmd.findTag html tag
  = (fun i => i + String.length tag)%nat <$> strings.Index html tag.
Proof.
  unfold cmd.findTag. destruct tag as [|a tag].
  { cbn [String.length Nat.leb cmd.findTag_loop]. unfold str_slice.
    cbn [Nat.add Nat.sub str_take str_drop]. by destruct html. }
  destruct (String.length (String a tag) <=? String.length html)%nat eqn:Hle.
  - apply Nat.leb_le in Hle. rewrite findTag_loop_Index by (cbn in *; lia).
    change (str_drop 0 html) with html. by destruct html.
  - apply Nat.leb_gt in Hle. by rewrite Index_short.
Qed.

Lemma extractTitle_Index (html : string) :
  cmd.extractTitle html
  = match strings.Index html "<title>", strings.Index html "</title>" with
    | Some i, Some j =>
        if (i + 7 <? j)%nat then str_slice (i + 7) j html else ""
    | _, _ => ""
    end.
Proof.
  unfold cmd.extractTitle. rewrite !findTag_Index.
  destruct (strings.Index html "<title>") as [i|]; [|done].
  destruct (strings.Index html "</title>") as [j|]; [|done].
  cbn [fmap option_fmap option_map String.length].
  replace (j + 8 - 8)%nat with j by lia.
  destruct (i + 7 <? j)%nat eqn:Hlt.
  - apply Nat.ltb_lt in Hlt.
    destruct (j + 8 <=? i + 7)%nat eqn:H1; [apply Nat.leb_le in H1; lia|].
    destruct (j <=? i + 7)%nat eqn:H2; [apply Nat.leb_le in H2; lia|done].
  - apply Nat.ltb_ge in Hlt.
    destruct (j + 8 <=? i + 7)%nat eqn:H1; [done|].
    destruct (j <=? i + 7)%nat eqn:H2; [done|apply Nat.leb_gt in H2; lia].
Qed.

(** X11: [extractTitle] returns the text between the first [<title>] and
    the first [</title>] of the document when the first comes before the
    second, and the empty text when a tag is missing or the closing tag
    comes first.  In particular a title is read back from a document
    whose head holds no other such tag. *)
Theorem extractTitle_spec :
  (∀ html,
     cmd.extractTitle html
     = match strings.Index html "<title>", strings.Index html "</title>" with
       | Some i, Some j =>
           if (i + 7 <? j)%nat then str_slice (i + 7) j html else ""
       | _, _ => ""
       end)
  ∧ (∀ pre t post,
       first_at "<title>" pre → first_at "</title>" (pre ++ "<title>" ++ t) →
       cmd.extractTitle (pre ++ "<title>" ++ t ++ "</title>" ++ post) = t).
Proof.
  split; [apply extractTitle_Index|].
  intros pre t post Hopen Hclose. rewrite extractTitle_Index.
  unfold first_at in *.
  assert (strings.Index (pre ++ "<title>" ++ t ++ "</title>" ++ post) "<title>"
          = Some (String.length pre)) as ->.
  { rewrite <- append_assoc. by apply Index_extend. }
  assert (strings.Index (pre ++ "<title>" ++ t ++ "</title>" ++ post) "</title>"
          = Some (String.length pre + 7 + String.length t)%nat) as ->.
  { replace (pre ++ "<title>" ++ t ++ "</title>" ++ post)
      with (((pre ++ "<title>" ++ t) ++ "</title>") ++ post)
      by (by rewrite !append_assoc).
    rewrite (Index_extend _ _ _ _ Hclose). f_equal.
    rewrite !length_append. cbn [String.length]. lia. }
  destruct (String.length pre + 7 <? String.length pre + 7 + String.length t)%nat
    eqn:Hlt.
  - unfold str_slice.
    replace (String.length pre + 7 + String.length t - (String.length pre + 7))%nat
      with (String.length t) by lia.
    replace (String.length pre + 7)%nat with (String.length (pre ++ "<title>"))
      by (rewrite length_append; cbn [String.length]; lia).
    rewrite <- (append_assoc pre "<title>"), str_drop_app. apply str_take_app.
  - apply Nat.ltb_ge in Hlt. destruct t; [done|cbn in Hlt; lia].
Qed.

Lemma str_drop_all n (s : string) :
  (String.length s ≤ n)%nat → str_drop n s = "".
Proof.
  intros Hle. pose proof (length_str_drop n s) as Hl.
  destruct (str_drop n s); [done|cbn in Hl; lia].
Qed.

Lemma get_drop n (s : string) :
  String.get n s
  = match str_drop n s with String c _ => Some c | "" => None end.
Proof.
  revert s. induction n as [|n IH]; intros s; [by destruct s|].
  destruct s as [|c s]; [done|]. cbn [String.get str_drop]. apply IH.
Qed.

(** The text of [s] before its first [c], or all of [s]. *)
Lemma before_cons (a c : ascii) (s : string) :
  (strings.CutByte (String a s) c).1.1
  = if Ascii.eqb a c then "" else String a (strings.CutByte s c).1.1.
Proof.
  unfold strings.CutByte. cbn [strings.IndexByte].
  destruct (Ascii.eqb a c); [done|].
  by destruct (strings.IndexByte s c).
Qed.

Lemma scan_quote_before n (html : string) e :
  (String.length html ≤ e + n)%nat →
  cmd.scan_quote n html e
  = (e + String.length (strings.CutByte (str_drop e html) url.dquote).1.1)%nat.
Proof.
  revert e. induction n as [|n IH]; intros e Hle; cbn [cmd.scan_quote].
  - rewrite str_drop_all by lia. cbn. lia.
  - rewrite get_drop. destruct (str_drop e html) as [|c r] eqn:Hd; [cbn; lia|].
    rewrite before_cons. destruct (Ascii.eqb c url.dquote); [cbn; lia|].
    rewrite IH by lia. rewrite (str_drop_cons _ _ _ _ Hd). cbn [String.length].
    lia.
Qed.

Lemma take_length_take k (s : string) :
  str_take (String.length (str_take k s)) s = str_take k s.
Proof.
  revert s. induction k as [|k IH]; intros s; [by destruct s|].
  destruct s as [|c s]; [done|]. cbn [str_take String.length]. by rewrite IH.
Qed.

Lemma take_before (s : string) c :
  str_take (String.length (strings.CutByte s c).1.1) s
  = (strings.CutByte s c).1.1.
Proof.
  unfold strings.CutByte. destruct (strings.IndexByte s c); cbn [fst].
  - apply take_length_take.
  - apply str_take_all.
Qed.

Lemma extractLang_Index (html : string) :
  cmd.extractLang html
  = match strings.Index html cmd.lang_attr with
    | None => "en"
    | Some i => (strings.CutByte (str_drop (i + 6) html) url.dquote).1.1
    end.
Proof.
  unfold cmd.extractLang. rewrite findTag_Index.
  destruct (strings.Index html cmd.lang_attr) as [i|]; [|done].
  cbn [fmap option_fmap option_map].
  change (String.length cmd.lang_attr) with 6.
  rewrite scan_quote_before by lia. unfold str_slice.
  replace (i + 6 + _ - (i + 6))%nat
    with (String.length
            (strings.CutByte (str_drop (i + 6) html) url.dquote).1.1) by lia.
  apply take_before.
Qed.

(** X12: [extractLang] returns [en] for a document without the text
    [lang=] followed by a double quote; otherwise it returns what follows
    the first such text, up to the next double quote or, when there is
    none, up to the end of the document.  In particular the value of the
    first such attribute is read back. *)
Theorem extractLang_spec :
  (∀ html,
     cmd.extractLang html
     = match strings.Index html cmd.lang_attr with
       | None => "en"
       | Some i => (strings.CutByte (str_drop (i + 6) html) url.dquote).1.1
       end)
  ∧ (∀ pre v post,
       first_at cmd.lang_attr pre →
       strings.ContainsByte v url.dquote = false →
       cmd.extractLang (pre ++ cmd.lang_attr ++ v ++ String url.dquote post) = v
       ∧ cmd.extractLang (pre ++ cmd.lang_attr ++ v) = v).
Proof.
  split; [apply extractLang_Index|].
  intros pre v post Hfirst Hv. unfold first_at in Hfirst.
  assert (∀ rest, str_drop (String.length pre + 6) (pre ++ cmd.lang_attr ++ rest)
                  = rest) as Hdrop.
  { intros rest.
    replace (String.length pre + 6)%nat
      with (String.length (pre ++ cmd.lang_attr))
      by (rewrite length_append; reflexivity).
    by rewrite <- append_assoc, str_drop_app. }
  split; rewrite extractLang_Index, <- append_assoc,
           (Index_extend _ _ _ _ Hfirst), append_assoc, Hdrop.
  - by rewrite CutByte_first.
  - by rewrite CutByte_absent.
Qed.

End Tags.

(** ** The [convert] command *)

Section Flags.
Context `{RS : Renderers}.

(** X13: the flags pass [validateFlags] exactly when [--only] and [--all]
    are not both set, one and only one of the four formats is set, and a
    model is named with [--embeddings]; [selectRenderer] then returns the
    renderer of that format, and never its own error. *)
Theorem validateFlags_selectRenderer (f : cmd.Flags) :
  cmd.validateFlags f = None
  ↔ cmd.flagOnly f && cmd.flagAll f = false
    ∧ ((cmd.flagMarkdown f = true ∧ cmd.flagJSON f = false
        ∧ cmd.flagPDF f = false ∧ cmd.flagEmbeddings f = false
        ∧ cmd.selectRenderer f = Ok render.NewMarkdownRenderer)
       ∨ (cmd.flagMarkdown f = false ∧ cmd.flagJSON f = true
          ∧ cmd.flagPDF f = false ∧ cmd.flagEmbeddings f = false
          ∧ cmd.selectRenderer f = Ok render.NewJSONRenderer)
       ∨ (cmd.flagMarkdown f = false ∧ cmd.flagJSON f = false
          ∧ cmd.flagPDF f = true ∧ cmd.flagEmbeddings f = false
          ∧ cmd.selectRenderer f = Ok render.NewPDFRenderer)
       ∨ (cmd.flagMarkdown f = false ∧ cmd.flagJSON f = false
          ∧ cmd.flagPDF f = false ∧ cmd.flagEmbeddings f = true
          ∧ cmd.flagModel f ≠ ""
          ∧ cmd.selectRenderer f
            = Ok (render.NewEmbeddingsRenderer (cmd.flagModel f)
                    (cmd.flagChunkSize f)))).
Proof.
  destruct f as [only all pdf md json emb model size dir].
  unfold cmd.validateFlags, cmd.selectRenderer.
  cbn [cmd.flagOnly cmd.flagAll cmd.flagPDF cmd.flagMarkdown cmd.flagJSON
       cmd.flagEmbeddings cmd.flagModel cmd.flagChunkSize].
  destruct (String.eqb model "") eqn:Hm;
    [apply String.eqb_eq in Hm|apply String.eqb_neq in Hm];
    destruct only, all, pdf, md, json, emb; cbn;
    (split;
     [intros Hv;
      first [discriminate Hv | split; [reflexivity|intuition congruence]]
     |intros [H1 H2]; first [discriminate H1 | intuition congruence]]).
Qed.

End Flags.

(** ** The pipeline and its two modes *)

Section Pipeline.
Context `{RS : Renderers} `{O : !OS} `{F : !Fetcher} `{E : !Extractor}
  `{N : !Normalizer}.

Lemma on_world_trace {A} (f : World → A * World) st :
  trace (cmd.on_world f st).2 = trace st.
Proof. unfold cmd.on_world. by destruct (f (world st)). Qed.

(** A page is processed with one fetch; the call returns unless the
    fetcher gave a page for a URL that does not parse. *)
Lemma processURL_outcome rawURL renderer st :
  (∃ r st', cmd.processURL rawURL renderer st = Returned (r, st')
            ∧ trace st' = (trace st ++ [EvFetch rawURL])%list)
  ∨ (cmd.processURL rawURL renderer st = Panicked NilDereference
     ∧ is_ok (url.Parse rawURL) = false
     ∧ ∃ result w', Fetch rawURL (world st) = (Ok result, w')).
Proof.
  unfold cmd.processURL. pose proof (do_fetch_trace rawURL st) as Htr.
  unfold crawl.do_fetch in *.
  destruct (Fetch rawURL (world st)) as [[result|e] w1] eqn:Hf; cbn [snd] in Htr.
  2:{ left. eauto. }
  set (st1 := mkState w1 (trace st ++ [EvFetch rawURL])) in *.
  pose proof (on_world_trace (Extract (HTML result)) st1) as Ht2.
  destruct (cmd.on_world (Extract (HTML result)) st1) as [[content|e] st2];
    cbn [snd] in Ht2.
  2:{ left. eexists _, _. split; [done|]. by rewrite Ht2. }
  pose proof (on_world_trace (Normalize content) st2) as Ht3.
  destruct (cmd.on_world (Normalize content) st2) as [[markdown|e] st3];
    cbn [snd] in Ht3.
  2:{ left. eexists _, _. split; [done|]. by rewrite Ht3, Ht2. }
  unfold cmd.buildMetadata.
  destruct (url.Parse rawURL) as [parsed|e] eqn:Hp.
  2:{ right. split; [done|]. split; [done|]. eauto. }
  match goal with
  | |- context [cmd.on_world ?f st3] =>
      pose proof (on_world_trace f st3) as Ht4;
      destruct (cmd.on_world f st3) as [[data|e] st4]
  end; cbn [snd] in Ht4;
    left; eexists _, _; (split; [done|]); by rewrite Ht4, Ht3, Ht2.
Qed.

Lemma processURL_error rawURL renderer st e st' :
  cmd.processURL rawURL renderer st = Returned (Err e, st') →
  ∃ m, e = cmd.ErrFetch m ∨ e = cmd.ErrExtract m ∨ e = cmd.ErrNormalize m
       ∨ e = cmd.ErrRender m.
Proof.
  unfold cmd.processURL.
  destruct (crawl.do_fetch rawURL st) as [[result|e0] st1]; [|intros [= <- _]; eauto].
  destruct (cmd.on_world (Extract (HTML result)) st1) as [[content|e0] st2];
    [|intros [= <- _]; eauto].
  destruct (cmd.on_world (Normalize content) st2) as [[markdown|e0] st3];
    [|intros [= <- _]; eauto].
  destruct (cmd.buildMetadata rawURL (HTML result) (world st3)) as [meta| |];
    [|done|done].
  destruct (cmd.on_world _ st3) as [[data|e0] st4]; [done|].
  intros [= <- _]. eauto 6.
Qed.

Lemma processURL_returns rawURL renderer st :
  fetcher_parses →
  ∃ r st', cmd.processURL rawURL renderer st = Returned (r, st')
           ∧ trace st' = (trace st ++ [EvFetch rawURL])%list.
Proof.
  intros Hfp.
  destruct (processURL_outcome rawURL renderer st)
    as [?|(_ & Hbad & result & w' & Hf)]; [done|].
  destruct (Hfp _ _ _ _ Hf) as [parsed Hp]. by rewrite Hp in Hbad.
Qed.

Lemma on_files_net {A} (f : World → A * World * list fs_call) s :
  trace (cmd.net (cmd.on_files f s).2) = trace (cmd.net s)
  ∧ cmd.printed (cmd.on_files f s).2 = cmd.printed s
  ∧ ∃ calls, cmd.files (cmd.on_files f s).2 = (cmd.files s ++ calls)%list
             ∧ calls = (f (world (cmd.net s))).2.
Proof.
  unfold cmd.on_files. destruct (f (world (cmd.net s))) as [[a w] calls].
  cbn. eauto.
Qed.

(** What the loop of [runAll] has done when it returns. *)
Lemma runAll_loop_returned urls : ∀ i n errCount renderer writer s errCount' s',
  cmd.runAll_loop urls i n errCount renderer writer s = Returned (errCount', s') →
  trace (cmd.net s') = (trace (cmd.net s) ++ (EvFetch <$> urls))%list
  ∧ ∃ new,
      cmd.printed s' = (cmd.printed s ++ new)%list
      ∧ (length (List.filter is_written new) + (errCount' - errCount)
         = length urls)%nat
      ∧ (errCount' - errCount = length (List.filter is_page_error new))%nat
      ∧ (errCount ≤ errCount')%nat.
Proof.
  induction urls as [|u urls IH]; intros i n ec renderer writer s ec' s' Hrun.
  - cbn in Hrun. injection Hrun as <- <-. cbn. rewrite app_nil_r.
    split; [done|]. exists []. rewrite app_nil_r. cbn. repeat split; lia.
  - cbn [cmd.runAll_loop] in Hrun.
    set (s0 := cmd.print (cmd.MsgProcessing (i + 1) n u) s) in *.
    destruct (processURL_outcome u renderer (cmd.net s0))
      as [(r & st1 & Hp & Htr)|(Hp & _)]; rewrite Hp in Hrun; [|done].
    assert (∀ s1 m ec1,
      trace (cmd.net s1) = (trace (cmd.net s) ++ [EvFetch u])%list →
      cmd.printed s1
      = (cmd.printed s ++ [cmd.MsgProcessing (i + 1) n u; m])%list →
      (is_written m = true ∧ ec1 = ec
       ∨ is_written m = false ∧ is_page_error m = true ∧ ec1 = ec + 1)%nat →
      cmd.runAll_loop urls (S i) n ec1 renderer writer s1 = Returned (ec', s') →
      trace (cmd.net s') = (trace (cmd.net s) ++ (EvFetch <$> u :: urls))%list
      ∧ ∃ new,
          cmd.printed s' = (cmd.printed s ++ new)%list
          ∧ (length (List.filter is_written new) + (ec' - ec)
             = length (u :: urls))%nat
          ∧ (ec' - ec = length (List.filter is_page_error new))%nat
          ∧ (ec ≤ ec')%nat) as Hstep.
    { intros s1 m ec1 Ht1 Hp1 Hm Hrun1.
      destruct (IH _ _ _ _ _ _ _ _ Hrun1) as (Ht & new & Hnew & Hcount & Herr & Hle).
      split.
      - rewrite Ht, Ht1, <- app_assoc. done.
      - exists (cmd.MsgProcessing (i + 1) n u :: m :: new).
        split; [rewrite Hnew, Hp1, <- app_assoc; done|].
        cbn [List.filter is_written is_page_error length].
        destruct Hm as [[Hw ->]|(-> & -> & ->)]; cbn [length].
        + rewrite Hw. destruct (is_page_error m) eqn:Hpe; [by destruct m|].
          cbn [length]. lia.
        + lia. }
    destruct r as [[data meta]|e].
    + destruct (on_files_net
                  (output.WriteAll writer u data (@Extension _ renderer))
                  (cmd.set_net st1 s0)) as (Htn & Hpr & _).
      destruct (cmd.on_files _ (cmd.set_net st1 s0)) as [[path|e] s1];
        cbn [snd] in Htn, Hpr.
      * refine (Hstep _ (cmd.MsgWritten path) _ _ _ _ Hrun).
        -- cbn. by rewrite Htn.
        -- cbn. rewrite Hpr. cbn. by rewrite <- app_assoc.
        -- by left.
      * refine (Hstep _ (cmd.MsgWriteError e) _ _ _ _ Hrun).
        -- cbn. by rewrite Htn.
        -- cbn. rewrite Hpr. cbn. by rewrite <- app_assoc.
        -- by right.
    + refine (Hstep _ (cmd.MsgError e) _ _ _ _ Hrun).
      * done.
      * cbn. by rewrite <- app_assoc.
      * by right.
Qed.

Lemma runAll_loop_returns urls : ∀ i n errCount renderer writer s,
  fetcher_parses →
  ∃ r, cmd.runAll_loop urls i n errCount renderer writer s = Returned r.
Proof.
  induction urls as [|u urls IH]; intros i n ec renderer writer s Hfp;
    cbn [cmd.runAll_loop]; [eauto|].
  destruct (processURL_returns u renderer
              (cmd.net (cmd.print (cmd.MsgProcessing (i + 1) n u) s)) Hfp)
    as ([[data meta]|e] & st1 & -> & _); [|by apply IH].
  destruct (cmd.on_files _ _) as [[path|e] s1]; by apply IH.
Qed.

(** X14: in [--all] mode the run fails exactly when discovery returns an
    error; when discovery returns a list, each of its URLs is fetched
    once more, in the order of the list, each page is reported either as
    written or as failed, and the failures do not fail the run. *)
Theorem runAll_processes_every_page rawURL renderer writer s r s' :
  cmd.runAll rawURL renderer writer s = Returned (r, s') →
  match crawl.DiscoverAll rawURL (cmd.net s) with
  | Returned (Ok urls, st1) =>
      r = None
      ∧ trace (cmd.net s') = (trace st1 ++ (EvFetch <$> urls))%list
      ∧ ∃ new,
          cmd.printed s'
          = (cmd.printed s
             ++ cmd.MsgDiscovering rawURL :: cmd.MsgFound (length urls) :: new)%list
          ∧ (length (List.filter is_written new)
             + length (List.filter is_page_error new) = length urls)%nat
  | Returned (Err e, st1) =>
      r = Some (cmd.ErrDiscovering e) ∧ cmd.net s' = st1
      ∧ cmd.files s' = cmd.files s
  | _ => False
  end.
Proof.
  unfold cmd.runAll. cbn [cmd.print cmd.net].
  destruct (crawl.DiscoverAll rawURL (cmd.net s)) as [[[urls|e] st1]| |];
    [| |done|done].
  2:{ intros [= <- <-]. done. }
  match goal with
  | |- context [cmd.runAll_loop urls 0 ?n 0 renderer writer ?s0] =>
      destruct (cmd.runAll_loop urls 0 n 0 renderer writer s0)
        as [[ec s1]| |] eqn:Hloop; [|done|done]
  end.
  intros [= <- <-].
  destruct (runAll_loop_returned _ _ _ _ _ _ _ _ _ Hloop)
    as (Ht & new & Hnew & Hcount & Herr & _).
  cbn [cmd.net cmd.set_net cmd.print cmd.printed] in Ht, Hnew.
  split; [done|].
  destruct (0 <? ec)%nat; cbn [cmd.print cmd.net cmd.printed].
  - split; [done|].
    exists (new ++ [cmd.MsgFailed ec (length urls)])%list. split.
    + rewrite Hnew, <- !app_assoc. done.
    + rewrite !List.filter_app. cbn. rewrite !app_nil_r. lia.
  - split; [done|]. exists new. split.
    + rewrite Hnew, <- !app_assoc. done.
    + lia.
Qed.

(** X15: in [--only] mode the page is fetched once and at most one file
    is written, at the path made of the output directory and the flat
    name of the URL; when a stage of the pipeline fails, nothing is
    written and nothing is printed. *)
Theorem runOnly_writes_one_file rawURL renderer writer s r s' :
  cmd.runOnly rawURL renderer writer s = Returned (r, s') →
  let path :=
    filepath_Join (output.OutputDir writer)
      (output.filenameFromURL rawURL ++ @Extension _ renderer) in
  trace (cmd.net s') = (trace (cmd.net s) ++ [EvFetch rawURL])%list
  ∧ match r with
    | None =>
        (∃ data, cmd.files s' = (cmd.files s ++ [WriteFile path data])%list)
        ∧ cmd.printed s' = (cmd.printed s ++ [cmd.MsgWritten path])%list
    | Some (cmd.ErrWriter e) =>
        (∃ data, cmd.files s' = (cmd.files s ++ [WriteFile path data])%list)
        ∧ cmd.printed s' = cmd.printed s
    | Some _ => cmd.files s' = cmd.files s ∧ cmd.printed s' = cmd.printed s
    end.
Proof.
  unfold cmd.runOnly.
  destruct (processURL_outcome rawURL renderer (cmd.net s))
    as [(r0 & st1 & Hp & Htr)|(-> & _)]; [rewrite Hp|done].
  destruct r0 as [[data meta]|e].
  2:{ intros [= <- <-]. cbn [cmd.set_net cmd.net cmd.files cmd.printed].
      split; [done|].
      destruct (processURL_error _ _ _ _ _ Hp) as [m [->|[->|[->| ->]]]]; done. }
  unfold cmd.on_files, output.WriteOnly. cbn [cmd.set_net cmd.net cmd.files cmd.printed].
  destruct (os_WriteFile _ data (world st1)) as [[e|] w1];
    intros [= <- <-]; cbn; (split; [done|]); eauto.
Qed.

End Pipeline.

Section Command.
Context `{RS : Renderers} `{O : !OS} `{E : !Extractor} `{N : !Normalizer}.
Variable Do : string → World → result string Response * World.
Variable Error : fetch.error → string.

(** X16: the command does not crash: with the HTTP fetcher [runConvert]
    returns for every command line, whatever the servers and the disk
    answer.  A command line whose flags are invalid, or whose URL does
    not parse or lacks a scheme or a host, is rejected before anything is
    done; and in [--all] mode the command fails only before the first
    request: once discovery has started it runs to the end. *)
Theorem runConvert_returns (f : cmd.Flags) rawURL s :
  ∃ r s',
    cmd.runConvert Do Error f rawURL s = Returned (r, s')
    ∧ (cmd.validateFlags f ≠ None
       ∨ (∀ parsed, url.Parse rawURL = Ok parsed →
            url.Scheme parsed = "" ∨ url.Host parsed = "") →
       r ≠ None ∧ s' = s)
    ∧ (cmd.flagAll f = true → r ≠ None →
       trace (cmd.net s') = trace (cmd.net s)).
Proof.
  unfold cmd.runConvert.
  destruct (cmd.validateFlags f) as [e|] eqn:Hv.
  { eexists _, _. split; [done|]. split; [done|]. done. }
  destruct (url.Parse rawURL) as [parsed|e] eqn:Hp.
  2:{ eexists _, _. split; [done|]. split; [done|]. done. }
  destruct (String.eqb (url.Scheme parsed) "") eqn:Hs; cbn [orb].
  { eexists _, _. split; [done|]. split; [done|]. done. }
  destruct (String.eqb (url.Host parsed) "") eqn:Hh.
  { eexists _, _. split; [done|]. split; [done|]. done. }
  apply String.eqb_neq in Hs, Hh.
  assert (∀ (r : option cmd.error) s',
            (@None cmd.error ≠ None
             ∨ (∀ parsed0, Ok (E:=url.error) parsed = Ok parsed0 →
                  url.Scheme parsed0 = "" ∨ url.Host parsed0 = "") →
             r ≠ None ∧ s' = s)) as Hacc.
  { intros r s' [Hbad|Hbad]; [done|].
    destruct (Hbad parsed eq_refl); done. }
  destruct (cmd.selectRenderer f) as [renderer|e].
  2:{ eexists _, _. split; [done|]. split; [apply Hacc|done]. }
  destruct (on_files_net (output.New (cmd.flagOutputDir f)) s) as (Htn & _).
  destruct (cmd.on_files (output.New (cmd.flagOutputDir f)) s) as [[writer|e] s1];
    cbn [snd] in Htn.
  2:{ eexists _, _. split; [done|]. split; [apply Hacc|done]. }
  pose proof (HTTPFetcher_parses Do Error) as Hfp.
  destruct (cmd.flagAll f).
  - unfold cmd.runAll. cbn [cmd.print cmd.net].
    destruct (DiscoverAll_returns_list (F:=fetch.HTTPFetcher Do Error) rawURL
                (cmd.net s1) Hfp) as (urls & st1 & ->); [by rewrite Hp|].
    match goal with
    | |- context [cmd.runAll_loop urls 0 ?n 0 renderer writer ?s0] =>
        destruct (runAll_loop_returns (F:=fetch.HTTPFetcher Do Error)
                    urls 0 n 0 renderer writer s0 Hfp) as [[ec s2] ->]
    end.
    eexists _, _. split; [done|]. split; [apply Hacc|done].
  - unfold cmd.runOnly.
    destruct (processURL_returns (F:=fetch.HTTPFetcher Do Error)
                rawURL renderer (cmd.net s1) Hfp)
      as ([[data meta]|e] & st1 & -> & _).
    + destruct (cmd.on_files _ _) as [[path|e] s2];
        eexists _, _; (split; [done|]); (split; [apply Hacc|done]).
    + eexists _, _. split; [done|]. split; [apply Hacc|done].
Qed.

End Command.

(** ** File names *)

Section FileNames.

Lemma width_ascii c (rest : string) :
  is_non_ascii c = false → utf8.width c rest = 1%nat.
Proof.
  unfold is_non_ascii, utf8.width. intros Hc%N.leb_gt.
  destruct (N_of_ascii c <? 128)%N eqn:Hlt; [done|].
  apply N.ltb_ge in Hlt. lia.
Qed.

Lemma width_bounds c (rest : string) :
  (1 ≤ utf8.width c rest ≤ S (String.length rest))%nat.
Proof.
  unfold utf8.width.
  repeat match goal with
         | |- context [if ?b then _ else _] => destruct b
         | |- context [match ?s with "" => _ | String _ _ => _ end] =>
             destruct s
         end; cbn [String.length]; lia.
Qed.

Lemma name_byte_ascii c : name_byte c = true → is_non_ascii c = false.
Proof.
  destruct c as [[] [] [] [] [] [] [] []]; intros H;
    first [discriminate H | reflexivity].
Qed.

Lemma name_byte_kept c :
  name_byte c = true → (if is_alnum c then c else "_"%char) = c.
Proof.
  unfold name_byte. destruct (is_alnum c); [done|].
  cbn [orb]. by intros ->%Ascii.eqb_eq.
Qed.

Lemma name_byte_written c :
  name_byte (if is_alnum c then c else "_"%char) = true.
Proof.
  unfold name_byte. destruct (is_alnum c) eqn:Hc; [by rewrite Hc|done].
Qed.

Lemma sanitize_runes_name n (s : string) :
  str_all name_byte (output.sanitize_runes n s) = true.
Proof.
  revert s. induction n as [|n IH]; intros s; [done|].
  destruct s as [|c rest]; [done|]. cbn [output.sanitize_runes].
  by rewrite str_all_cons, name_byte_written, IH.
Qed.

Lemma sanitize_runes_length n (s : string) :
  (String.length (output.sanitize_runes n s) ≤ String.length s)%nat.
Proof.
  revert s. induction n as [|n IH]; intros s; [cbn; lia|].
  destruct s as [|c rest]; [done|]. cbn [output.sanitize_runes String.length].
  specialize (IH (str_drop (utf8.width c rest - 1) rest)).
  rewrite length_str_drop in IH. lia.
Qed.

(** On a string without a byte above 0x7f the runes are the bytes. *)
Lemma sanitize_runes_ascii n (s : string) :
  (String.length s ≤ n)%nat → str_any is_non_ascii s = false →
  output.sanitize_runes n s
  = str_map (fun c => if is_alnum c then c else "_"%char) s.
Proof.
  revert s. induction n as [|n IH]; intros s Hn Hs.
  - destruct s; [done|cbn in Hn; lia].
  - destruct s as [|c rest]; [done|].
    rewrite str_any_cons in Hs. apply orb_false_iff in Hs as [Hc Hrest].
    cbn [output.sanitize_runes str_map]. rewrite width_ascii by done.
    cbn [Nat.sub str_drop]. rewrite IH; [done| |done]. cbn in Hn. lia.
Qed.

Lemma str_map_name (s : string) :
  str_all name_byte s = true →
  str_map (fun c => if is_alnum c then c else "_"%char) s = s.
Proof.
  induction s as [|c s IH]; [done|]. rewrite str_all_cons.
  intros [Hc Hs]%andb_true_iff. cbn [str_map].
  by rewrite name_byte_kept, IH.
Qed.

Lemma sanitize_name (s : string) :
  str_all name_byte s = true → output.sanitize s = s.
Proof.
  intros Hs. unfold output.sanitize. rewrite sanitize_runes_ascii; [|done|].
  - by apply str_map_name.
  - apply (str_all_not_any name_byte); [apply name_byte_ascii|done].
Qed.

(** X17: [sanitize] returns a text of ASCII letters, digits and [_], no
    longer than its argument; it leaves such a text as it is, so that it
    is idempotent; and on a text without a byte above 0x7f it replaces,
    byte by byte, what is not a letter or a digit by [_]. *)
Theorem sanitize_spec (s : string) :
  str_all name_byte (output.sanitize s) = true
  ∧ (String.length (output.sanitize s) ≤ String.length s)%nat
  ∧ output.sanitize (output.sanitize s) = output.sanitize s
  ∧ (str_all name_byte s = true → output.sanitize s = s)
  ∧ (str_any is_non_ascii s = false →
     output.sanitize s
     = str_map (fun c => if is_alnum c then c else "_"%char) s).
Proof.
  split; [apply sanitize_runes_name|]. split; [apply sanitize_runes_length|].
  split; [apply sanitize_name, sanitize_runes_name|].
  split; [apply sanitize_name|]. intros Hs. by apply sanitize_runes_ascii.
Qed.

Lemma in_range_slash lo hi :
  (128 ≤ lo)%N → utf8.in_range lo hi "/" = false.
Proof.
  intros Hlo. unfold utf8.in_range. apply andb_false_iff. left.
  apply N.leb_gt. change (N_of_ascii "/") with 47%N. lia.
Qed.

(** A [/] ends the rune before it: no encoding goes on over it. *)
Lemma width_slash c (rest t : string) :
  utf8.width c (rest ++ String "/" t) = utf8.width c rest.
Proof.
  unfold utf8.width.
  destruct (N_of_ascii c <? 128)%N; [done|].
  destruct (N_of_ascii c <? 194)%N; [done|].
  destruct (N_of_ascii c <? 224)%N.
  { destruct rest as [|b1 r1]; [|done].
    rewrite append_nil_l. by rewrite in_range_slash. }
  destruct (N_of_ascii c <? 240)%N.
  { destruct rest as [|b1 [|b2 r2]]; rewrite ?append_cons, ?append_nil_l.
    - destruct t; [done|]. rewrite in_range_slash; [done|].
      destruct (N_of_ascii c =? 224)%N; lia.
    - by rewrite (in_range_slash 128), andb_false_r.
    - done. }
  destruct (N_of_ascii c <? 245)%N; [|done].
  destruct rest as [|b1 [|b2 [|b3 r3]]]; rewrite ?append_cons, ?append_nil_l.
  - destruct t as [|t1 [|t2 t]]; [done|done|]. rewrite in_range_slash; [done|].
    destruct (N_of_ascii c =? 240)%N; lia.
  - destruct t; [done|].
    by rewrite (in_range_slash 128), andb_false_r.
  - by rewrite (in_range_slash 128), andb_false_r.
  - done.
Qed.

Lemma str_drop_app_le n (s t : string) :
  (n ≤ String.length s)%nat → str_drop n (s ++ t) = str_drop n s ++ t.
Proof.
  revert s. induction n as [|n IH]; intros s Hle; [by destruct s|].
  destruct s as [|c s]; [cbn in Hle; lia|]. rewrite append_cons.
  cbn [str_drop]. apply IH. cbn in Hle. lia.
Qed.

Lemma sanitize_runes_fuel n k (t : string) :
  (String.length t ≤ n)%nat → (String.length t ≤ k)%nat →
  output.sanitize_runes n t = output.sanitize_runes k t.
Proof.
  revert t k. induction n as [|n IHn]; intros t k Hn Hk.
  - destruct t; [by destruct k|cbn in Hn; lia].
  - destruct t as [|c r]; [by destruct k|].
    destruct k as [|k]; [cbn in Hk; lia|]. cbn [output.sanitize_runes].
    f_equal. apply IHn; rewrite length_str_drop; cbn in Hn, Hk; lia.
Qed.

Lemma sanitize_runes_nil m : output.sanitize_runes m "" = "".
Proof. by destruct m. Qed.

Lemma sanitize_runes_slash_nil n k (t : string) :
  (S (String.length t) ≤ n)%nat → (String.length t ≤ k)%nat →
  output.sanitize_runes n (String "/" t)
  = String "_" (output.sanitize_runes k t).
Proof.
  intros Hn Hk. destruct n as [|n]; [lia|]. cbn [output.sanitize_runes].
  change (is_alnum "/") with false. cbn match.
  rewrite width_ascii by done. cbn [Nat.sub str_drop]. f_equal.
  apply sanitize_runes_fuel; lia.
Qed.

Lemma sanitize_runes_slash n m k (a t : string) :
  (String.length a + S (String.length t) ≤ n)%nat →
  (String.length a ≤ m)%nat → (String.length t ≤ k)%nat →
  output.sanitize_runes n (a ++ String "/" t)
  = output.sanitize_runes m a ++ String "_" (output.sanitize_runes k t).
Proof.
  revert n a. induction m as [|m IH]; intros n a Hn Hm Hk.
  - destruct a; [|cbn in Hm; lia]. rewrite sanitize_runes_nil, !append_nil_l.
    apply sanitize_runes_slash_nil; [cbn in Hn; lia|done].
  - destruct a as [|c rest].
    { rewrite sanitize_runes_nil, !append_nil_l.
      apply sanitize_runes_slash_nil; [cbn in Hn; lia|done]. }
    destruct n as [|n]; [cbn in Hn; lia|].
    rewrite append_cons. cbn [output.sanitize_runes]. rewrite width_slash.
    pose proof (width_bounds c rest) as Hw.
    rewrite append_cons. f_equal. rewrite str_drop_app_le by lia.
    apply IH; [|rewrite length_str_drop; cbn in Hm; lia|done].
    rewrite length_str_drop. cbn in Hn. lia.
Qed.

Lemma sanitize_slash (a t : string) :
  output.sanitize (a ++ String "/" t)
  = output.sanitize a ++ String "_" (output.sanitize t).
Proof.
  unfold output.sanitize. apply sanitize_runes_slash; [|done|done].
  rewrite length_append. cbn. lia.
Qed.

Lemma CountByte_cons a (s : string) c :
  strings.CountByte (String a s) c
  = ((if Ascii.eqb c a then 1 else 0) + strings.CountByte s c)%nat.
Proof. unfold strings.CountByte. cbn. by destruct (Ascii.eqb c a). Qed.

Lemma IndexByte_count (s : string) c :
  match strings.IndexByte s c with
  | None => strings.CountByte s c = 0%nat
  | Some m =>
      s = str_take m s ++ String c (str_drop (S m) s)
      ∧ strings.CountByte s c = S (strings.CountByte (str_drop (S m) s) c)
  end.
Proof.
  induction s as [|a s IH]; [done|]. cbn [strings.IndexByte].
  rewrite CountByte_cons, (Ascii.eqb_sym c a).
  destruct (Ascii.eqb a c) eqn:Hac.
  - apply Ascii.eqb_eq in Hac as ->. cbn [str_take str_drop].
    by rewrite append_nil_l.
  - destruct (strings.IndexByte s c) as [m|]; cbn [fmap option_fmap option_map].
    + destruct IH as [Hs Hc]. cbn [str_take str_drop]. rewrite append_cons.
      split; [f_equal; exact Hs|done].
    + done.
Qed.

Lemma Join_cons x (rest : list string) sep :
  rest ≠ [] → strings.Join (x :: rest) sep = x ++ sep ++ strings.Join rest sep.
Proof. by destruct rest. Qed.

Lemma genSplit_nonempty n (s : string) c : strings.genSplit n s c ≠ [].
Proof. destruct n; cbn; [done|]. by destruct (strings.IndexByte s c). Qed.

(** Splitting at [/], sanitizing the parts and joining them with [_] is
    sanitizing the whole. *)
Lemma Join_sanitize_Split (t : string) :
  strings.Join (output.sanitize <$> strings.SplitByte t "/") "_"
  = output.sanitize t.
Proof.
  unfold strings.SplitByte.
  remember (strings.CountByte t "/") as n eqn:Hn. revert t Hn.
  induction n as [|n IH]; intros t Hn; [done|].
  cbn [strings.genSplit]. pose proof (IndexByte_count t "/") as Hi.
  destruct (strings.IndexByte t "/") as [m|]; [|congruence].
  destruct Hi as [Ht Hc]. cbn [fmap list_fmap].
  rewrite Join_cons.
  2:{ intros Hnil%fmap_nil_inv. by apply genSplit_nonempty in Hnil. }
  change (list_fmap _ _ output.sanitize ?l) with (output.sanitize <$> l).
  rewrite IH by congruence. rewrite Ht at 3. by rewrite sanitize_slash.
Qed.

(** X18: the flat file name of a URL that parses is the sanitized text
    of its host, followed, when the path holds more than slashes, by a
    [/] and the path without its leading and trailing slashes; for a URL
    that does not parse it is the sanitized URL.  Either way the name is
    made of ASCII letters, digits and [_]: it holds no path separator and
    no dot. *)
Theorem filenameFromURL_spec (rawURL : string) :
  output.filenameFromURL rawURL
  = match url.Parse rawURL with
    | Err _ => output.sanitize rawURL
    | Ok parsed =>
        let path := strings.TrimByte (url.Path parsed) "/" in
        if String.eqb path "" then output.sanitize (url.Host parsed)
        else output.sanitize (url.Host parsed ++ String "/" path)
    end
  ∧ str_all name_byte (output.filenameFromURL rawURL) = true.
Proof.
  assert (output.filenameFromURL rawURL
  = match url.Parse rawURL with
    | Err _ => output.sanitize rawURL
    | Ok parsed =>
        let path := strings.TrimByte (url.Path parsed) "/" in
        if String.eqb path "" then output.sanitize (url.Host parsed)
        else output.sanitize (url.Host parsed ++ String "/" path)
    end) as Heq.
  { unfold output.filenameFromURL.
    destruct (url.Parse rawURL) as [parsed|e]; [|done]. cbn zeta.
    destruct (String.eqb (strings.TrimByte (url.Path parsed) "/") "");
      cbn [negb]; [done|].
    cbn [app]. rewrite Join_cons.
    2:{ intros Hnil%fmap_nil_inv. by apply genSplit_nonempty in Hnil. }
    by rewrite Join_sanitize_Split, sanitize_slash. }
  split; [done|]. rewrite Heq.
  destruct (url.Parse rawURL) as [parsed|e]; [|apply sanitize_runes_name].
  cbn zeta. destruct (String.eqb _ ""); apply sanitize_runes_name.
Qed.

End FileNames.

(** ** Chunks *)

Section Chunks.
Variable unicode_fields : string → list string.

Lemma Join_app (g rest : list string) sep :
  g ≠ [] → rest ≠ [] →
  strings.Join (g ++ rest) sep
  = strings.Join g sep ++ sep ++ strings.Join rest sep.
Proof.
  intros Hg Hrest. induction g as [|x g IH]; [done|].
  destruct g as [|y g].
  - cbn [app]. by rewrite Join_cons.
  - cbn [app] in *. rewrite Join_cons by done. rewrite IH by done.
    rewrite (Join_cons x (y :: g)) by done. by rewrite !append_assoc.
Qed.

Lemma Join_concat (groups : list (list string)) sep :
  Forall (fun g => g ≠ []) groups →
  strings.Join ((fun g => strings.Join g sep) <$> groups) sep
  = strings.Join (concat groups) sep.
Proof.
  induction 1 as [|g groups Hg Hall IH]; [done|].
  cbn [fmap list_fmap concat].
  change (list_fmap _ _ ?f groups) with (f <$> groups).
  destruct groups as [|g' groups].
  - cbn. by rewrite app_nil_r.
  - rewrite Join_cons by done. rewrite IH.
    rewrite Join_app; [done|done|].
    cbn [concat]. apply Forall_cons in Hall as [Hg' _].
    destruct g'; [done|]. done.
Qed.

(** What the loop of [Chunk] returns for a positive size, given a round
    for each word that is left. *)
Lemma Chunk_loop_groups (size : nat) (words : list string) :
  (0 < size)%nat →
  ∀ fuel i chunks,
    (length words - i ≤ fuel)%nat →
    ∃ groups,
      chunk.Chunk_loop fuel (Z.of_nat size) words i chunks
      = chunk.Chunks (chunks ++ ((fun g => strings.Join g " ") <$> groups))
      ∧ concat groups = drop i words
      ∧ Forall (fun g => 1 ≤ length g ≤ size)%nat groups
      ∧ (∀ k g, (k + 1 < length groups)%nat → groups !! k = Some g →
           length g = size)
      ∧ (length words - i ≤ length groups * size
         < length words - i + size)%nat.
Proof.
  intros Hsize fuel. induction fuel as [|fuel IH]; intros i chunks Hfuel.
  - exists []. cbn [chunk.Chunk_loop].
    assert ((i <? length words)%nat = false) as -> by (apply Nat.ltb_ge; lia).
    cbn. rewrite app_nil_r, drop_ge by lia.
    repeat split; [constructor|intros k g Hk; cbn in Hk; lia|lia|lia].
  - cbn [chunk.Chunk_loop].
    destruct (i <? length words)%nat eqn:Hi.
    2:{ apply Nat.ltb_ge in Hi. exists []. cbn.
        rewrite app_nil_r, drop_ge by lia.
        repeat split; [constructor|intros k g Hk; cbn in Hk; lia|lia|lia]. }
    apply Nat.ltb_lt in Hi.
    assert ((Z.of_nat size <? 0)%Z = false) as -> by (apply Z.ltb_ge; lia).
    rewrite Nat2Z.id.
    set (g := take ((if (length words <? i + size)%nat
                     then length words else (i + size)%nat) - i)
                (drop i words)).
    destruct (IH (i + size)%nat (chunks ++ [strings.Join g " "])%list)
      as (groups & Hrun & Hcat & Hall & Hfull & Hcount); [lia|].
    assert (length g = size `min` (length words - i))%nat as Hlen.
    { unfold g. rewrite length_take, length_drop.
      destruct (length words <? i + size)%nat eqn:Hend;
        [apply Nat.ltb_lt in Hend|apply Nat.ltb_ge in Hend]; lia. }
    assert (g ++ drop (i + size) words = drop i words)%list as Hsplit.
    { unfold g. rewrite <- (take_drop size (drop i words)) at 2.
      rewrite drop_drop. f_equal.
      destruct (length words <? i + size)%nat eqn:Hend;
        [apply Nat.ltb_lt in Hend|apply Nat.ltb_ge in Hend].
      - rewrite !take_ge; [done| |]; rewrite length_drop; lia.
      - f_equal. lia. }
    exists (g :: groups). split; [|split; [|split; [|split]]].
    + rewrite Hrun, <- app_assoc. done.
    + cbn [concat]. by rewrite Hcat.
    + constructor; [lia|done].
    + intros k g' Hk Hg'. destruct k as [|k].
      * injection Hg' as <-. cbn [length] in Hk.
        destruct groups as [|g1 groups]; [cbn in Hk; lia|].
        assert (length (concat (g1 :: groups)) ≠ 0)%nat as Hne.
        { cbn [concat]. rewrite length_app.
          apply Forall_cons in Hall as [Hg1 _]. lia. }
        rewrite Hcat, length_drop in Hne. lia.
      * cbn in Hg'. apply (Hfull k); [cbn [length] in Hk; lia|done].
    + cbn [length].
      assert (length groups = 0 ∨ size ≤ length groups * size)%nat as [Hk|Hk]
        by (destruct (length groups); [by left|right; lia]).
      * rewrite Hk in *. lia.
      * lia.
Qed.

Lemma Chunk_groups (c : chunk.Chunker) (text : string) fuel :
  (0 < chunk.ChunkSize c)%Z →
  (length (strings.Fields unicode_fields text) ≤ fuel)%nat →
  ∃ groups,
    chunk.Chunk_fuel unicode_fields fuel c text
    = chunk.Chunks ((fun g => strings.Join g " ") <$> groups)
    ∧ concat groups = strings.Fields unicode_fields text
    ∧ Forall (fun g => 1 ≤ Z.of_nat (length g) ≤ chunk.ChunkSize c)%Z groups
    ∧ (∀ k g, (k + 1 < length groups)%nat → groups !! k = Some g →
         Z.of_nat (length g) = chunk.ChunkSize c)
    ∧ (Z.of_nat (length (strings.Fields unicode_fields text))
       ≤ Z.of_nat (length groups) * chunk.ChunkSize c
       < Z.of_nat (length (strings.Fields unicode_fields text))
         + chunk.ChunkSize c)%Z.
Proof.
  intros Hsize Hfuel. unfold chunk.Chunk_fuel.
  set (words := strings.Fields unicode_fields text) in *.
  destruct (length words =? 0)%nat eqn:Hz.
  { apply Nat.eqb_eq in Hz. exists []. destruct words; [|done].
    cbn. repeat split; [constructor|intros k g Hk; cbn in Hk; lia|lia|lia]. }
  destruct (Chunk_loop_groups (Z.to_nat (chunk.ChunkSize c)) words
              ltac:(lia) fuel 0%nat [] ltac:(lia))
    as (groups & Hrun & Hcat & Hall & Hfull & Hcount).
  rewrite Z2Nat.id in Hrun by lia. exists groups.
  split; [done|]. split; [done|]. split; [|split].
  - eapply Forall_impl; [exact Hall|]. cbn. intros g Hg. lia.
  - intros k g Hk Hg. rewrite (Hfull k g Hk Hg). lia.
  - rewrite Nat.sub_0_r in Hcount.
    replace (chunk.ChunkSize c) with (Z.of_nat (Z.to_nat (chunk.ChunkSize c)))
      by lia.
    lia.
Qed.

(** X19: with a positive chunk size, [Chunk] returns: it cuts the words
    of the text, in their order, into groups of [ChunkSize] words, the
    last group holding the words that are left, and returns each group
    joined by single spaces; there are as many chunks as [ChunkSize] goes
    into the number of words, rounded up.  A text without words gives no
    chunk. *)
Theorem Chunk_partition (c : chunk.Chunker) (text : string) :
  (0 < chunk.ChunkSize c)%Z →
  ∃ groups,
    chunk.Chunk unicode_fields c text
    = chunk.Chunks ((fun g => strings.Join g " ") <$> groups)
    ∧ concat groups = strings.Fields unicode_fields text
    ∧ Forall (fun g => 1 ≤ Z.of_nat (length g) ≤ chunk.ChunkSize c)%Z groups
    ∧ (∀ k g, (k + 1 < length groups)%nat → groups !! k = Some g →
         Z.of_nat (length g) = chunk.ChunkSize c)
    ∧ (Z.of_nat (length (strings.Fields unicode_fields text))
       ≤ Z.of_nat (length groups) * chunk.ChunkSize c
       < Z.of_nat (length (strings.Fields unicode_fields text))
         + chunk.ChunkSize c)%Z.
Proof. intros Hsize. by apply Chunk_groups. Qed.

(** X20: no word is lost, added or moved: the chunks joined by single
    spaces are the words of the text joined by single spaces. *)
Theorem Chunk_keeps_words (c : chunk.Chunker) (text : string) :
  (0 < chunk.ChunkSize c)%Z →
  ∃ chunks,
    chunk.Chunk unicode_fields c text = chunk.Chunks chunks
    ∧ strings.Join chunks " "
      = strings.Join (strings.Fields unicode_fields text) " ".
Proof.
  intros Hsize.
  destruct (Chunk_groups c text _ Hsize (Nat.le_refl _))
    as (groups & Hrun & Hcat & Hall & _).
  eexists. split; [exact Hrun|]. rewrite <- Hcat. apply Join_concat.
  eapply Forall_impl; [exact Hall|]. cbn. intros g Hg ->. cbn in Hg. lia.
Qed.

(** X21: the sizes [New] keeps out.  On a text with a word, a chunk size
    of zero keeps the loop of [Chunk] running whatever the number of
    rounds it is given, and a negative one makes its first round slice
    out of bounds; [New] replaces both by 512 and keeps a positive
    size. *)
Theorem Chunk_size_guard (text : string) :
  (∀ n, (0 < chunk.ChunkSize (chunk.New n))%Z
        ∧ chunk.ChunkSize (chunk.New n)
          = if (0 <? n)%Z then n else 512%Z)
  ∧ (strings.Fields unicode_fields text ≠ [] →
     (∀ fuel, chunk.Chunk_fuel unicode_fields fuel (chunk.mkChunker 0) text
              = chunk.Unfinished)
     ∧ (∀ fuel size, (size < 0)%Z →
          chunk.Chunk_fuel unicode_fields (S fuel) (chunk.mkChunker size) text
          = chunk.SliceBoundsOutOfRange)).
Proof.
  split.
  - intros n. unfold chunk.New. cbn [chunk.ChunkSize].
    destruct (n <=? 0)%Z eqn:Hn; [apply Z.leb_le in Hn|apply Z.leb_gt in Hn].
    + assert ((0 <? n)%Z = false) as -> by (apply Z.ltb_ge; lia). done.
    + assert ((0 <? n)%Z = true) as -> by (apply Z.ltb_lt; lia). done.
  - intros Hwords. unfold chunk.Chunk_fuel. cbn [chunk.ChunkSize].
    set (words := strings.Fields unicode_fields text) in *.
    assert ((length words =? 0)%nat = false) as ->.
    { apply Nat.eqb_neq. by destruct words. }
    assert ((0 <? length words)%nat = true) as Hlt.
    { apply Nat.ltb_lt. destruct words; [done|cbn; lia]. }
    split.
    + intros fuel. generalize (@nil string).
      induction fuel as [|fuel IH]; intros chunks; cbn [chunk.Chunk_loop];
        rewrite Hlt; [done|].
      cbn [Z.ltb Z.compare Z.to_nat]. rewrite Nat.add_0_r. apply IH.
    + intros fuel size Hsize. cbn [chunk.Chunk_loop]. rewrite Hlt.
      by assert ((size <? 0)%Z = true) as -> by (apply Z.ltb_lt; lia).
Qed.

End Chunks.

(** ** Chunks of ASCII texts *)

Section AsciiChunks.
Variable unicode_fields : string → list string.

Lemma FieldsASCII_words (s field : string) :
  str_any strings.asciiSpace field = false →
  str_any is_non_ascii field = false → str_any is_non_ascii s = false →
  Forall (fun w => ascii_word w = true) (strings.FieldsASCII_from s field).
Proof.
  revert field. induction s as [|c s IH]; intros field Hsp Hf Hs;
    cbn [strings.FieldsASCII_from].
  - destruct (String.eqb field "") eqn:He; [constructor|].
    constructor; [|constructor]. unfold ascii_word. by rewrite He, Hsp, Hf.
  - rewrite str_any_cons in Hs. apply orb_false_iff in Hs as [Hc Hs].
    destruct (strings.asciiSpace c) eqn:Hspc.
    + destruct (String.eqb field "") eqn:He; [by apply IH|].
      constructor; [|by apply IH]. unfold ascii_word. by rewrite He, Hsp, Hf.
    + apply IH; [| |done]; rewrite str_any_app, str_any_cons.
      * by rewrite Hsp, Hspc.
      * by rewrite Hf, Hc.
Qed.

Lemma FieldsASCII_word (w s field : string) :
  str_any strings.asciiSpace w = false →
  strings.FieldsASCII_from (w ++ s) field
  = strings.FieldsASCII_from s (field ++ w).
Proof.
  revert field. induction w as [|c w IH]; intros field Hw.
  - by rewrite append_nil_l, append_nil_r.
  - rewrite str_any_cons in Hw. apply orb_false_iff in Hw as [Hc Hw].
    rewrite append_cons. cbn [strings.FieldsASCII_from]. rewrite Hc.
    rewrite IH by done. f_equal. by rewrite append_assoc.
Qed.

Lemma ascii_word_facts (w : string) :
  ascii_word w = true →
  String.eqb w "" = false ∧ str_any strings.asciiSpace w = false
  ∧ str_any is_non_ascii w = false.
Proof.
  unfold ascii_word. intros [[H1 H2]%andb_true_iff H3]%andb_true_iff.
  by rewrite negb_true_iff in H1, H2, H3.
Qed.

(** The words of a text made of words and single spaces are these
    words. *)
Lemma FieldsASCII_Join (ws : list string) :
  Forall (fun w => ascii_word w = true) ws →
  strings.FieldsASCII_from (strings.Join ws " ") "" = ws.
Proof.
  induction 1 as [|w ws Hw Hall IH]; [done|].
  destruct (ascii_word_facts w Hw) as (Hne & Hsp & _).
  destruct ws as [|w' ws].
  - cbn [strings.Join]. rewrite <- (append_nil_r w) at 1.
    rewrite FieldsASCII_word by done. rewrite append_nil_l.
    cbn [strings.FieldsASCII_from]. by rewrite Hne.
  - rewrite Join_cons by done. rewrite FieldsASCII_word by done.
    rewrite append_nil_l, append_cons, append_nil_l.
    cbn [strings.FieldsASCII_from].
    change (strings.asciiSpace " ") with true. cbn match.
    by rewrite Hne, IH.
Qed.

Lemma Join_ascii (ws : list string) :
  Forall (fun w => ascii_word w = true) ws →
  str_any is_non_ascii (strings.Join ws " ") = false.
Proof.
  induction 1 as [|w ws Hw Hall IH]; [done|].
  destruct (ascii_word_facts w Hw) as (_ & _ & Ha).
  destruct ws as [|w' ws]; [done|].
  rewrite Join_cons by done. rewrite !str_any_app, Ha, IH. done.
Qed.

Lemma Fields_Join (ws : list string) :
  Forall (fun w => ascii_word w = true) ws →
  strings.Fields unicode_fields (strings.Join ws " ") = ws.
Proof.
  intros Hws. unfold strings.Fields.
  by rewrite Join_ascii, FieldsASCII_Join.
Qed.

Lemma Chunk_loop_single (size : Z) (words : list string) fuel :
  (0 < size)%Z → words ≠ [] → (length words ≤ Z.to_nat size)%nat →
  chunk.Chunk_loop (S fuel) size words 0 []
  = chunk.Chunks [strings.Join words " "].
Proof.
  intros Hsize Hne Hlen. cbn [chunk.Chunk_loop].
  assert ((0 <? length words)%nat = true) as ->.
  { apply Nat.ltb_lt. destruct words; [done|cbn; lia]. }
  assert ((size <? 0)%Z = false) as -> by (apply Z.ltb_ge; lia).
  rewrite Nat.add_0_l, Nat.sub_0_r. cbn [app]. rewrite drop_0.
  assert (take (if (length words <? Z.to_nat size)%nat
                then length words else Z.to_nat size) words = words) as ->.
  { apply take_ge.
    destruct (length words <? Z.to_nat size)%nat eqn:H1; [lia|].
    apply Nat.ltb_ge in H1. lia. }
  assert ((Z.to_nat size <? length words)%nat = false) as Hend
    by (apply Nat.ltb_ge; lia).
  destruct fuel; cbn [chunk.Chunk_loop]; by rewrite Hend.
Qed.

(** X22: for a text without a byte above 0x7f and a positive chunk
    size, each chunk holds at least one and at most [ChunkSize] words, as
    [strings.Fields] counts them, and is a single chunk when it is
    chunked again. *)
Theorem Chunk_ascii_bounded (c : chunk.Chunker) (text : string) :
  (0 < chunk.ChunkSize c)%Z → str_any is_non_ascii text = false →
  ∃ chunks,
    chunk.Chunk unicode_fields c text = chunk.Chunks chunks
    ∧ ∀ ch, ch ∈ chunks →
        (1 ≤ Z.of_nat (length (strings.Fields unicode_fields ch))
         ≤ chunk.ChunkSize c)%Z
        ∧ chunk.Chunk unicode_fields c ch = chunk.Chunks [ch].
Proof.
  intros Hsize Htext.
  destruct (Chunk_groups unicode_fields c text _ Hsize (Nat.le_refl _))
    as (groups & Hrun & Hcat & Hall & _).
  eexists. split; [exact Hrun|]. intros ch Hch.
  apply list_elem_of_fmap in Hch as (g & -> & Hg).
  assert (Forall (fun w => ascii_word w = true) g) as Hwords.
  { apply Forall_forall. intros w Hw.
    assert (w ∈ strings.Fields unicode_fields text) as Hin.
    { rewrite <- Hcat. apply list_elem_of_In, in_concat. exists g.
      split; by apply list_elem_of_In. }
    unfold strings.Fields in Hin. rewrite Htext in Hin.
    by apply (proj1 (Forall_forall _ _)
                (FieldsASCII_words text "" eq_refl eq_refl Htext)). }
  pose proof (proj1 (Forall_forall _ _) Hall g Hg) as Hlen. cbn in Hlen.
  unfold chunk.Chunk, chunk.Chunk_fuel. rewrite Fields_Join by done.
  split; [lia|].
  destruct g as [|w g]; [cbn in Hlen; lia|].
  cbn [length Nat.eqb]. apply Chunk_loop_single; [done|done|].
  cbn [length] in *. lia.
Qed.

End AsciiChunks.

(** ** Fragments *)

Section NoFragment.

Lemma nh_app (s t : string) : no_hash (s ++ t) ↔ no_hash s ∧ no_hash t.
Proof.
  unfold no_hash, strings.ContainsByte. rewrite str_any_app. apply orb_false_iff. Qed.

Lemma nh_take n (s : string) : no_hash s → no_hash (str_take n s).
Proof.
  unfold raw_fields_no_hash, no_hash in *.
  intros Hs. rewrite <- (str_take_drop n s) in Hs. by apply nh_app in Hs as [? _].
Qed.

Lemma nh_drop n (s : string) : no_hash s → no_hash (str_drop n s).
Proof.
  unfold raw_fields_no_hash, no_hash in *.
  intros Hs. rewrite <- (str_take_drop n s) in Hs. by apply nh_app in Hs as [_ ?].
Qed.

Lemma nh_CutByte (s : string) c :
  no_hash s → no_hash (strings.CutByte s c).1.1 ∧ no_hash (strings.CutByte s c).1.2.
Proof.
  unfold raw_fields_no_hash, no_hash in *.
  intros Hs. unfold strings.CutByte.
  destruct (strings.IndexByte s c); cbn [fst snd]; [|done].
  split; [by apply nh_take|by apply nh_drop].
Qed.

Lemma lower_byte_hash c :
  Ascii.eqb "#" (strings.lower_byte c) = Ascii.eqb "#" c.
Proof. destruct c as [[] [] [] [] [] [] [] []]; reflexivity. Qed.

Lemma nh_ToLowerASCII (s : string) : no_hash s → no_hash (strings.ToLowerASCII s).
Proof.
  unfold raw_fields_no_hash, no_hash in *.
  unfold strings.ToLowerASCII. destruct (str_any is_upper s); [|done].
  unfold strings.ContainsByte. induction s as [|c s IH]; [done|].
  cbn [str_map]. rewrite !str_any_cons, lower_byte_hash.
  intros [-> Hs]%orb_false_iff. by apply IH.
Qed.

Lemma nh_getScheme_loop (rawURL : string) i (s scheme rest : string) :
  no_hash rawURL → no_hash s →
  url.getScheme_loop rawURL i s = Ok (scheme, rest) → no_hash scheme ∧ no_hash rest.
Proof.
  unfold raw_fields_no_hash, no_hash in *.
  intros Hraw. revert i. induction s as [|c s IH]; intros i Hs;
    cbn [url.getScheme_loop].
  - by intros [= <- <-].
  - unfold strings.ContainsByte in Hs. rewrite str_any_cons in Hs.
    apply orb_false_iff in Hs as [_ Hs].
    destruct (is_lower c || is_upper c); [by apply IH|].
    destruct (is_digit c || byte_in c "+-.").
    { destruct (i =? 0)%nat; [by intros [= <- <-]|by apply IH]. }
    destruct (Ascii.eqb c ":"); [|by intros [= <- <-]].
    destruct (i =? 0)%nat; [done|]. intros [= <- <-].
    split; [by apply nh_take|done].
Qed.

Lemma upperhex_hash c :
  Ascii.eqb "#" (url.upperhex (N_of_ascii c / 16)) = false
  ∧ Ascii.eqb "#" (url.upperhex (N_of_ascii c mod 16)) = false.
Proof. destruct c as [[] [] [] [] [] [] [] []]; split; reflexivity. Qed.

Lemma shouldEscape_hash mode c :
  url.shouldEscape c mode = false → Ascii.eqb "#" c = false.
Proof.
  unfold raw_fields_no_hash, no_hash in *.
  destruct (Ascii.eqb "#" c) eqn:Hc; [|done].
  apply Ascii.eqb_eq in Hc as <-. by destruct mode.
Qed.

Lemma nh_escape (s : string) mode : no_hash (url.escape s mode).
Proof.
  unfold raw_fields_no_hash, no_hash in *.
  unfold url.escape, strings.ContainsByte.
  destruct (str_any (fun c => url.shouldEscape c mode) s) eqn:Hany.
  - clear Hany. induction s as [|c s IH]; [done|]. cbn [url.escape_bytes].
    destruct (Ascii.eqb c " " && url.is_query_mode mode).
    { by rewrite str_any_cons, IH. }
    destruct (url.shouldEscape c mode) eqn:Hc.
    + destruct (upperhex_hash c) as [H1 H2].
      by rewrite !str_any_cons, H1, H2, IH.
    + by rewrite str_any_cons, (shouldEscape_hash _ _ Hc), IH.
  - induction s as [|c s IH]; [done|]. rewrite str_any_cons in *.
    apply orb_false_iff in Hany as [Hc Hs].
    by rewrite (shouldEscape_hash _ _ Hc), IH.
Qed.

Lemma setPath_raw_fields (u p : url.URL) (rest : string) :
  raw_fields_no_hash u → no_hash rest → url.setPath u rest = Ok p → raw_fields_no_hash p.
Proof.
  unfold raw_fields_no_hash, no_hash in *.
  intros (Hs & Ho & _ & Hq) Hrest. unfold url.setPath.
  destruct (url.unescape rest url.encodePath) as [path|]; [|done].
  destruct (String.eqb rest _); intros [= <-]; by repeat split.
Qed.

Lemma parse_raw_fields (u : string) (p : url.URL) :
  no_hash u → url.parse u = Ok p → raw_fields_no_hash p.
Proof.
  unfold raw_fields_no_hash, no_hash in *.
  intros Hu. unfold url.parse.
  destruct (url.stringContainsCTLByte u); [done|].
  destruct (String.eqb u "*"); [by intros [= <-]|].
  destruct (url.getScheme u) as [[scheme rest]|] eqn:Hsch; [|done].
  apply nh_getScheme_loop in Hsch as [Hscheme Hrest]; [|done|done].
  apply nh_ToLowerASCII in Hscheme.
  set (url0 := url.with_Scheme (strings.ToLowerASCII scheme) url.zero).
  assert (raw_fields_no_hash url0) as H0 by by repeat split.
  assert (∃ rest1 url1,
    (if strings.HasSuffix rest "?" && (strings.CountByte rest "?" =? 1)%nat
     then (str_take (String.length rest - 1) rest, url.with_ForceQuery true url0)
     else let '(rest, query, _) := strings.CutByte rest "?" in
          (rest, url.with_RawQuery query url0)) = (rest1, url1)
    ∧ strings.ContainsByte rest1 "#" = false
    ∧ raw_fields_no_hash url1) as (rest1 & url1 & -> & Hrest1 & H1).
  { destruct (_ && _).
    - eexists _, _. split; [done|]. split; [by apply nh_take|done].
    - pose proof (nh_CutByte rest "?" Hrest) as [Ha Hb].
      destruct (strings.CutByte rest "?") as [[a b] found]. cbn [fst snd] in *.
      eexists _, _. split; [done|]. split; [done|].
      destruct H0 as (? & ? & ? & ?). by repeat split. }
  destruct (negb (strings.HasPrefix rest1 "/") && url.nonempty (url.Scheme url1)).
  { intros [= <-]. destruct H1 as (? & ? & ? & ?). by repeat split. }
  destruct (negb (strings.HasPrefix rest1 "/") && _); [done|].
  match goal with
  | |- match ?step with Ok _ => _ | Err _ => _ end = _ → _ =>
      assert (∀ rest2 url2, step = Ok (rest2, url2) →
                strings.ContainsByte rest2 "#" = false
                ∧ raw_fields_no_hash url2) as Hstep;
      [|destruct step as [[rest2 url2]|]; [|done]]
  end.
  { intros rest2 url2.
    destruct ((url.nonempty (url.Scheme url1)
               || negb (strings.HasPrefix rest1 "///"))
              && strings.HasPrefix rest1 "//").
    - assert (strings.ContainsByte (str_drop 2 rest1) "#" = false) as Hauth by by apply nh_drop.
      destruct (strings.IndexByte (str_drop 2 rest1) "/") as [i|].
      + destruct (url.parseAuthority _) as [[user host]|]; [|done].
        intros [= <- <-]. split; [by apply nh_drop|].
        destruct H1 as (? & ? & ? & ?). by repeat split.
      + destruct (url.parseAuthority _) as [[user host]|]; [|done].
        intros [= <- <-]. split; [done|].
        destruct H1 as (? & ? & ? & ?). by repeat split.
    - destruct (url.nonempty (url.Scheme url1) && strings.HasPrefix rest1 "/");
        intros [= <- <-]; (split; [done|]);
        destruct H1 as (? & ? & ? & ?); by repeat split. }
  destruct (Hstep rest2 url2 eq_refl) as [Hrest2 H2].
  by apply setPath_raw_fields.
Qed.

Lemma Parse_raw_fields (raw : string) (p : url.URL) :
  url.Parse raw = Ok p → raw_fields_no_hash p.
Proof.
  unfold raw_fields_no_hash, no_hash in *.
  unfold url.Parse.
  destruct (strings.CutByte raw "#") as [[u frag] found] eqn:Hcut.
  assert (strings.ContainsByte u "#" = false) as Hu.
  { unfold strings.CutByte in Hcut.
    destruct (strings.IndexByte raw "#") as [i|] eqn:Hi.
    - injection Hcut as <- _ _. clear frag found.
      revert i Hi. induction raw as [|c raw IH]; intros i; [done|].
      cbn [strings.IndexByte]. destruct (Ascii.eqb c "#") eqn:Hc.
      + by intros [= <-].
      + destruct (strings.IndexByte raw "#") as [j|]; [|done].
        intros [= <-]. cbn [str_take]. unfold strings.ContainsByte.
        rewrite str_any_cons, Ascii.eqb_sym, Hc. by apply IH.
    - injection Hcut as <- _ _. clear frag found.
      induction raw as [|c raw IH]; [done|]. cbn [strings.IndexByte] in Hi.
      destruct (Ascii.eqb c "#") eqn:Hc; [done|].
      destruct (strings.IndexByte raw "#"); [done|].
      unfold strings.ContainsByte. rewrite str_any_cons, Ascii.eqb_sym, Hc.
      by apply IH. }
  destruct (url.parse u) as [p0|] eqn:Hp; [|done].
  apply parse_raw_fields in Hp; [|done].
  destruct (String.eqb frag ""); [by intros [= <-]|].
  unfold url.setFragment.
  destruct (url.unescape frag url.encodeFragment); [|done].
  destruct Hp as (? & ? & ? & ?).
  destruct (String.eqb frag _); intros [= <-]; by repeat split.
Qed.

Lemma nh_EscapedPath (u : url.URL) : no_hash (url.RawPath u) → no_hash (url.EscapedPath u).
Proof.
  unfold raw_fields_no_hash, no_hash in *.
  intros Hr. unfold url.EscapedPath.
  destruct (_ && _); [done|]. destruct (String.eqb (url.Path u) "*"); [done|].
  apply nh_escape.
Qed.

(** A URL without a fragment is printed without a [#]. *)
Lemma nh_String (u : url.URL) :
  raw_fields_no_hash u → url.Fragment u = "" → no_hash (url.String u).
Proof.
  unfold raw_fields_no_hash, no_hash in *.
  intros (Hs & Ho & Hp & Hq) Hf. unfold url.String. rewrite Hf.
  change (url.nonempty "") with false. cbn match.
  pose proof (nh_EscapedPath u Hp) as Hep. unfold no_hash in Hep.
  repeat match goal with
         | |- strings.ContainsByte (if ?b then _ else _) _ = false => destruct b
         | |- strings.ContainsByte (match ?o with Some _ => _ | None => _ end) _
              = false => destruct o
         | |- strings.ContainsByte (_ ++ _) _ = false => apply nh_app; split
         | |- strings.ContainsByte (url.escape _ _) _ = false => apply nh_escape
         | |- strings.ContainsByte (url.Userinfo_String _) _ = false =>
             unfold url.Userinfo_String
         | |- no_hash _ => unfold no_hash
         | |- _ => done
         end.
Qed.

Lemma NormalizeURL_nh (raw : string) :
  is_ok (url.Parse raw) = true → no_hash (crawl.NormalizeURL raw).
Proof.
  unfold raw_fields_no_hash, no_hash in *.
  unfold crawl.NormalizeURL. destruct (url.Parse raw) as [p|] eqn:Hp; [|done].
  intros _. apply Parse_raw_fields in Hp as (? & ? & ? & ?).
  apply nh_String; [|by destruct (negb _)].
  destruct (negb _); by repeat split.
Qed.

(** X23: the normal form of a URL that parses holds no [#]: the fragment
    is dropped, and whatever else is printed is either copied from the
    text before the fragment or percent-encoded.  A URL that does not
    parse is returned as it is, fragment included. *)
Theorem NormalizeURL_no_fragment (raw : string) :
  (is_ok (url.Parse raw) = true → no_hash (crawl.NormalizeURL raw))
  ∧ (is_ok (url.Parse raw) = false → crawl.NormalizeURL raw = raw).
Proof.
  split; [apply NormalizeURL_nh|].
  destruct (url.Parse raw) as [p|e] eqn:Hp; [done|].
  intros _. by apply (NormalizeURL_unparsed raw e).
Qed.

Lemma scoped_nh `{R : Runtime} domain u : scoped domain u → no_hash u.
Proof.
  intros (c & Hc & ->). apply NormalizeURL_nh.
  unfold crawl.in_scope, crawl.IsSameDomain in Hc.
  by destruct (url.Parse c).
Qed.

(** X24: no URL of the list [DiscoverAll] returns holds a [#]: pages that
    differ by their fragment only are not told apart. *)
Theorem DiscoverAll_no_fragments `{F : Fetcher} baseURL st urls st' :
  crawl.DiscoverAll baseURL st = Returned (Ok urls, st') →
  Forall no_hash urls.
Proof.
  intros Hrun. destruct (url.Parse baseURL) as [parsed|e] eqn:Hp.
  2:{ unfold crawl.DiscoverAll in Hrun. by rewrite Hp in Hrun. }
  rewrite (DiscoverAll_parsed _ _ _ Hp) in Hrun.
  pose proof (discoverFromSitemap_scoped (sitemap_location parsed)
                (url.Host parsed) st) as Hsm.
  assert (∀ st1, crawl.discoverFromLinks baseURL (url.Host parsed) st1
                 = Returned (Ok urls, st') → Forall no_hash urls) as Hbfs.
  { intros st1 Hrun1.
    destruct (discoverFromLinks_outcome baseURL (url.Host parsed) st1)
      as [(rest & fetched & st2 & Hrun2 & Hall & _)|Hpanic]; [|congruence].
    rewrite Hrun1 in Hrun2. injection Hrun2 as -> _.
    constructor; [apply NormalizeURL_nh; by rewrite Hp|].
    eapply Forall_impl; [exact Hall|]. intros u. apply scoped_nh. }
  destruct (crawl.discoverFromSitemap _ _ st) as [[[|v vs]|e] st1];
    cbn [fst] in Hsm; [by apply (Hbfs st1)| |by apply (Hbfs st1)].
  injection Hrun as <- _.
  eapply Forall_impl; [exact (Hsm _ eq_refl)|]. intros u. apply scoped_nh.
Qed.

End NoFragment.

(** ** Links without fragments *)

Section LinkFragments.
Context `{R : Runtime}.

Lemma nh_nil : no_hash "".
Proof. done. Qed.

Lemma nh_resolvePath_loop fuel : ∀ (remaining dst : string) first,
  no_hash remaining → no_hash dst →
  no_hash (url.resolvePath_loop fuel remaining dst first).1
  ∧ no_hash (url.resolvePath_loop fuel remaining dst first).2.
Proof.
  induction fuel as [|fuel IH]; intros remaining dst first Hrem Hdst;
    cbn [url.resolvePath_loop];
    pose proof (nh_CutByte remaining "/" Hrem) as [Helem Hrest];
    destruct (strings.CutByte remaining "/") as [[elem rest] found];
    cbn [fst snd] in Helem, Hrest;
    match goal with
    | |- context [match ?p with pair _ _ => _ end] =>
        assert (no_hash p.1) as Hd;
        [|destruct p as [d f]; cbn [fst] in Hd]
    end.
  - destruct (String.eqb elem "."); [done|].
    destruct (String.eqb elem "..").
    + destruct (strings.LastIndexByte (str_drop 1 dst) "/"); [|done].
      apply nh_app. split; [done|]. by apply nh_take, nh_drop.
    + apply nh_app. split; [|done].
      destruct first; [done|]. by apply nh_app.
  - by destruct found.
  - destruct (String.eqb elem "."); [done|].
    destruct (String.eqb elem "..").
    + destruct (strings.LastIndexByte (str_drop 1 dst) "/"); [|done].
      apply nh_app. split; [done|]. by apply nh_take, nh_drop.
    + apply nh_app. split; [|done].
      destruct first; [done|]. by apply nh_app.
  - destruct found; [by apply IH|done].
Qed.

Lemma nh_resolvePath (base ref : string) :
  no_hash base → no_hash ref → no_hash (url.resolvePath base ref).
Proof.
  intros Hb Hr. unfold url.resolvePath.
  set (full := if String.eqb ref "" then base
               else if negb (strings.HasPrefix ref "/") then
                 match strings.LastIndexByte base "/" with
                 | Some i => str_take (S i) base ++ ref
                 | None => ref
                 end
               else ref).
  assert (no_hash full) as Hfull.
  { unfold full. destruct (String.eqb ref ""); [done|].
    destruct (negb _); [|done].
    destruct (strings.LastIndexByte base "/"); [|done].
    apply nh_app. split; [by apply nh_take|done]. }
  destruct (String.eqb full ""); [done|].
  pose proof (nh_resolvePath_loop (String.length full) full "/" true Hfull
                eq_refl) as [Hd He].
  destruct (url.resolvePath_loop (String.length full) full "/" true)
    as [dst elem]. cbn [fst snd] in Hd, He.
  assert (no_hash (if String.eqb elem "." || String.eqb elem ".."
                   then dst ++ "/" else dst)) as Hres.
  { destruct (_ || _); [|done]. by apply nh_app. }
  destruct (_ && _); [by apply nh_drop|done].
Qed.

Lemma setPath_unchecked_raw_fields (u : url.URL) (p : string) :
  raw_fields_no_hash u → no_hash p →
  raw_fields_no_hash (url.setPath_unchecked u p).
Proof.
  intros Hu Hp. unfold url.setPath_unchecked.
  destruct (url.setPath u p) as [u'|] eqn:Hset; [|done].
  by apply (setPath_raw_fields u u' p).
Qed.

Lemma ResolveReference_raw_fields (base : option url.URL) (ref resolved : url.URL) :
  (∀ b, base = Some b → raw_fields_no_hash b) → raw_fields_no_hash ref →
  url.ResolveReference base ref = Some resolved → raw_fields_no_hash resolved.
Proof.
  intros Hbase Href. unfold url.ResolveReference.
  pose proof (nh_EscapedPath ref (proj1 (proj2 (proj2 Href)))) as Hrp.
  destruct Href as (Hs & Ho & Hp & Hq).
  assert (∀ url0 : url.URL,
    raw_fields_no_hash url0 →
    (if url.nonempty (url.Scheme ref) || url.nonempty (url.Host ref)
        || match url.User ref with Some _ => true | None => false end
     then Some (url.setPath_unchecked url0
                  (url.resolvePath (url.EscapedPath ref) ""))
     else if url.nonempty (url.Opaque ref)
     then Some (url.with_Path "" (url.with_Host "" (url.with_User None url0)))
     else
       u ← base;
       let url1 :=
         if String.eqb (url.Path ref) "" && negb (url.ForceQuery ref)
            && String.eqb (url.RawQuery ref) ""
         then
           let url2 := url.with_RawQuery (url.RawQuery u) url0 in
           if String.eqb (url.Fragment ref) ""
           then url.with_RawFragment (url.RawFragment u)
                  (url.with_Fragment (url.Fragment u) url2)
           else url2
         else url0 in
       if String.eqb (url.Path ref) "" && url.nonempty (url.Opaque u)
       then Some (url.with_Path "" (url.with_Host "" (url.with_User None
                    (url.with_Opaque (url.Opaque u) url1))))
       else
         let url2 := url.with_User (url.User u) (url.with_Host (url.Host u) url1) in
         Some (url.setPath_unchecked url2
                 (url.resolvePath (url.EscapedPath u) (url.EscapedPath ref))))
    = Some resolved → raw_fields_no_hash resolved) as Hrest.
  { intros url0 H0.
    destruct (_ || _).
    { intros [= <-]. apply setPath_unchecked_raw_fields; [done|].
      by apply nh_resolvePath. }
    destruct (url.nonempty (url.Opaque ref)).
    { intros [= <-]. destruct H0 as (? & ? & ? & ?). by repeat split. }
    destruct base as [u|]; [|done]. cbn [mbind option_bind].
    destruct (Hbase u eq_refl) as (Hus & Huo & Hup & Huq).
    pose proof (nh_EscapedPath u Hup) as Hurp.
    destruct H0 as (? & ? & ? & ?).
    destruct (String.eqb (url.Path ref) "" && negb (url.ForceQuery ref)
              && String.eqb (url.RawQuery ref) "");
      [destruct (String.eqb (url.Fragment ref) "")|];
      (destruct (String.eqb (url.Path ref) "" && url.nonempty (url.Opaque u));
       intros [= <-];
       [by repeat split
       |apply setPath_unchecked_raw_fields;
        [by repeat split|by apply nh_resolvePath]]). }
  destruct (String.eqb (url.Scheme ref) "").
  - destruct base as [u|]; [|done]. cbn [mbind option_bind].
    apply Hrest. destruct (Hbase u eq_refl) as (? & ? & ? & ?).
    by repeat split.
  - cbn [mbind option_bind]. apply Hrest. by repeat split.
Qed.

Lemma resolveURL_nh href (base : option url.URL) s :
  (∀ b, base = Some b → raw_fields_no_hash b) →
  crawl.resolveURL href base = Returned s → no_hash s.
Proof.
  intros Hbase. unfold crawl.resolveURL.
  destruct (_ || _); [by intros [= <-]|].
  destruct (url.Parse href) as [ref|] eqn:Hp; [|by intros [= <-]].
  apply Parse_raw_fields in Hp.
  destruct (url.ResolveReference base ref) as [resolved|] eqn:Hres; [|done].
  intros [= <-].
  destruct (ResolveReference_raw_fields base ref resolved Hbase Hp Hres)
    as (? & ? & ? & ?).
  apply nh_String; [by repeat split|done].
Qed.

(** X25: no link that [extractLinks] returns holds a [#]: the fragment of
    a reference is dropped, and what is printed of the resolved URL is
    copied from the texts before the fragments of the reference and of
    the base, or percent-encoded. *)
Theorem extractLinks_no_fragments html baseURL links :
  crawl.extractLinks html baseURL = Returned (Ok links) →
  Forall no_hash links.
Proof.
  unfold crawl.extractLinks.
  destruct (goquery_hrefs html) as [hrefs|]; [|done].
  set (base := match url.Parse baseURL with Ok u => Some u | Err _ => None end).
  assert (∀ b, base = Some b → raw_fields_no_hash b) as Hbase.
  { intros b. unfold base.
    destruct (url.Parse baseURL) as [u|] eqn:Hp; [|done].
    intros [= <-]. by apply Parse_raw_fields in Hp. }
  assert (∀ acc ls, Forall no_hash acc →
            crawl.each_href hrefs base acc = Returned ls → Forall no_hash ls)
    as Heach.
  { induction hrefs as [|h hrefs IH]; intros acc ls Hacc;
      cbn [crawl.each_href]; [by intros [= <-]|].
    destruct (String.eqb h ""); [by apply IH|].
    destruct (crawl.resolveURL h base) as [s| |] eqn:Hres; [|done|done].
    apply IH. destruct (negb (String.eqb s "")); [|done].
    apply Forall_app. split; [done|]. constructor; [|constructor].
    by apply (resolveURL_nh h base). }
  destruct (crawl.each_href hrefs base []) as [ls| |] eqn:Hrun; [|done|done].
  intros [= <-]. by apply (Heach [] ls).
Qed.

End LinkFragments.

(** ** The file of a page *)

Section Mirror.
Context `{O : OS}.

(** [WriteAll] looks at the path of the parsed URL only. *)
Lemma WriteAll_plain wr (scheme host path : string) f data ext w :
  plain_scheme scheme = true → plain_host host = true →
  plain_path path = true → plain_fragment f = true →
  output.WriteAll wr (plain_url scheme host path f) data ext w
  = output.WriteAll wr (plain_url "x" "x" path None) data ext w.
Proof.
  intros Hs Hh Hp Hf. unfold output.WriteAll.
  destruct (Parse_plain scheme host path f Hs Hh Hp Hf) as (frag & rawfrag & ->).
  destruct (Parse_plain "x" "x" path None eq_refl eq_refl Hp eq_refl)
    as (frag' & rawfrag' & ->).
  done.
Qed.

Lemma TrimSuffix_normal_path (p : string) :
  strings.HasSuffix p "//" = false ∨ p = "//" →
  (let t := strings.TrimSuffix (normal_path p) "/" in
   if String.eqb t "" || String.eqb t "/" then "/index" else t)
  = (let t := strings.TrimSuffix p "/" in
     if String.eqb t "" || String.eqb t "/" then "/index" else t).
Proof.
  intros Hp. cbn zeta.
  destruct (str_snoc_cases p) as [->|(t & c & ->)]; [done|].
  rewrite normal_path_snoc. destruct (Ascii.eqb c "/") eqn:Hc; [|done].
  apply Ascii.eqb_eq in Hc as ->.
  destruct (String.eqb t "") eqn:Ht.
  { apply String.eqb_eq in Ht as ->. by rewrite append_nil_l. }
  rewrite (TrimSuffix_snoc t "/" "/"). change (Ascii.eqb "/" "/") with true.
  cbn match. rewrite Ht. cbn [orb].
  destruct (str_snoc_cases t) as [->|(t' & d & ->)]; [by cbn in Ht|].
  rewrite TrimSuffix_snoc.
  destruct (Ascii.eqb d "/") eqn:Hd; [|by rewrite Ht].
  apply Ascii.eqb_eq in Hd as ->.
  destruct Hp as [Hp|Hp].
  - rewrite append_assoc, append_cons, append_nil_l, HasSuffix_two in Hp.
    done.
  - destruct t' as [|a t'].
    + done.
    + exfalso. apply (f_equal String.length) in Hp.
      rewrite !length_append in Hp. cbn [String.length] in Hp. lia.
Qed.

(** X26: the file [WriteAll] writes for a plain URL depends on its path
    only, not on the scheme, the host or the fragment; and, unless the
    path ends in two slashes, it is the same file for the URL and for
    its normal form, so that it does not matter that discovery hands the
    pipeline normalized URLs. *)
Theorem WriteAll_plain_target wr (scheme host path : string) f
  (scheme' host' : string) f' data ext w :
  plain_scheme scheme = true → plain_host host = true →
  plain_path path = true → plain_fragment f = true →
  plain_scheme scheme' = true → plain_host host' = true →
  plain_fragment f' = true →
  output.WriteAll wr (plain_url scheme host path f) data ext w
  = output.WriteAll wr (plain_url scheme' host' path f') data ext w
  ∧ (strings.HasSuffix path "//" = false ∨ path = "//" →
     output.WriteAll wr (crawl.NormalizeURL (plain_url scheme host path f))
       data ext w
     = output.WriteAll wr (plain_url scheme host path f) data ext w).
Proof.
  intros Hs Hh Hp Hf Hs' Hh' Hf'. split.
  - rewrite WriteAll_plain by done. symmetry. by apply WriteAll_plain.
  - intros Hpath. rewrite NormalizeURL_plain_url by done.
    pose proof (normal_path_plain path Hp) as Hnp.
    unfold output.WriteAll.
    destruct (Parse_plain scheme host path f Hs Hh Hp Hf)
      as (frag & rawfrag & ->).
    destruct (Parse_plain scheme host (normal_path path) None Hs Hh Hnp eq_refl)
      as (frag' & rawfrag' & ->).
    cbn [url.Path]. cbn zeta.
    pose proof (TrimSuffix_normal_path path Hpath) as Heq. cbn zeta in Heq.
    by rewrite Heq.
Qed.

End Mirror.

(** ** The further properties on the stub collaborators *)

Lemma Next_Add_commute_witness :
  ∃ x q1,
    crawl.Next (add_all ["a"; "b"] crawl.NewQueue) = Returned (x, q1)
    ∧ crawl.Next (crawl.Add "c" (add_all ["a"; "b"] crawl.NewQueue))
      = Returned (x, crawl.Add "c" q1).
Proof.
  apply (Next_Add_commute (add_all ["a"; "b"] crawl.NewQueue) "c").
  vm_compute. reflexivity.
Defined.

Lemma reachable_invariant_witness :
  let q := add_all ["a"; "b"; "a"] crawl.NewQueue in
  let q' := crawl.mkQueue (crawl.items q) (crawl.visited q) 1 in
  NoDup (crawl.All q') ∧ crawl.Visited q' = length (crawl.All q')
  ∧ crawl.HasNext q' = true.
Proof.
  intros q q'.
  assert (reachable q') as Hr.
  { apply (reachable_next q "a" q'); [|vm_compute; reflexivity].
    repeat apply reachable_add. apply reachable_new. }
  destruct (reachable_invariant q' Hr) as (Hnd & Hv & _).
  split; [exact Hnd|]. split; [exact Hv|]. vm_compute. reflexivity.
Defined.

Lemma discoverFromLinks_fetches_witness :
  NoDup ["https://x.com/"]
  ∧ ∃ n, (1 ≤ n ≤ 99)%nat ∧ (n ≤ length ["https://x.com/"])%nat
         ∧ [EvFetch "https://x.com/"]
           = ([] ++ (EvFetch <$> take n ["https://x.com/"]))%list.
Proof.
  apply (@discoverFromLinks_fetches stub.offline (stub.down _) "https://x.com/"
           "x.com" (stub.start stub.offline tt) ["https://x.com/"]
           (@mkState stub.offline tt [EvFetch "https://x.com/"])).
  vm_compute. reflexivity.
Defined.

Lemma DiscoverAll_requests_witness :
  ∃ gets fetched,
    [EvGet "https://x.com/sitemap.xml"]
    = ([] ++ (EvGet <$> gets) ++ (EvFetch <$> fetched))%list
    ∧ (length gets ≤ 1)%nat ∧ (length fetched ≤ 99)%nat
    ∧ (∀ g, g ∈ gets →
        ∃ parsed, url.Parse "https://x.com/" = Ok parsed
                  ∧ g = sitemap_location parsed).
Proof.
  apply (@DiscoverAll_requests stub.with_sitemap (stub.down _) "https://x.com/"
           (stub.start stub.with_sitemap tt)
           (Ok ["https://x.com/a"; "https://x.com/c"; "https://x.com/d"])
           (@mkState stub.with_sitemap tt [EvGet "https://x.com/sitemap.xml"])).
  vm_compute. reflexivity.
Defined.

Lemma extractLinks_panics_iff_witness :
  @crawl.extractLinks stub.offline "next" "//a:b" = Panicked NilDereference
  ∧ ∃ r, @crawl.extractLinks stub.offline "next" "https://x.com/a"
         = Returned r.
Proof.
  split.
  - apply (proj2 (proj1 (@extractLinks_panics_iff stub.offline
                           "next" "//a:b"))).
    split; [vm_compute; reflexivity|].
    exists ["next"]. split; vm_compute; reflexivity.
  - apply (proj2 (@extractLinks_panics_iff stub.offline
                    "next" "https://x.com/a")).
    vm_compute. discriminate.
Defined.

Lemma DiscoverAll_nil_base_panics_witness :
  @crawl.DiscoverAll stub.offline (sample.echo _) "/%2Fa:b/"
    (stub.start stub.offline tt)
  = Panicked NilDereference.
Proof.
  apply (@DiscoverAll_nil_base_panics stub.offline (sample.echo _) "/%2Fa:b/"
           (url.mkURL "" "" None "" "//a:b/" "/%2Fa:b/" false false "" "" "")
           (stub.start stub.offline tt)
           (mkFetchResult "//a:b" 200 "next") tt ["next"]).
  - vm_compute. reflexivity.
  - intros (urls & Hrun & _). vm_compute in Hrun. discriminate Hrun.
  - vm_compute. reflexivity.
  - vm_compute. reflexivity.
  - vm_compute. reflexivity.
  - vm_compute. reflexivity.
Defined.

Lemma HTTPFetcher_Fetch_ok_witness :
  @Fetch stub.offline
    (@fetch.HTTPFetcher stub.offline
       (fun _ w => (Ok (mkResponse 204 (Ok "<html/>")), w)) (fun _ => "error"))
    "https://x.com/" tt
  = (Ok (mkFetchResult "https://x.com/" 204 "<html/>"), tt)
  ∧ ∃ e, @Fetch stub.offline
           (@fetch.HTTPFetcher stub.offline
              (fun _ w => (Ok (mkResponse 204 (Ok "<html/>")), w))
              (fun _ => "error"))
           "http://x.com/%zz" tt
         = (Err e, tt).
Proof.
  split.
  - apply (proj1 (@HTTPFetcher_Fetch_ok stub.offline
                    (fun _ w => (Ok (mkResponse 204 (Ok "<html/>")), w))
                    (fun _ => "error") "https://x.com/" tt
                    (mkFetchResult "https://x.com/" 204 "<html/>") tt)).
    split; [vm_compute; reflexivity|].
    exists (mkResponse 204 (Ok "<html/>")), "<html/>".
    repeat split; (reflexivity || cbn; lia).
  - apply (proj2 (@HTTPFetcher_Fetch_ok stub.offline
                    (fun _ w => (Ok (mkResponse 204 (Ok "<html/>")), w))
                    (fun _ => "error") "http://x.com/%zz" tt
                    (mkFetchResult "" 0 "") tt)).
    vm_compute. reflexivity.
Defined.

Lemma IsSameDomain_plain_witness :
  crawl.IsSameDomain "https://x.com/docs/#top" "x.com" = true
  ∧ crawl.IsSameDomain (crawl.NormalizeURL "https://x.com/docs/#top")
      "www.x.com" = false.
Proof.
  destruct (IsSameDomain_plain "https" "x.com" "/docs/" (Some "top") "x.com"
              eq_refl eq_refl eq_refl eq_refl) as [H1 _].
  destruct (IsSameDomain_plain "https" "x.com" "/docs/" (Some "top") "www.x.com"
              eq_refl eq_refl eq_refl eq_refl) as [_ H2].
  split; [exact H1|exact H2].
Defined.

Lemma IsStaticAsset_plain_witness :
  @crawl.IsStaticAsset stub.offline "https://x.com/img/Logo.PNG#top" = true.
Proof.
  exact (@IsStaticAsset_plain stub.offline "https" "x.com" "/img/Logo.PNG"
           (Some "top") eq_refl eq_refl eq_refl eq_refl).
Defined.


Lemma extractTitle_spec_witness :
  cmd.extractTitle
    ("<html><head>" ++ "<title>" ++ "Hi" ++ "</title>" ++ "</head></html>")
  = "Hi".
Proof.
  apply (proj2 extractTitle_spec "<html><head>" "Hi" "</head></html>");
    vm_compute; reflexivity.
Defined.

Lemma extractLang_spec_witness :
  cmd.extractLang
    ("<html " ++ cmd.lang_attr ++ "fr" ++ String url.dquote "><body/></html>")
  = "fr"
  ∧ cmd.extractLang ("<html " ++ cmd.lang_attr ++ "fr") = "fr".
Proof.
  apply (proj2 extractLang_spec "<html " "fr" "><body/></html>");
    vm_compute; reflexivity.
Defined.

Lemma validateFlags_selectRenderer_witness :
  cmd.validateFlags
    (cmd.mkFlags false true false false false true "nomic-embed-text" 512 "")
  = None.
Proof.
  apply (proj2 (validateFlags_selectRenderer (H:=stub.offline)
                  (RS:=sample.renderers _)
                  (cmd.mkFlags false true false false false true
                     "nomic-embed-text" 512 ""))).
  split; [reflexivity|]. right. right. right.
  repeat split; try reflexivity. discriminate.
Defined.

Lemma runAll_processes_every_page_witness :
  ∃ s',
    @cmd.runAll stub.offline (sample.disk _)
      (stub.down _) (sample.extractor _) (sample.normalizer _)
      "https://x.com/" render.NewMarkdownRenderer (output.mkWriter "/out")
      (sample.fresh stub.offline tt)
    = Returned (None, s')
    ∧ trace (cmd.net s')
      = [EvGet "https://x.com/sitemap.xml"; EvFetch "https://x.com/";
         EvFetch "https://x.com/"].
Proof.
  eexists. split; [vm_compute; reflexivity|].
  pose proof (runAll_processes_every_page (H:=stub.offline)
                (O:=sample.disk _) (F:=stub.down _) (E:=sample.extractor _)
                (N:=sample.normalizer _)
                "https://x.com/" render.NewMarkdownRenderer
                (output.mkWriter "/out") (sample.fresh stub.offline tt)
                None _ ltac:(vm_compute; reflexivity)) as H.
  vm_compute in H. destruct H as (_ & Ht & _). vm_compute. exact Ht.
Defined.

Lemma runOnly_writes_one_file_witness :
  ∃ s',
    @cmd.runOnly stub.offline (sample.disk _)
      (fetch.HTTPFetcher (sample.same_page _) sample.error_text)
      (sample.extractor _) (sample.normalizer _)
      "https://go.dev/doc/effective_go" render.NewMarkdownRenderer
      (output.mkWriter "/out") (sample.fresh stub.offline tt)
    = Returned (None, s')
    ∧ cmd.printed s' = [cmd.MsgWritten "/out/go_dev_doc_effective_go.md"].
Proof.
  eexists. split; [vm_compute; reflexivity|].
  pose proof (runOnly_writes_one_file (H:=stub.offline)
                (O:=sample.disk _)
                (F:=fetch.HTTPFetcher (sample.same_page _) sample.error_text)
                (E:=sample.extractor _) (N:=sample.normalizer _)
                "https://go.dev/doc/effective_go" render.NewMarkdownRenderer
                (output.mkWriter "/out") (sample.fresh stub.offline tt)
                None _ ltac:(vm_compute; reflexivity)) as H.
  cbn zeta in H. destruct H as (_ & _ & Hp). vm_compute in Hp. vm_compute.
  exact Hp.
Defined.

Lemma runConvert_returns_witness :
  ∃ e,
    @cmd.runConvert stub.offline (sample.renderers _) (sample.disk _)
      (sample.same_page _) sample.error_text
      (sample.extractor _) (sample.normalizer _)
      (cmd.mkFlags false true false true false false "" 512 "")
      "x.com/docs" (sample.fresh stub.offline tt)
    = Returned (Some e, sample.fresh stub.offline tt).
Proof.
  destruct (runConvert_returns (H:=stub.offline) (RS:=sample.renderers _)
              (O:=sample.disk _) (E:=sample.extractor _)
              (N:=sample.normalizer _)
              (sample.same_page _) sample.error_text
              (cmd.mkFlags false true false true false false "" 512 "")
              "x.com/docs" (sample.fresh stub.offline tt))
    as (r & s' & Hrun & Hrej & _).
  destruct Hrej as [Hr ->].
  - right. intros parsed Hp. vm_compute in Hp. injection Hp as <-. by left.
  - destruct r as [e|]; [|done]. by exists e.
Defined.

Lemma sanitize_spec_witness :
  output.sanitize "go.dev"
  = str_map (fun c => if is_alnum c then c else "_"%char) "go.dev"
  ∧ output.sanitize "go_dev" = "go_dev".
Proof.
  destruct (sanitize_spec "go.dev") as (_ & _ & _ & _ & Hmap).
  destruct (sanitize_spec "go_dev") as (_ & _ & _ & Hsame & _).
  split; [apply Hmap|apply Hsame]; reflexivity.
Defined.

Lemma Chunk_partition_witness :
  ∃ groups,
    chunk.Chunk (fun _ => []) (chunk.New 2) "a b  c"
    = chunk.Chunks ((fun g => strings.Join g " ") <$> groups)
    ∧ concat groups = strings.Fields (fun _ => []) "a b  c".
Proof.
  destruct (Chunk_partition (fun _ => []) (chunk.New 2) "a b  c")
    as (groups & Hrun & Hcat & _); [reflexivity|].
  by exists groups.
Defined.

Lemma Chunk_keeps_words_witness :
  ∃ chunks,
    chunk.Chunk (fun _ => []) (chunk.New 2) "a b  c" = chunk.Chunks chunks
    ∧ strings.Join chunks " "
      = strings.Join (strings.Fields (fun _ => []) "a b  c") " ".
Proof.
  apply (Chunk_keeps_words (fun _ => []) (chunk.New 2) "a b  c"). reflexivity.
Defined.

Lemma Chunk_size_guard_witness :
  (∀ fuel, chunk.Chunk_fuel (fun _ => []) fuel (chunk.mkChunker 0) "a b"
           = chunk.Unfinished)
  ∧ chunk.Chunk_fuel (fun _ => []) 1 (chunk.mkChunker (-1)) "a b"
    = chunk.SliceBoundsOutOfRange.
Proof.
  destruct (Chunk_size_guard (fun _ => []) "a b") as [_ Hbad].
  destruct Hbad as [Hzero Hneg]; [vm_compute; discriminate|].
  split; [exact Hzero|]. apply Hneg. reflexivity.
Defined.

Lemma Chunk_ascii_bounded_witness :
  ∃ chunks,
    chunk.Chunk (fun _ => []) (chunk.New 2) "a b  c" = chunk.Chunks chunks
    ∧ ∀ ch, ch ∈ chunks →
        (1 ≤ Z.of_nat (length (strings.Fields (fun _ => []) ch))
         ≤ chunk.ChunkSize (chunk.New 2))%Z
        ∧ chunk.Chunk (fun _ => []) (chunk.New 2) ch = chunk.Chunks [ch].
Proof.
  apply (Chunk_ascii_bounded (fun _ => []) (chunk.New 2) "a b  c");
    reflexivity.
Defined.

Lemma NormalizeURL_no_fragment_witness :
  no_hash (crawl.NormalizeURL "https://x.com/a%23b/#top")
  ∧ crawl.NormalizeURL "http://x.com/%zz#top" = "http://x.com/%zz#top".
Proof.
  destruct (NormalizeURL_no_fragment "https://x.com/a%23b/#top") as [Hok _].
  destruct (NormalizeURL_no_fragment "http://x.com/%zz#top") as [_ Hbad].
  split; [apply Hok|apply Hbad]; vm_compute; reflexivity.
Defined.

Lemma DiscoverAll_no_fragments_witness :
  Forall no_hash ["https://x.com/a"; "https://x.com/c"; "https://x.com/d"].
Proof.
  apply (@DiscoverAll_no_fragments stub.with_sitemap (stub.down _)
           "https://x.com/" (stub.start stub.with_sitemap tt)
           ["https://x.com/a"; "https://x.com/c"; "https://x.com/d"]
           (@mkState stub.with_sitemap tt [EvGet "https://x.com/sitemap.xml"])).
  vm_compute. reflexivity.
Defined.

Lemma extractLinks_no_fragments_witness :
  Forall no_hash ["https://x.com/intro"].
Proof.
  apply (@extractLinks_no_fragments stub.offline "../intro#install"
           "https://x.com/docs/" ["https://x.com/intro"]).
  vm_compute. reflexivity.
Defined.

Lemma WriteAll_plain_target_witness :
  @output.WriteAll stub.offline (sample.disk _) (output.mkWriter "/out")
    (crawl.NormalizeURL "https://site.com/docs/intro/#top") "page" ".md" tt
  = @output.WriteAll stub.offline (sample.disk _) (output.mkWriter "/out")
      "https://site.com/docs/intro/#top" "page" ".md" tt.
Proof.
  apply (proj2 (@WriteAll_plain_target stub.offline (sample.disk _)
                  (output.mkWriter "/out") "https" "site.com" "/docs/intro/"
                  (Some "top") "https" "site.com" None "page" ".md" tt
                  eq_refl eq_refl eq_refl eq_refl eq_refl eq_refl eq_refl)).
  left. vm_compute. reflexivity.
Defined.
